(** * Adapter execution and self-repair engine: [app/tools/executor.py]

    A shallow embedding of the tool executor of the repository together with
    the part of [app/tools/registry.py] it calls, and the properties of the
    engine that the specification states about it.

    Layout:
    - [Py]        Python values as trees, exceptions, truthiness, the
                  serialisability test of [json.dumps];
    - [Sanitizer] [_sanitize_json_floats];
    - [Sandbox]   [_safe_builtins], [exec] of an adapter source,
                  [_run_preprocessor], [_run_postprocessor];
    - [Registry]  [get_tool], [get_script_path], [update_tool_adapter];
    - [Executor]  [execute_tool] with its repair loops. *)

From Stdlib Require Import ZArith String List Bool Lia.
From Stdlib Require Import Floats.SpecFloat DecimalString.
From stdpp Require Import base option list gmap strings.

Set Warnings "-register-all".

Local Open Scope string_scope.
Local Open Scope list_scope.

(* ===================================================================== *)
(** ** Python values *)
(* ===================================================================== *)

Module Py.

(** Exceptions are identified by their class name and carry the text that
    [str(e)] returns.  [is_exception] tells whether the class derives from
    [Exception], that is, whether [except Exception] catches the exception:
    [KeyboardInterrupt], [SystemExit], [asyncio.CancelledError] and a class
    that adapter code derives from [BaseException] itself do not. *)
Record exn : Type := MkExn {
  etype : string;
  emsg : string;
  is_exception : bool;
}.

Definition Exn (class_name msg : string) : exn := MkExn class_name msg true.
Definition BaseExn (class_name msg : string) : exn :=
  MkExn class_name msg false.

Definition ValueError (msg : string) : exn := Exn "ValueError" msg.
Definition TypeError (msg : string) : exn := Exn "TypeError" msg.
Definition ImportError (msg : string) : exn := Exn "ImportError" msg.
Definition TimeoutError (msg : string) : exn := Exn "TimeoutError" msg.
Definition SyntaxError (msg : string) : exn := Exn "SyntaxError" msg.

(** A computation either returns or raises. *)
Inductive outcome (A : Type) : Type :=
| Ok (a : A)
| Raise (e : exn).
Arguments Ok {A} a.
Arguments Raise {A} e.

(** Keys of a [dict] are the hashable scalars that [json.dumps] accepts as
    keys. *)
Inductive pykey : Type :=
| KStr (s : string)
| KInt (n : Z)
| KFloat (f : spec_float)
| KBool (b : bool)
| KNone.

(** Values are finite trees.  A [dict] keeps its insertion order, hence the
    association list.  [POther] stands for every object that is none of the
    above (a [set], a function, ...); [json.dumps] refuses it. *)
Inductive pyval : Type :=
| PNone
| PBool (b : bool)
| PInt (n : Z)
| PFloat (f : spec_float)
| PStr (s : string)
| PList (items : list pyval)
| PTuple (items : list pyval)
| PDict (entries : list (pykey * pyval))
| POther (type_name : string).

(** Structural induction that reaches below the containers. *)
Section PyvalInd.
Variable P : pyval -> Prop.
Hypothesis HNone : P PNone.
Hypothesis HBool : forall b, P (PBool b).
Hypothesis HInt : forall n, P (PInt n).
Hypothesis HFloat : forall f, P (PFloat f).
Hypothesis HStr : forall s, P (PStr s).
Hypothesis HList : forall items, Forall P items -> P (PList items).
Hypothesis HTuple : forall items, Forall P items -> P (PTuple items).
Hypothesis HDict :
  forall entries, Forall (fun kv => P (snd kv)) entries -> P (PDict entries).
Hypothesis HOther : forall t, P (POther t).

Fixpoint pyval_tree_ind (v : pyval) : P v :=
  let fix on_items (l : list pyval) : Forall P l :=
    match l with
    | [] => @List.Forall_nil _ P
    | x :: l' => @List.Forall_cons _ P x l' (pyval_tree_ind x) (on_items l')
    end in
  let fix on_entries (l : list (pykey * pyval))
      : Forall (fun kv => P (snd kv)) l :=
    match l with
    | [] => @List.Forall_nil _ _
    | kv :: l' =>
        @List.Forall_cons _ (fun kv => P (snd kv)) kv l'
                          (pyval_tree_ind (snd kv)) (on_entries l')
    end in
  match v with
  | PNone => HNone
  | PBool b => HBool b
  | PInt n => HInt n
  | PFloat f => HFloat f
  | PStr s => HStr s
  | PList items => HList items (on_items items)
  | PTuple items => HTuple items (on_items items)
  | PDict entries => HDict entries (on_entries entries)
  | POther t => HOther t
  end.
End PyvalInd.

(** [math.isnan(x) or math.isinf(x)] *)
Definition is_nonfinite (f : spec_float) : bool :=
  match f with
  | S754_nan => true
  | S754_infinity _ => true
  | S754_zero _ => false
  | S754_finite _ _ _ => false
  end.

Definition nan : spec_float := S754_nan.
Definition inf : spec_float := S754_infinity false.

Definition key_nonfinite (k : pykey) : bool :=
  match k with
  | KFloat f => is_nonfinite f
  | _ => false
  end.

(** Does a non-finite float occur anywhere in the tree (as a value, inside a
    list, a tuple or a dict, or as a key)? *)
Fixpoint has_nonfinite (v : pyval) : bool :=
  match v with
  | PFloat f => is_nonfinite f
  | PList items => existsb has_nonfinite items
  | PTuple items => existsb has_nonfinite items
  | PDict entries =>
      existsb (fun kv => key_nonfinite (fst kv) || has_nonfinite (snd kv)) entries
  | _ => false
  end.

(** Trees of mappings with text keys, sequences (lists) and scalars: the
    shape of a parsed JSON document. *)
Definition key_is_str (k : pykey) : bool :=
  match k with KStr _ => true | _ => false end.

Fixpoint json_shaped (v : pyval) : bool :=
  match v with
  | PNone | PBool _ | PInt _ | PFloat _ | PStr _ => true
  | PList items => forallb json_shaped items
  | PDict entries =>
      forallb (fun kv => key_is_str (fst kv) && json_shaped (snd kv)) entries
  | PTuple _ => false
  | POther _ => false
  end.

(** Truth value of an object ([if x:], [x or y], [not x]). *)
Definition float_is_zero (f : spec_float) : bool :=
  match f with S754_zero _ => true | _ => false end.

Definition truthy (v : pyval) : bool :=
  match v with
  | PNone => false
  | PBool b => b
  | PInt n => negb (n =? 0)%Z
  | PFloat f => negb (float_is_zero f)
  | PStr s => negb (String.eqb s "")
  | PList items => negb (Nat.eqb (length items) 0)
  | PTuple items => negb (Nat.eqb (length items) 0)
  | PDict entries => negb (Nat.eqb (length entries) 0)
  | POther _ => true
  end.

Definition str_truthy (s : string) : bool := negb (String.eqb s "").

(** [s[:n]] *)
Definition str_prefix (n : nat) (s : string) : string := String.substring 0 n s.

(** [s[:n] if s else None] *)
Definition clip (n : nat) (s : string) : option string :=
  if str_truthy s then Some (str_prefix n s) else None.

(** *** [json.dumps]

    Only whether the encoder returns or raises matters to the executor (the
    text it returns goes to the tool and to the repair oracle unread).  The
    encoder walks the tree in order and raises at the first value it cannot
    encode: [TypeError] for an object of an unsupported type, [ValueError]
    for a non-finite float when [allow_nan] is false.  Tuples are encoded as
    arrays.  [json.dumps(x)] is the call with [allow_nan = true]. *)
Definition json_float_check (allow_nan : bool) (f : spec_float) : option exn :=
  if is_nonfinite f && negb allow_nan
  then Some (ValueError "Out of range float values are not JSON compliant")
  else None.

Definition json_key_check (allow_nan : bool) (k : pykey) : option exn :=
  match k with
  | KFloat f => json_float_check allow_nan f
  | _ => None
  end.

Definition first_error {A : Type} (chk : A -> option exn) : list A -> option exn :=
  fix go (l : list A) : option exn :=
    match l with
    | [] => None
    | x :: l' => match chk x with Some e => Some e | None => go l' end
    end.

Fixpoint json_check (allow_nan : bool) (v : pyval) : option exn :=
  match v with
  | PNone | PBool _ | PInt _ | PStr _ => None
  | PFloat f => json_float_check allow_nan f
  | PList items => first_error (json_check allow_nan) items
  | PTuple items => first_error (json_check allow_nan) items
  | PDict entries =>
      first_error
        (fun kv => match json_key_check allow_nan (fst kv) with
                   | Some e => Some e
                   | None => json_check allow_nan (snd kv)
                   end) entries
  | POther t =>
      Some (TypeError ("Object of type " +:+ t +:+ " is not JSON serializable"))
  end.

(** The strict encoder of the trust boundary refuses non-finite numbers. *)
Definition strict_serializable (v : pyval) : Prop := json_check false v = None.

End Py.

(* ===================================================================== *)
(** ** The result sanitizer *)
(* ===================================================================== *)

Module Sanitizer.
Import Py.

(** [_sanitize_json_floats(obj)].  The two loops build [cleaned] item by
    item and raise [changed] as soon as one item reports a change; every
    other object, a tuple included, comes back as it is. *)
Fixpoint _sanitize_json_floats (obj : pyval) : pyval * bool :=
  match obj with
  | PDict entries =>
      let '(cleaned, changed) :=
        fold_left
          (fun (acc : list (pykey * pyval) * bool) (kv : pykey * pyval) =>
             let '(cleaned, changed) := acc in
             let '(cleaned_value, value_changed) := _sanitize_json_floats (snd kv) in
             (cleaned ++ [(fst kv, cleaned_value)],
              if value_changed then true else changed))
          entries ([], false) in
      (PDict cleaned, changed)
  | PList items =>
      let '(cleaned, changed) :=
        fold_left
          (fun (acc : list pyval * bool) (item : pyval) =>
             let '(cleaned, changed) := acc in
             let '(cleaned_item, item_changed) := _sanitize_json_floats item in
             (cleaned ++ [cleaned_item],
              if item_changed then true else changed))
          items ([], false) in
      (PList cleaned, changed)
  | PFloat f =>
      if is_nonfinite f then (PNone, true) else (PFloat f, false)
  | _ => (obj, false)
  end.

Definition sanitize (x : pyval) : pyval := fst (_sanitize_json_floats x).
Definition was_modified (x : pyval) : bool := snd (_sanitize_json_floats x).

End Sanitizer.

(* ===================================================================== *)
(** ** The world an execution runs in *)
(* ===================================================================== *)

Module World.
Import Py.

(** *** [app/tools/tool_models.py] *)

Inductive ExecutionType : Type := PYTHON | EXECUTABLE.

(** The fields of [ToolMetadata] that the registry and the executor read
    (the schema fields play no part in an execution). *)
Record ToolMetadata : Type := {
  tool_id : string;
  tool_name : string;
  description : string;
  execution_type : ExecutionType;
  file_name : string;
}.

Record AdapterCode : Type := {
  adapter_tool_id : string;
  pre_process_code : string;
  post_process_code : string;
}.

Record ToolRegistryEntry : Type := {
  metadata : ToolMetadata;
  adapter : AdapterCode;
  source_code : option string;
}.

Definition AdapterCode_eqb (a b : AdapterCode) : bool :=
  String.eqb (adapter_tool_id a) (adapter_tool_id b)
  && String.eqb (pre_process_code a) (pre_process_code b)
  && String.eqb (post_process_code a) (post_process_code b).

(** *** Adapter sources

    What [exec] does with a source text is fixed by the statements the text
    compiles to.  A function definition binds a callable with a declared
    parameter list; its body, once entered with two arguments, may change
    both arguments in place and then returns or raises. *)

Inductive param_kind : Type :=
| POSITIONAL_ONLY | POSITIONAL_OR_KEYWORD | VAR_POSITIONAL
| KEYWORD_ONLY | VAR_KEYWORD.

Record param : Type := {
  param_name : string;
  kind : param_kind;
  has_default : bool;
}.

Record call_effect : Type := {
  first_after : pyval;       (* the first argument object after the call *)
  second_after : pyval;      (* the second argument object after the call *)
  returned : outcome pyval;
}.

Record pyfunc : Type := {
  parameters : list param;
  body : pyval -> pyval -> call_effect;
}.

Inductive stmt : Type :=
| SImport (module : string) (bound_as : string)  (* import m / from m import x *)
| SDef (name : string) (fn : pyfunc)             (* def name(...): ... *)
| SAssign (name : string) (v : pyval)            (* name = ... *)
| SPrint (text : string)                         (* print(...) *)
| SRaise (e : exn)                               (* a statement that raises *)
| SRestoreImport.
    (* __builtins__['__import__'] = json.__builtins__['__import__'] *)

(** *** Trace of what an execution did *)

Inductive event : Type :=
| EvStatement (s : stmt)
    (* a top-level statement of an adapter source ran to completion *)
| EvInvoked (fname : string) (a b : pyval)
    (* the body of an adapter function was entered *)
| EvRepair (failed_function failed_code : string)
    (* [repair_adapter] was consulted *)
| EvSubprocess (cmd : list string)
    (* the tool was launched *)
| EvStdoutFallback
    (* the warning logged when standard output replaces the output file *)
| EvAdapterWritten (tid : string) (a : AdapterCode).
    (* [adapter.json] of the tool was overwritten *)

Definition is_repair (e : event) : bool :=
  match e with EvRepair _ _ => true | _ => false end.
Definition is_invoked (e : event) : bool :=
  match e with EvInvoked _ _ _ => true | _ => false end.
Definition is_statement (e : event) : bool :=
  match e with EvStatement _ => true | _ => false end.
Definition is_written (e : event) : bool :=
  match e with EvAdapterWritten _ _ => true | _ => false end.

Definition count (p : event -> bool) (tr : list event) : nat :=
  length (List.filter p tr).

(** *** The execution log, [exec_log] of [execute_tool]

    [executed_at] and [execution_time_sec] hold wall-clock readings, and
    [params] holds the caller's [params] object as it is, which
    [_save_execution_log] renders with [default=str]; the three entries are
    left out, and nothing below is about them. *)
Record ExecLog : Type := {
  log_tool_id : string;
  log_tool_name : string;
  log_input : option string;
  log_output : option string;
  log_stdout : option string;
  log_stderr : option string;
  log_return_code : option Z;
  log_success : bool;
  log_message : option string;
  auto_repair_attempts : nat;
  auto_repair_success : bool;
  sanitized_invalid_floats : bool;
}.

(** *** Files and objects *)

(** One directory [data/tool_registry/<tool_id>/]. *)
Record ToolDir : Type := {
  metadata_json : option ToolMetadata;
  adapter_json : option AdapterCode;
}.

Inductive file_state : Type :=
| Unreadable              (* present, but reading it raises *)
| Content (text : string).

(** The local variables of the call in progress that outlive an exception:
    the log dict and the adapter sources in use. *)
Record Frame : Type := {
  exec_log : ExecLog;
  current_pre_code : string;
  current_post_code : string;
}.

Record world : Type := {
  heap : gmap nat pyval;                   (* mutable objects, by identity *)
  registry : gmap string ToolDir;          (* REGISTRY_DIR *)
  uploads : gmap (string * string) string; (* UPLOADS_DIR/<tool_id>/<file> *)
  workdirs : gset string;                  (* WORKDIR_BASE/<exec_id> *)
  files : gmap string file_state;          (* files inside the work dirs *)
  logs : list (string * ExecLog);          (* LOGS_DIR/<tool_id>/<stamp>.json *)
  frame : Frame;
  trace : list event;
}.

Definition set_heap (h : gmap nat pyval) (w : world) : world :=
  {| heap := h; registry := registry w; uploads := uploads w;
     workdirs := workdirs w; files := files w; logs := logs w;
     frame := frame w; trace := trace w |}.
Definition set_registry (r : gmap string ToolDir) (w : world) : world :=
  {| heap := heap w; registry := r; uploads := uploads w;
     workdirs := workdirs w; files := files w; logs := logs w;
     frame := frame w; trace := trace w |}.
Definition set_workdirs (d : gset string) (w : world) : world :=
  {| heap := heap w; registry := registry w; uploads := uploads w;
     workdirs := d; files := files w; logs := logs w;
     frame := frame w; trace := trace w |}.
Definition set_files (f : gmap string file_state) (w : world) : world :=
  {| heap := heap w; registry := registry w; uploads := uploads w;
     workdirs := workdirs w; files := f; logs := logs w;
     frame := frame w; trace := trace w |}.
Definition set_logs (l : list (string * ExecLog)) (w : world) : world :=
  {| heap := heap w; registry := registry w; uploads := uploads w;
     workdirs := workdirs w; files := files w; logs := l;
     frame := frame w; trace := trace w |}.
Definition set_frame (f : Frame) (w : world) : world :=
  {| heap := heap w; registry := registry w; uploads := uploads w;
     workdirs := workdirs w; files := files w; logs := logs w;
     frame := f; trace := trace w |}.
Definition set_trace (t : list event) (w : world) : world :=
  {| heap := heap w; registry := registry w; uploads := uploads w;
     workdirs := workdirs w; files := files w; logs := logs w;
     frame := frame w; trace := t |}.

(** *** Computations: world passing with exceptions

    An exception leaves the world as it was when it was raised. *)
Definition M (A : Type) : Type := world -> outcome A * world.

Definition ret {A} (a : A) : M A := fun w => (Ok a, w).
Definition raise {A} (e : exn) : M A := fun w => (Raise e, w).
Definition bind {A B} (m : M A) (k : A -> M B) : M B :=
  fun w => match m w with
           | (Ok a, w') => k a w'
           | (Raise e, w') => (Raise e, w')
           end.
(** [try: m  except Exception as e: h e].  An exception whose class does
    not derive from [Exception] passes the clause. *)
Definition try_except {A} (m : M A) (h : exn -> M A) : M A :=
  fun w => match m w with
           | (Ok a, w') => (Ok a, w')
           | (Raise e, w') =>
               if is_exception e then h e w' else (Raise e, w')
           end.
(** [try: x = m  except Exception as e: ...], the exception reified *)
Definition catch {A} (m : M A) : M (outcome A) :=
  fun w => match m w with
           | (Ok a, w') => (Ok (Ok a), w')
           | (Raise e, w') =>
               if is_exception e then (Ok (Raise e), w') else (Raise e, w')
           end.
(** [try: m  finally: f] where [f] does not raise *)
Definition finally {A} (m : M A) (f : world -> world) : M A :=
  fun w => let '(r, w') := m w in (r, f w').
Definition lift_outcome {A} (o : outcome A) : M A := fun w => (o, w).
Definition get_world : M world := fun w => (Ok w, w).
Definition modify (f : world -> world) : M unit := fun w => (Ok tt, f w).
Definition emit (e : event) : M unit :=
  modify (fun w => set_trace (trace w ++ [e]) w).

Declare Scope py_scope.
Delimit Scope py_scope with py.
Notation "x <- m ;; k" := (bind m (fun x => k))
  (at level 100, m at next level, right associativity) : py_scope.
Notation "m ;;; k" := (bind m (fun _ => k))
  (at level 100, right associativity) : py_scope.

(** Objects.  A reference that names no object reads as an empty dict. *)
Definition deref (r : nat) : M pyval :=
  fun w => (Ok (default (PDict []) (heap w !! r)), w).
Definition store (r : nat) (v : pyval) : M unit :=
  modify (fun w => set_heap (<[r := v]> (heap w)) w).
Definition alloc (v : pyval) : M nat :=
  fun w => let r := fresh (dom (heap w)) in
           (Ok r, set_heap (<[r := v]> (heap w)) w).
(** [copy.deepcopy(x)]: a new object with an equal tree. *)
Definition deepcopy (r : nat) : M nat :=
  fun w => alloc (default (PDict []) (heap w !! r)) w.

(** *** What lies outside the engine

    The Python compiler and the JSON codec, the repair oracle (an LLM
    behind [app.tools.synthesizer.repair_adapter], which returns a source
    text or [None] and catches its own failures), the operating system that
    runs the tool, and the domain-specific completion step
    [_ensure_process_completeness], whose result the engine passes on
    without looking into it.  Every theorem below holds for every choice of
    these. *)

Record error_info : Type := {
  ei_type : string;
  ei_message : string;
  ei_traceback : string;
}.

(** What [subprocess.run] comes to: the tool ends with an exit status,
    having written its output file or not; or it outlives the timeout; or
    the operating system refuses the launch ([FileNotFoundError],
    [PermissionError], ... with the text of the error number); or what the
    tool printed is not valid text. *)
Inductive process_outcome : Type :=
| Completed (stdout stderr : string) (returncode : Z)
            (output_file : option file_state)
| TimeoutExpired
| OSErrorRaised (class_name strerror : string)
| UndecodableOutput.

Record Env : Type := {
  py_compile : string -> outcome (list stmt);
  json_text : option nat -> pyval -> string;   (* indent, value *)
  json_loads : string -> option pyval;
  format_exc : exn -> string;
  repair_adapter : nat -> string -> string -> error_info -> string -> option string;
  subprocess_run : list string -> string -> process_outcome;
  now_ms : string;
  _ensure_process_completeness : pyval -> pyval -> outcome pyval;
}.

End World.

(* ===================================================================== *)
(** ** The sandbox *)
(* ===================================================================== *)

Module Sandbox.
Import Py World.
Local Open Scope py_scope.

(** *** [_safe_builtins] *)

Definition allowed : list string :=
  ["abs"; "all"; "any"; "bool"; "dict"; "enumerate"; "filter";
   "float"; "format"; "int"; "isinstance"; "len"; "list"; "map";
   "max"; "min"; "next"; "print"; "range"; "round"; "set"; "sorted";
   "str"; "sum"; "tuple"; "type"; "zip"; "None"; "True"; "False";
   "KeyError"; "ValueError"; "TypeError"; "IndexError"; "Exception"].

Definition safe_modules : list string :=
  ["json"; "csv"; "io"; "math"; "statistics"; "copy"; "re"].

Definition module_object : pyval := POther "module".

(** [builtins.__import__] on a module of the standard library. *)
Definition original_import (name : string) : outcome pyval := Ok module_object.

Definition in_safe_modules (name : string) : bool :=
  existsb (String.eqb name) safe_modules.

Definition restricted_import (name : string) : outcome pyval :=
  if negb (in_safe_modules name)
  then Raise (ImportError
                ("'" +:+ name +:+ "' 모듈은 어댑터 코드에서 사용할 수 없습니다."))
  else original_import name.

Record builtins : Type := {
  visible : list string;
  __import__ : string -> outcome pyval;
}.

Definition _safe_builtins : builtins :=
  {| visible := allowed; __import__ := restricted_import |}.

(** *** [exec(code, namespace)] *)

Inductive nsobj : Type :=
| NVal (v : pyval)
| NFunc (f : pyfunc)
| NBuiltins (b : builtins).

Abbreviation namespace := (gmap string nsobj).

(** The builtins of the frame are read from the namespace once, when [exec]
    starts. *)
Definition frame_builtins (ns : namespace) : builtins :=
  match ns !! "__builtins__" with
  | Some (NBuiltins b) => b
  | _ => {| visible := [];
            __import__ := fun _ => Raise (ImportError "__import__ not found") |}
  end.

Definition is_module (v : pyval) : bool :=
  match v with
  | POther t => String.eqb t "module"
  | _ => false
  end.

(** [json.__builtins__['__import__']]: a module of the standard library
    carries the builtins of the interpreter, with the [__import__] that
    [_safe_builtins] has put aside; a function carries the builtins of the
    frame that defined it. *)
Definition import_of_json (b : builtins) (ns : namespace)
  : outcome (string -> outcome pyval) :=
  match ns !! "json" with
  | None => Raise (Exn "NameError" "name 'json' is not defined")
  | Some (NVal v) =>
      if is_module v then Ok original_import
      else Raise (Exn "AttributeError"
                      "object has no attribute '__builtins__'")
  | Some (NFunc _) => Ok (__import__ b)
  | Some (NBuiltins _) =>
      Raise (Exn "AttributeError"
                 "'dict' object has no attribute '__builtins__'")
  end.

(** [__builtins__['__import__'] = json.__builtins__['__import__']].  The
    name [__builtins__] of the namespace holds the very dict the frame looks
    its builtins up in, as long as it has not been bound to something else:
    the assignment writes into that dict.  (A dict bound in its place takes
    the entry instead; no statement of this language reads it.) *)
Definition restore_import (b : builtins) (ns : namespace)
  : outcome (builtins * namespace) :=
  match import_of_json b ns with
  | Raise e => Raise e
  | Ok imp =>
      match ns !! "__builtins__" with
      | Some (NBuiltins _) =>
          let b' := {| visible := visible b; __import__ := imp |} in
          Ok (b', <["__builtins__" := NBuiltins b']> ns)
      | Some (NVal (PDict _)) => Ok (b, ns)
      | Some _ =>
          Raise (TypeError "object does not support item assignment")
      | None => Raise (Exn "NameError" "name '__builtins__' is not defined")
      end
  end.

(** One top-level statement; it yields the builtins of the frame and the
    namespace after it.  The import statement asks the frame's
    [__import__], as it is when the statement runs, for the module and
    binds the result. *)
Definition exec_stmt (b : builtins) (s : stmt) (ns : namespace)
  : M (builtins * namespace) :=
  match s with
  | SImport module bound_as =>
      m <- lift_outcome (__import__ b module) ;;
      ret (b, <[bound_as := NVal m]> ns)
  | SDef name fn => ret (b, <[name := NFunc fn]> ns)
  | SAssign name v => ret (b, <[name := NVal v]> ns)
  | SPrint _ => ret (b, ns)
  | SRaise e => raise e
  | SRestoreImport => lift_outcome (restore_import b ns)
  end.

(** Statements run in source order; the first one that raises ends the
    run. *)
Fixpoint exec_stmts (b : builtins) (prog : list stmt) (ns : namespace)
  : M namespace :=
  match prog with
  | [] => ret ns
  | s :: rest =>
      after <- exec_stmt b s ns ;;
      emit (EvStatement s) ;;;
      exec_stmts (fst after) rest (snd after)
  end.

Definition exec (E : Env) (code : string) (ns : namespace) : M namespace :=
  prog <- lift_outcome (py_compile E code) ;;
  exec_stmts (frame_builtins ns) prog ns.

(** The namespace both runners build: the restricted builtins and the four
    modules injected in advance. *)
Definition sandbox_namespace : namespace :=
  <["math" := NVal module_object]>
    (<["io" := NVal module_object]>
       (<["csv" := NVal module_object]>
          (<["json" := NVal module_object]>
             {["__builtins__" := NBuiltins _safe_builtins]}))).

(** *** Calling what the source bound *)

Definition ns_truthy (o : nsobj) : bool :=
  match o with
  | NVal v => truthy v
  | _ => true
  end.

(** [inspect.signature(fn).parameters] *)
Definition signature (o : nsobj) : outcome (list param) :=
  match o with
  | NFunc f => Ok (parameters f)
  | _ => Raise (TypeError "object is not a callable object")
  end.

Definition is_positional (p : param) : bool :=
  match kind p with
  | POSITIONAL_ONLY | POSITIONAL_OR_KEYWORD => true
  | _ => false
  end.
Definition is_var_positional (p : param) : bool :=
  match kind p with VAR_POSITIONAL => true | _ => false end.
Definition keyword_only_ok (p : param) : bool :=
  match kind p with KEYWORD_ONLY => has_default p | _ => true end.

(** Can [f(a, b)] bind its two positional arguments?  Two positional slots
    (or [*args]) must take them, and whatever stays unbound needs a
    default. *)
Definition accepts_two_positional (ps : list param) : bool :=
  let positional := List.filter is_positional ps in
  ((2 <=? length positional)%nat || existsb is_var_positional ps)
  && forallb has_default (skipn 2 positional)
  && forallb keyword_only_ok ps.

(** [fn(a, b)] where [a] is an object held by reference and [b] a value
    that is either a held object ([b_ref]) or a temporary.  Entering the
    body is recorded; what the body did to its arguments is written back to
    the objects.  In every call the executor makes the two are distinct
    objects. *)
Definition call (fname : string) (o : nsobj) (a : nat) (b : pyval)
                (b_ref : option nat) : M pyval :=
  match o with
  | NFunc f =>
      if accepts_two_positional (parameters f) then
        va <- deref a ;;
        emit (EvInvoked fname va b) ;;;
        let eff := body f va b in
        match b_ref with
        | Some r => store r (second_after eff)
        | None => ret tt
        end ;;;
        store a (first_after eff) ;;;
        lift_outcome (returned eff)
      else
        raise (TypeError (fname +:+ "() cannot take two positional arguments"))
  | _ => raise (TypeError "object is not callable")
  end.

(** [params or {}] *)
Definition params_or_empty (params : option nat) : M (pyval * option nat) :=
  match params with
  | None => ret (PDict [], None)
  | Some r =>
      v <- deref r ;;
      if truthy v then ret (v, Some r) else ret (PDict [], None)
  end.

(** [json.dumps(v, ...)] with the default [allow_nan]. *)
Definition json_dumps (E : Env) (indent : option nat) (v : pyval)
  : outcome string :=
  match json_check true v with
  | Some e => Raise e
  | None => Ok (json_text E indent v)
  end.

(** *** [_run_preprocessor] *)
Definition _run_preprocessor (E : Env) (code : string) (bop_data : nat)
                             (params : option nat) : M string :=
  namespace <- exec E code sandbox_namespace ;;
  match namespace !! "convert_bop_to_input" with
  | Some fn =>
      if negb (ns_truthy fn) then
        raise (ValueError
          "Pre-processor에 'convert_bop_to_input' 함수가 정의되어 있지 않습니다.")
      else
        sig <- lift_outcome (signature fn) ;;
        if (length sig <? 2)%nat then
          raise (ValueError
            "Pre-processor 'convert_bop_to_input'는 반드시 2개의 파라미터(bop_json, params)를 받아야 합니다.")
        else
          p <- params_or_empty params ;;
          result <- call "convert_bop_to_input" fn bop_data (fst p) (snd p) ;;
          match result with
          | PStr s => ret s
          | _ => lift_outcome (json_dumps E None result)
          end
  | None =>
      raise (ValueError
        "Pre-processor에 'convert_bop_to_input' 함수가 정의되어 있지 않습니다.")
  end.

(** *** [_run_postprocessor]

    [tool_output] is text in every call of the executor, so it is always
    handed to [json.loads]. *)
Definition parse_tool_output (E : Env) (tool_output : string) : pyval :=
  match json_loads E tool_output with
  | Some v => v
  | None => PDict [(KStr "raw_output", PStr tool_output)]
  end.

Definition _run_postprocessor (E : Env) (code : string) (bop_data : nat)
                              (tool_output : string) : M pyval :=
  namespace <- exec E code sandbox_namespace ;;
  match namespace !! "apply_result_to_bop" with
  | Some fn =>
      if negb (ns_truthy fn) then
        raise (ValueError
          "Post-processor에 'apply_result_to_bop' 함수가 정의되어 있지 않습니다.")
      else
        let parsed_output := parse_tool_output E tool_output in
        result <- call "apply_result_to_bop" fn bop_data parsed_output None ;;
        match result with
        | PDict _ => ret result
        | _ => raise (ValueError "Post-processor는 dict를 반환해야 합니다.")
        end
  | None =>
      raise (ValueError
        "Post-processor에 'apply_result_to_bop' 함수가 정의되어 있지 않습니다.")
  end.

End Sandbox.

(* ===================================================================== *)
(** ** [app/tools/registry.py] *)
(* ===================================================================== *)

Module Registry.
Import Py World.
Local Open Scope py_scope.

Definition UPLOADS_DIR : string := "uploads/scripts".
Definition WORKDIR_BASE : string := "uploads/workdir".

Definition path_join (dir name : string) : string := dir +:+ "/" +:+ name.

Definition get_script_content (w : world) (tool_id file_name : string)
  : option string :=
  uploads w !! (tool_id, file_name).

(** Both documents of the tool directory must be there. *)
Definition get_tool (w : world) (tool_id : string) : option ToolRegistryEntry :=
  match registry w !! tool_id with
  | Some {| metadata_json := Some m; adapter_json := Some a |} =>
      Some {| metadata := m; adapter := a;
              source_code := get_script_content w tool_id (file_name m) |}
  | _ => None
  end.

Definition get_script_path (w : world) (tool_id file_name : string)
  : option string :=
  match uploads w !! (tool_id, file_name) with
  | Some _ => Some (path_join (path_join UPLOADS_DIR tool_id) file_name)
  | None => None
  end.

(** Overwrites [adapter.json]; refuses when the tool directory is gone. *)
Definition update_tool_adapter (tool_id : string) (a : AdapterCode) : M bool :=
  w <- get_world ;;
  match registry w !! tool_id with
  | None => ret false
  | Some dir =>
      modify (fun w =>
        set_registry
          (<[tool_id := {| metadata_json := metadata_json dir;
                           adapter_json := Some a |}]> (registry w)) w) ;;;
      emit (EvAdapterWritten tool_id a) ;;;
      ret true
  end.

End Registry.

(* ===================================================================== *)
(** ** [app/tools/executor.py]: [execute_tool] *)
(* ===================================================================== *)

Module Executor.
Import Py World Sandbox Registry Sanitizer.
Local Open Scope py_scope.

Definition SUBPROCESS_TIMEOUT_SEC : Z := 60.

(** The repair budget the module ships with (repair switched off).  The
    engine below takes the budget as a parameter. *)
Definition MAX_AUTO_REPAIR_ATTEMPTS_default : nat := 0.

Definition sys_executable : string := "python".

Definition str_of_Z (z : Z) : string := NilZero.string_of_int (Z.to_int z).
Definition str_of_nat (n : nat) : string := str_of_Z (Z.of_nat n).

(** The dict [execute_tool] returns.  A key that a return statement leaves
    out reads [None]; [execution_time_sec] is a wall-clock reading and is
    left out. *)
Record ExecuteResult : Type := {
  success : bool;
  message : string;
  updated_bop : option pyval;
  tool_input : option string;
  tool_output : option string;
  stdout : option string;
  stderr : option string;
  auto_repair_attempted : option bool;
  auto_repaired : option bool;
}.

Definition failure (msg : string) : ExecuteResult :=
  {| success := false; message := msg; updated_bop := None;
     tool_input := None; tool_output := None; stdout := None; stderr := None;
     auto_repair_attempted := None; auto_repaired := None |}.

(** *** The log dict *)

Definition new_exec_log (tid : string) (m : ToolMetadata) : ExecLog :=
  {| log_tool_id := tid; log_tool_name := tool_name m;
     log_input := None; log_output := None; log_stdout := None;
     log_stderr := None; log_return_code := None; log_success := false;
     log_message := None; auto_repair_attempts := 0;
     auto_repair_success := false; sanitized_invalid_floats := false |}.

Definition with_message (msg : string) (l : ExecLog) : ExecLog :=
  {| log_tool_id := log_tool_id l; log_tool_name := log_tool_name l;
     log_input := log_input l; log_output := log_output l;
     log_stdout := log_stdout l; log_stderr := log_stderr l;
     log_return_code := log_return_code l; log_success := log_success l;
     log_message := Some msg; auto_repair_attempts := auto_repair_attempts l;
     auto_repair_success := auto_repair_success l;
     sanitized_invalid_floats := sanitized_invalid_floats l |}.
Definition with_input (s : string) (l : ExecLog) : ExecLog :=
  {| log_tool_id := log_tool_id l; log_tool_name := log_tool_name l;
     log_input := Some s; log_output := log_output l;
     log_stdout := log_stdout l; log_stderr := log_stderr l;
     log_return_code := log_return_code l; log_success := log_success l;
     log_message := log_message l; auto_repair_attempts := auto_repair_attempts l;
     auto_repair_success := auto_repair_success l;
     sanitized_invalid_floats := sanitized_invalid_floats l |}.
Definition with_output (s : string) (l : ExecLog) : ExecLog :=
  {| log_tool_id := log_tool_id l; log_tool_name := log_tool_name l;
     log_input := log_input l; log_output := Some s;
     log_stdout := log_stdout l; log_stderr := log_stderr l;
     log_return_code := log_return_code l; log_success := log_success l;
     log_message := log_message l; auto_repair_attempts := auto_repair_attempts l;
     auto_repair_success := auto_repair_success l;
     sanitized_invalid_floats := sanitized_invalid_floats l |}.
Definition with_process (out err : string) (rc : Z) (l : ExecLog) : ExecLog :=
  {| log_tool_id := log_tool_id l; log_tool_name := log_tool_name l;
     log_input := log_input l; log_output := log_output l;
     log_stdout := Some out; log_stderr := Some err;
     log_return_code := Some rc; log_success := log_success l;
     log_message := log_message l; auto_repair_attempts := auto_repair_attempts l;
     auto_repair_success := auto_repair_success l;
     sanitized_invalid_floats := sanitized_invalid_floats l |}.
Definition bump_attempts (l : ExecLog) : ExecLog :=
  {| log_tool_id := log_tool_id l; log_tool_name := log_tool_name l;
     log_input := log_input l; log_output := log_output l;
     log_stdout := log_stdout l; log_stderr := log_stderr l;
     log_return_code := log_return_code l; log_success := log_success l;
     log_message := log_message l;
     auto_repair_attempts := S (auto_repair_attempts l);
     auto_repair_success := auto_repair_success l;
     sanitized_invalid_floats := sanitized_invalid_floats l |}.
Definition with_repair_success (l : ExecLog) : ExecLog :=
  {| log_tool_id := log_tool_id l; log_tool_name := log_tool_name l;
     log_input := log_input l; log_output := log_output l;
     log_stdout := log_stdout l; log_stderr := log_stderr l;
     log_return_code := log_return_code l; log_success := log_success l;
     log_message := log_message l; auto_repair_attempts := auto_repair_attempts l;
     auto_repair_success := true;
     sanitized_invalid_floats := sanitized_invalid_floats l |}.
Definition with_success (l : ExecLog) : ExecLog :=
  {| log_tool_id := log_tool_id l; log_tool_name := log_tool_name l;
     log_input := log_input l; log_output := log_output l;
     log_stdout := log_stdout l; log_stderr := log_stderr l;
     log_return_code := log_return_code l; log_success := true;
     log_message := log_message l; auto_repair_attempts := auto_repair_attempts l;
     auto_repair_success := auto_repair_success l;
     sanitized_invalid_floats := sanitized_invalid_floats l |}.
Definition with_sanitized (l : ExecLog) : ExecLog :=
  {| log_tool_id := log_tool_id l; log_tool_name := log_tool_name l;
     log_input := log_input l; log_output := log_output l;
     log_stdout := log_stdout l; log_stderr := log_stderr l;
     log_return_code := log_return_code l; log_success := log_success l;
     log_message := log_message l; auto_repair_attempts := auto_repair_attempts l;
     auto_repair_success := auto_repair_success l;
     sanitized_invalid_floats := true |}.

Definition update_log (f : ExecLog -> ExecLog) : M unit :=
  modify (fun w =>
    set_frame {| exec_log := f (exec_log (frame w));
                 current_pre_code := current_pre_code (frame w);
                 current_post_code := current_post_code (frame w) |} w).
Definition set_pre_code (c : string) : M unit :=
  modify (fun w =>
    set_frame {| exec_log := exec_log (frame w);
                 current_pre_code := c;
                 current_post_code := current_post_code (frame w) |} w).
Definition set_post_code (c : string) : M unit :=
  modify (fun w =>
    set_frame {| exec_log := exec_log (frame w);
                 current_pre_code := current_pre_code (frame w);
                 current_post_code := c |} w).
Definition get_log : M ExecLog := fun w => (Ok (exec_log (frame w)), w).
Definition get_pre_code : M string := fun w => (Ok (current_pre_code (frame w)), w).
Definition get_post_code : M string := fun w => (Ok (current_post_code (frame w)), w).

(** [exec_log["message"] = msg], giving [msg] back for the result dict. *)
Definition log_message_is (msg : string) : M string :=
  update_log (with_message msg) ;;; ret msg.

(** *** Helpers of the module *)

Definition _capture_error_info (E : Env) (e : exn) : error_info :=
  {| ei_type := etype e; ei_message := emsg e; ei_traceback := format_exc E e |}.

(** A log file that cannot be written is skipped silently; the model always
    writes it. *)
Definition _save_execution_log (tid : string) (log_data : ExecLog)
                               (w : world) : world :=
  set_logs (logs w ++ [(tid, log_data)]) w.

Definition _build_command (script_path input_file output_file : string)
                          (execution_type : ExecutionType) : list string :=
  let cmd := match execution_type with
             | PYTHON => [sys_executable; script_path]
             | EXECUTABLE => [script_path]
             end in
  cmd ++ ["--input"; input_file; "--output"; output_file].

Definition read_text (w : world) (path : string) : string :=
  match files w !! path with
  | Some (Content t) => t
  | _ => ""
  end.

Definition _execute_subprocess (E : Env)
    (script_path work_dir input_file output_file : string)
    (execution_type : ExecutionType) : M (string * string * Z) :=
  let cmd := _build_command script_path input_file output_file execution_type in
  w <- get_world ;;
  emit (EvSubprocess cmd) ;;;
  match subprocess_run E cmd (read_text w input_file) with
  | Completed out err returncode written =>
      match written with
      | Some f => modify (fun w => set_files (<[output_file := f]> (files w)) w)
      | None => ret tt
      end ;;;
      ret (out, err, returncode)
  | TimeoutExpired =>
      raise (TimeoutError ("스크립트 실행이 " +:+ str_of_Z SUBPROCESS_TIMEOUT_SEC
                           +:+ "초를 초과했습니다."))
  | OSErrorRaised class_name strerror =>
      raise (Exn class_name ("[Errno] " +:+ strerror))
  | UndecodableOutput =>
      raise (Exn "UnicodeDecodeError" "'utf-8' codec can't decode byte")
  end.

(** [shutil.rmtree(work_dir)], failures ignored. *)
Definition rmtree (work_dir input_file output_file : string) (w : world) : world :=
  set_workdirs (workdirs w ∖ {[work_dir]})
    (set_files (delete input_file (delete output_file (files w))) w).

(** *** The pipeline *)

Definition nl : string := String (Ascii.ascii_of_nat 10) "".

(** [str(pre_error)] *)
Definition str_of_error (e : option exn) : string :=
  match e with
  | Some e => emsg e
  | None => "None"
  end.

Definition is_timeout (e : exn) : bool := String.eqb (etype e) "TimeoutError".
Definition is_value_or_type_error (e : exn) : bool :=
  String.eqb (etype e) "ValueError" || String.eqb (etype e) "TypeError".

(** [if fixed_code:] *)
Definition accepted (fixed_code : option string) : option string :=
  match fixed_code with
  | Some c => if str_truthy c then Some c else None
  | None => None
  end.

Section Engine.

Variable MAX_AUTO_REPAIR_ATTEMPTS : nat.
Variable E : Env.

(** [await repair_adapter(...)]: one consultation of the oracle. *)
Definition consult (failed_function failed_code : string) (info : error_info)
                   (input_data : string) : M (option string) :=
  w <- get_world ;;
  emit (EvRepair failed_function failed_code) ;;;
  ret (repair_adapter E (count is_repair (trace w))
         failed_function failed_code info input_data).

(** The pre-processor loop, [for attempt in range(MAX_AUTO_REPAIR_ATTEMPTS + 1)].
    It yields [tool_input] and [pre_error]. *)
Fixpoint pre_loop (bop_data : nat) (params : option nat)
                  (attempts : list nat) (pre_error : option exn)
  : M (option string * option exn) :=
  match attempts with
  | [] => ret (None, pre_error)
  | attempt :: rest =>
      code <- get_pre_code ;;
      r <- catch (_run_preprocessor E code bop_data params) ;;
      match r with
      | Ok tool_input => ret (Some tool_input, pre_error)
      | Raise e =>
          if (attempt <? MAX_AUTO_REPAIR_ATTEMPTS)%nat then
            update_log bump_attempts ;;;
            let info := _capture_error_info E e in
            bop <- deref bop_data ;;
            bop_json_str <- lift_outcome (json_dumps E (Some 2) bop) ;;
            fixed_code <- consult "pre_process" code info bop_json_str ;;
            match accepted fixed_code with
            | Some c => set_pre_code c ;;; pre_loop bop_data params rest (Some e)
            | None => ret (None, Some e)
            end
          else pre_loop bop_data params rest (Some e)
      end
  end.

(** The post-processor loop.  It yields [updated_bop] and [post_error]. *)
Fixpoint post_loop (bop_data : nat) (tool_output : string)
                   (attempts : list nat) (post_error : option exn)
  : M (option pyval * option exn) :=
  match attempts with
  | [] => ret (None, post_error)
  | attempt :: rest =>
      code <- get_post_code ;;
      r <- catch (_run_postprocessor E code bop_data tool_output) ;;
      match r with
      | Ok updated => ret (Some updated, post_error)
      | Raise e =>
          if (attempt <? MAX_AUTO_REPAIR_ATTEMPTS)%nat then
            update_log bump_attempts ;;;
            let info := _capture_error_info E e in
            fixed_code <- consult "post_process" code info
                            (if str_truthy tool_output
                             then str_prefix 5000 tool_output else "") ;;
            match accepted fixed_code with
            | Some c => set_post_code c ;;; post_loop bop_data tool_output rest (Some e)
            | None => ret (None, Some e)
            end
          else post_loop bop_data tool_output rest (Some e)
      end
  end.

(** Step 7: the output file if it can be read and is not empty, else
    standard output; the substitution is logged as a warning. *)
Definition collect_tool_output (output_file out : string) : M string :=
  w <- get_world ;;
  let tool_output :=
    match files w !! output_file with
    | Some (Content t) => Some t
    | Some Unreadable => None
    | None => None
    end in
  match tool_output with
  | Some t =>
      if str_truthy t then ret t
      else emit EvStdoutFallback ;;; ret out
  | None => emit EvStdoutFallback ;;; ret out
  end.

(** From the completion step to the success return. *)
Definition finish (tid : string) (original : AdapterCode)
    (bop_before_post : nat) (updated : pyval)
    (tool_in tool_out out err : string) : M ExecuteResult :=
  before <- deref bop_before_post ;;
  updated <- lift_outcome (_ensure_process_completeness E before updated) ;;
  let cleaned := _sanitize_json_floats updated in
  let updated := fst cleaned in
  (if snd cleaned
   then update_log (fun l =>
          with_sanitized
            (with_message "도구 실행이 완료되었습니다. (일부 값이 정리되었습니다)" l))
   else ret tt) ;;;
  match json_dumps E None updated with
  | Raise e =>
      if is_value_or_type_error e then
        msg <- log_message_is ("JSON 직렬화 실패: " +:+ emsg e) ;;
        ret (failure msg)
      else raise e
  | Ok _ =>
      pre <- get_pre_code ;;
      post <- get_post_code ;;
      (if negb (String.eqb pre (pre_process_code original))
          || negb (String.eqb post (post_process_code original))
       then
         written <- update_tool_adapter tid
                      {| adapter_tool_id := tid; pre_process_code := pre;
                         post_process_code := post |} ;;
         if written then update_log with_repair_success else ret tt
       else ret tt) ;;;
      update_log with_success ;;;
      l <- get_log ;;
      msg <- log_message_is
               ("도구 실행이 완료되었습니다."
                +:+ (if (0 <? auto_repair_attempts l)%nat
                    then " (자동 복구 " +:+ str_of_nat (auto_repair_attempts l)
                         +:+ "회 수행)"
                    else "")) ;;
      ret {| success := true; message := msg; updated_bop := Some updated;
             tool_input := if str_truthy tool_in then Some tool_in else None;
             tool_output := if str_truthy tool_out then Some tool_out else None;
             stdout := clip 2000 out; stderr := clip 500 err;
             auto_repair_attempted := None;
             auto_repaired := Some (auto_repair_success l) |}
  end.

(** From the post-processor loop on: reached only after the tool has exited
    with status zero. *)
Definition post_phase (tid : string) (original : AdapterCode)
    (bop_data : nat) (tool_in tool_out out err : string) : M ExecuteResult :=
  bop_before_post <- deepcopy bop_data ;;
  post <- post_loop bop_data tool_out (seq 0 (MAX_AUTO_REPAIR_ATTEMPTS + 1)) None ;;
  match fst post with
  | None =>
      msg <- log_message_is ("Post-processor 실행 오류: " +:+ str_of_error (snd post)) ;;
      l <- get_log ;;
      let error_details :=
        match snd post with
        | Some e => format_exc E e
        | None => ""
        end in
      ret {| success := false; message := msg; updated_bop := None;
             tool_input := None;
             tool_output := clip 2000 tool_out;
             stdout := clip 2000 out;
             stderr := Some ((if str_truthy err then str_prefix 2000 err else "")
                             +:+ nl +:+ nl +:+ "[Post-processor Error]" +:+ nl
                             +:+ str_prefix 1000 error_details);
             auto_repair_attempted := Some (0 <? auto_repair_attempts l)%nat;
             auto_repaired := None |}
  | Some updated =>
      finish tid original bop_before_post updated tool_in tool_out out err
  end.

(** From the launch of the tool on: reached once the pre-processor has
    produced [tool_input]. *)
Definition launch_phase (tid : string) (entry : ToolRegistryEntry)
    (script_path work_dir : string) (bop_data : nat) (tool_in : string)
  : M ExecuteResult :=
  update_log (with_input tool_in) ;;;
  let input_file := path_join work_dir "input_data.json" in
  modify (fun w => set_files (<[input_file := Content tool_in]> (files w)) w) ;;;
  let output_file := path_join work_dir "output_data.json" in
  r <- catch (_execute_subprocess E script_path work_dir input_file
                output_file (execution_type (metadata entry))) ;;
  match r with
  | Raise e =>
      if is_timeout e then
        msg <- log_message_is (emsg e) ;;
        ret (failure msg)
      else raise e
  | Ok (out, err, return_code) =>
      update_log (with_process out err return_code) ;;;
      if negb (return_code =? 0)%Z then
        msg <- log_message_is
                 ("스크립트가 오류 코드 " +:+ str_of_Z return_code
                  +:+ "로 종료되었습니다.") ;;
        ret {| success := false; message := msg; updated_bop := None;
               tool_input := None; tool_output := None;
               stdout := clip 2000 out; stderr := clip 2000 err;
               auto_repair_attempted := None; auto_repaired := None |}
      else
        tool_out <- collect_tool_output output_file out ;;
        update_log (with_output tool_out) ;;;
        post_phase tid (adapter entry) bop_data tool_in tool_out out err
  end.

(** The body of the [try] block. *)
Definition pipeline (tid : string) (entry : ToolRegistryEntry)
    (script_path work_dir : string) (bop_data : nat) (params : option nat)
  : M ExecuteResult :=
  pre <- pre_loop bop_data params (seq 0 (MAX_AUTO_REPAIR_ATTEMPTS + 1)) None ;;
  match fst pre with
  | None =>
      msg <- log_message_is ("Pre-processor 실행 오류: " +:+ str_of_error (snd pre)) ;;
      l <- get_log ;;
      ret {| success := false; message := msg; updated_bop := None;
             tool_input := None; tool_output := None;
             stdout := None; stderr := None;
             auto_repair_attempted := Some (0 <? auto_repair_attempts l)%nat;
             auto_repaired := None |}
  | Some tool_in =>
      launch_phase tid entry script_path work_dir bop_data tool_in
  end.

(** The log line [log.info("[execute] params=%s", json.dumps(params,
    ensure_ascii=False) if params else "None")]: its argument is computed
    when the call is made, so [json.dumps] runs whenever [params] is not
    empty.  The line stands between the [mkdir] and the [try] block. *)
Definition log_params (params : option nat) : M unit :=
  match params with
  | None => ret tt
  | Some r =>
      v <- deref r ;;
      if truthy v then
        _ <- lift_outcome (json_dumps E None v) ;;
        ret tt
      else ret tt
  end.

(** [execute_tool(tool_id, bop_data, params)] *)
Definition execute_tool (tid : string) (bop_data : nat) (params : option nat)
  : M ExecuteResult :=
  bop_data <- deepcopy bop_data ;;
  w <- get_world ;;
  match get_tool w tid with
  | None => ret (failure ("도구 '" +:+ tid +:+ "'를 찾을 수 없습니다."))
  | Some entry =>
      match get_script_path w tid (file_name (metadata entry)) with
      | None =>
          ret (failure ("스크립트 파일을 찾을 수 없습니다: "
                        +:+ file_name (metadata entry)))
      | Some script_path =>
          let exec_id := tid +:+ "_" +:+ now_ms E in
          let work_dir := path_join WORKDIR_BASE exec_id in
          modify (fun w => set_workdirs ({[work_dir]} ∪ workdirs w) w) ;;;
          log_params params ;;;
          modify (set_frame
                    {| exec_log := new_exec_log tid (metadata entry);
                       current_pre_code := pre_process_code (adapter entry);
                       current_post_code := post_process_code (adapter entry) |}) ;;;
          finally
            (try_except
               (pipeline tid entry script_path work_dir bop_data params)
               (fun e =>
                  msg <- log_message_is ("실행 오류: " +:+ emsg e) ;;
                  ret (failure msg)))
            (fun w =>
               rmtree work_dir (path_join work_dir "input_data.json")
                      (path_join work_dir "output_data.json")
                      (_save_execution_log tid (exec_log (frame w)) w))
      end
  end.

End Engine.

End Executor.

(* ===================================================================== *)
(** ** Concrete tools, adapters and worlds *)
(* ===================================================================== *)

Module Scenarios.
Import Py World Sandbox Registry Executor.

Definition positional (name : string) : param :=
  {| param_name := name; kind := POSITIONAL_OR_KEYWORD; has_default := false |}.
Definition optional (name : string) : param :=
  {| param_name := name; kind := POSITIONAL_OR_KEYWORD; has_default := true |}.

(** A function that leaves its arguments alone and returns [v]. *)
Definition returning (ps : list param) (v : pyval) : pyfunc :=
  {| parameters := ps;
     body := fun a b => {| first_after := a; second_after := b; returned := Ok v |} |}.

(** A function that raises [e]. *)
Definition raising (ps : list param) (e : exn) : pyfunc :=
  {| parameters := ps;
     body := fun a b => {| first_after := a; second_after := b; returned := Raise e |} |}.

(** [def convert_bop_to_input(bop_json, params): params["injected"] = 1; return "{}"] *)
Definition writes_into_params : pyfunc :=
  {| parameters := [positional "bop_json"; positional "params"];
     body := fun a b =>
       {| first_after := a;
          second_after :=
            match b with
            | PDict entries => PDict (entries ++ [(KStr "injected", PInt 1)])
            | _ => b
            end;
          returned := Ok (PStr "{}") |} |}.

(** A compiler that knows the listed sources and finds a syntax error in
    every other text. *)
Fixpoint compile_table (table : list (string * list stmt)) (code : string)
  : outcome (list stmt) :=
  match table with
  | [] => Raise (SyntaxError "invalid syntax")
  | (src, prog) :: table' =>
      if String.eqb src code then Ok prog else compile_table table' code
  end.

(** On trees that list no process, [_ensure_process_completeness] finds
    nothing to complete and hands [updated_bop] back as it is; the scenarios
    below only use such trees. *)
Definition nothing_to_complete (original updated : pyval) : outcome pyval :=
  Ok updated.

Definition scenario_env (table : list (string * list stmt))
    (oracle : nat -> string -> string -> error_info -> string -> option string)
    (tool : list string -> string -> process_outcome) : Env :=
  {| py_compile := compile_table table;
     json_text := fun _ _ => "{}";
     json_loads := fun _ => None;
     format_exc := fun e => "Traceback (most recent call last): " +:+ emsg e;
     repair_adapter := oracle;
     subprocess_run := tool;
     now_ms := "1700000000000";
     _ensure_process_completeness := nothing_to_complete |}.

Definition no_oracle (n : nat) (fn code : string) (info : error_info)
                     (data : string) : option string := None.

Definition exits_with (rc : Z) (cmd : list string) (input : string)
  : process_outcome := Completed "" "" rc None.

Definition blank_frame : Frame :=
  {| exec_log :=
       new_exec_log ""
         {| tool_id := ""; tool_name := ""; description := "";
            execution_type := PYTHON; file_name := "" |};
     current_pre_code := ""; current_post_code := "" |}.

(** A world with one caller-held object, reference [0], and one registered
    tool. *)
Definition one_tool_world (bop : pyval) (pre post : string) : world :=
  {| heap := {[ 0 := bop ]};
     registry :=
       {[ "tool" :=
            {| metadata_json :=
                 Some {| tool_id := "tool"; tool_name := "Tool";
                         description := ""; execution_type := PYTHON;
                         file_name := "script.py" |};
               adapter_json :=
                 Some {| adapter_tool_id := "tool"; pre_process_code := pre;
                         post_process_code := post |} |} ]};
     uploads := {[ ("tool", "script.py") := "print(1)" ]};
     workdirs := ∅; files := ∅; logs := [];
     frame := blank_frame; trace := [] |}.

(** [def convert_bop_to_input(bop_json, params): bop_json.clear(); return "{}"] *)
Definition clears_its_copy : pyfunc :=
  {| parameters := [positional "bop_json"; positional "params"];
     body := fun a b =>
       {| first_after := PDict []; second_after := b; returned := Ok (PStr "{}") |} |}.

Definition mutating_env (f : pyfunc) (rc : Z) : Env :=
  scenario_env [("pre", [SDef "convert_bop_to_input" f])] no_oracle (exits_with rc).

Definition sample_bop : pyval :=
  PDict [(KStr "project_title", PStr "line 1"); (KStr "processes", PList [])].

(** Scenario B: a sound adapter pair around a tool that always exits with
    status 1, having written its output file all the same. *)
Definition sound_table : list (string * list stmt) :=
  [("pre", [SDef "convert_bop_to_input"
                 (returning [positional "bop_json"; positional "params"] (PStr "{}"))]);
   ("post", [SDef "apply_result_to_bop"
                  (returning [positional "bop_json"; positional "tool_output"]
                             (PDict []))])].

Definition exits_one_with_output (cmd : list string) (input : string)
  : process_outcome :=
  Completed "partial" "Traceback" 1 (Some (Content "{}")).

Definition broken_tool_env : Env :=
  scenario_env sound_table
               (fun _ _ _ _ _ => Some "def convert_bop_to_input(b, p): return 1")
               exits_one_with_output.

(** Scenario A: the registered pre-processor lacks its second parameter; the
    oracle answers with a two-parameter source. *)
Definition scenario_a_table : list (string * list stmt) :=
  [("pre", [SDef "convert_bop_to_input"
                 (returning [positional "bop_json"] (PStr "{}"))]);
   ("pre fixed", [SDef "convert_bop_to_input"
                       (returning [positional "bop_json"; positional "params"]
                                  (PStr "{}"))]);
   ("post", [SDef "apply_result_to_bop"
                  (returning [positional "bop_json"; positional "tool_output"]
                             (PDict []))])].

Definition scenario_a_env : Env :=
  scenario_env scenario_a_table (fun _ _ _ _ _ => Some "pre fixed") (exits_with 0).

(** A sound adapter pair around a tool that exits with status 0. *)
Definition quiet_tool_env (tool : list string -> string -> process_outcome) : Env :=
  scenario_env sound_table no_oracle tool.

Definition prints_nothing (cmd : list string) (input : string) : process_outcome :=
  Completed "" "" 0 None.
Definition writes_file_and_prints (cmd : list string) (input : string)
  : process_outcome := Completed "{}" "" 0 (Some (Content "{}")).
Definition only_prints (cmd : list string) (input : string) : process_outcome :=
  Completed "{}" "" 0 None.

(** [params = {"limits": {1, 2}}]: a dict that holds a set, which
    [json.dumps] refuses, and [params = {"limits": [1, 2]}], which it takes. *)
Definition params_with_set : pyval := PDict [(KStr "limits", POther "set")].
Definition params_with_list : pyval :=
  PDict [(KStr "limits", PList [PInt 1; PInt 2])].

(** The caller holds [params] as a second object, reference [1]. *)
Definition with_params (p : pyval) (w : world) : world :=
  set_heap (<[1 := p]> (heap w)) w.

(** A post-processor that hands back a score held in a tuple:
    [return {"score": (float("nan"),)}]. *)
Definition nan_in_tuple : pyval := PDict [(KStr "score", PTuple [PFloat nan])].

Definition nan_tuple_env : Env :=
  scenario_env
    [("pre", [SDef "convert_bop_to_input"
                   (returning [positional "bop_json"; positional "params"]
                              (PStr "{}"))]);
     ("post", [SDef "apply_result_to_bop"
                    (returning [positional "bop_json"; positional "tool_output"]
                               nan_in_tuple)])]
    no_oracle prints_nothing.

(** A tool whose registered pre-processor raises and whose post-processor
    raises too; the oracle mends the pre-processor and has no answer for the
    post-processor. *)
Definition two_params : list param := [positional "bop_json"; positional "params"].

Definition both_phases_fail_table : list (string * list stmt) :=
  [("pre", [SDef "convert_bop_to_input"
                 (raising two_params (Exn "KeyError" "'processes'"))]);
   ("pre fixed", [SDef "convert_bop_to_input" (returning two_params (PStr "{}"))]);
   ("post", [SDef "apply_result_to_bop"
                  (raising [positional "bop_json"; positional "tool_output"]
                           (Exn "KeyError" "'result'"))])].

Definition mends_pre_only (n : nat) (fn code : string) (info : error_info)
                          (data : string) : option string :=
  if String.eqb fn "pre_process" then Some "pre fixed" else None.

Definition both_phases_fail_env : Env :=
  scenario_env both_phases_fail_table mends_pre_only (exits_with 0).

End Scenarios.

From Stdlib Require Import Ascii NArith DecimalZ DecimalPos.
From stdpp Require Import sorting.

(* ===================================================================== *)
(** ** [app/tools/registry.py]: the rest of the module

    A tool directory is named by its tool id and a script by its file name:
    both are taken to be plain names, one path component each (see
    [is_plain_name]).  The four base directories are always there, so
    [_ensure_dirs] has nothing to do.  A character of a text is one
    [ascii]; [str.lower], whose table is Unicode's, is a parameter. *)
(* ===================================================================== *)

Module RegistryStore.
Import Py World Registry Executor.
Local Open Scope py_scope.

Definition set_uploads (u : gmap (string * string) string) (w : world) : world :=
  {| heap := heap w; registry := registry w; uploads := u;
     workdirs := workdirs w; files := files w; logs := logs w;
     frame := frame w; trace := trace w |}.

(** *** Texts *)

Definition cr : ascii := ascii_of_nat 13.
Definition lf : ascii := ascii_of_nat 10.

(** [new.join(s)]-like filling used by [replace] with an empty pattern. *)
Fixpoint interleave (new s : string) : string :=
  match s with
  | EmptyString => EmptyString
  | String c rest => String c (new +:+ interleave new rest)
  end.

(** The scan of [str.replace]: occurrences of [old] are taken from the
    left and do not overlap; [skip] counts the characters of an occurrence
    still to be passed over. *)
Fixpoint replace_scan (old new : string) (skip : nat) (s : string) : string :=
  match s with
  | EmptyString => EmptyString
  | String c rest =>
      match skip with
      | S n => replace_scan old new n rest
      | O =>
          if String.prefix old s
          then new +:+ replace_scan old new (String.length old - 1) rest
          else String c (replace_scan old new 0 rest)
      end
  end.

(** [s.replace(old, new)] *)
Definition str_replace (old new s : string) : string :=
  match old with
  | EmptyString => new +:+ interleave new s
  | _ => replace_scan old new 0 s
  end.

(** [source_code.replace('\r\n', '\n').replace('\r', '\n')] *)
Definition normalize_newlines (source_code : string) : string :=
  str_replace (String cr "") (String lf "")
    (str_replace (String cr (String lf "")) (String lf "") source_code).

(** The class [[a-zA-Z0-9_]]. *)
Definition is_word_char (c : ascii) : bool :=
  let n := nat_of_ascii c in
  ((97 <=? n) && (n <=? 122) || (65 <=? n) && (n <=? 90)
   || (48 <=? n) && (n <=? 57) || (n =? 95))%nat.

Definition underscore : ascii := "_"%char.

Fixpoint map_chars (f : ascii -> ascii) (s : string) : string :=
  match s with
  | EmptyString => EmptyString
  | String c rest => String (f c) (map_chars f rest)
  end.

(** [re.sub(r'[^a-zA-Z0-9_]', '_', s)] *)
Definition sub_non_word (s : string) : string :=
  map_chars (fun c => if is_word_char c then c else underscore) s.

(** [s.lstrip('_')], [s.rstrip('_')], [s.strip('_')] *)
Fixpoint lstrip_underscores (s : string) : string :=
  match s with
  | EmptyString => EmptyString
  | String c rest =>
      if Ascii.eqb c underscore then lstrip_underscores rest else s
  end.

Fixpoint rstrip_underscores (s : string) : string :=
  match s with
  | EmptyString => EmptyString
  | String c rest =>
      match rstrip_underscores rest with
      | EmptyString =>
          if Ascii.eqb c underscore then EmptyString else String c EmptyString
      | rest' => String c rest'
      end
  end.

Definition strip_underscores (s : string) : string :=
  rstrip_underscores (lstrip_underscores s).

Definition starts_with_underscore (s : string) : bool :=
  match s with
  | String c _ => Ascii.eqb c underscore
  | EmptyString => false
  end.

(** [re.sub(r'_+', '_', s)]: of a run of underscores the last one stays. *)
Fixpoint squeeze_underscores (s : string) : string :=
  match s with
  | EmptyString => EmptyString
  | String c rest =>
      if Ascii.eqb c underscore && starts_with_underscore rest
      then squeeze_underscores rest
      else String c (squeeze_underscores rest)
  end.

(** One path component: not empty, not [.] or [..], no separator, no NUL. *)
Definition is_separator (c : ascii) : bool :=
  Ascii.eqb c "/"%char || Ascii.eqb c "\"%char || Ascii.eqb c zero.

Fixpoint has_char (p : ascii -> bool) (s : string) : bool :=
  match s with
  | EmptyString => false
  | String c rest => p c || has_char p rest
  end.

Definition is_plain_name (s : string) : bool :=
  str_truthy s && negb (String.eqb s ".") && negb (String.eqb s "..")
  && negb (has_char is_separator s).

(** *** Tool ids *)

(** [(REGISTRY_DIR / tool_id).exists()] *)
Definition dir_exists (w : world) (tool_id : string) : bool :=
  match registry w !! tool_id with
  | Some _ => true
  | None => false
  end.

Section Slug.
Variable lower : string -> string.   (* [str.lower] *)

(** The first lines of [generate_tool_id] and of [find_existing_tool_id]. *)
Definition slug_of (tool_name : string) : string :=
  let slug := strip_underscores (sub_non_word (lower tool_name)) in
  let slug := squeeze_underscores slug in
  if negb (str_truthy slug) then "tool" else slug.

(** [while (REGISTRY_DIR / slug).exists(): slug = f"{base_slug}_{counter}";
    counter += 1].  [fuel] bounds the rounds. *)
Fixpoint first_free (w : world) (base_slug slug : string) (counter fuel : nat)
  : option string :=
  match fuel with
  | O => None
  | S fuel =>
      if dir_exists w slug
      then first_free w base_slug (base_slug +:+ "_" +:+ str_of_nat counter)
                      (S counter) fuel
      else Some slug
  end.

(** [generate_tool_id(tool_name, allow_existing)].  One round more than
    there are tool directories is all the loop can take. *)
Definition generate_tool_id (w : world) (tool_name : string)
                            (allow_existing : bool) : option string :=
  let slug := slug_of tool_name in
  if allow_existing then Some slug
  else first_free w slug slug 1 (S (size (registry w))).

(** [find_existing_tool_id(tool_name)] *)
Definition find_existing_tool_id (w : world) (tool_name : string)
  : option string :=
  let slug := slug_of tool_name in
  if dir_exists w slug then Some slug else None.

End Slug.

(** *** Writing and reading tools *)

(** [save_tool(metadata, adapter, source_code)] *)
Definition save_tool (metadata : ToolMetadata) (adapter : AdapterCode)
                     (source_code : string) : M string :=
  modify (fun w =>
    set_registry
      (<[tool_id metadata := {| metadata_json := Some metadata;
                                adapter_json := Some adapter |}]> (registry w))
      w) ;;;
  let normalized_code := normalize_newlines source_code in
  modify (fun w =>
    set_uploads
      (<[(tool_id metadata, file_name metadata) := normalized_code]> (uploads w))
      w) ;;;
  ret (tool_id metadata).

(** What [list_tools] shows of a tool. *)
Record ToolListItem : Type := {
  item_tool_id : string;
  item_tool_name : string;
  item_description : string;
  item_execution_type : ExecutionType;
}.

Definition name_le (a b : string) : Prop := String.leb a b = true.

#[export] Instance name_le_dec a b : Decision (name_le a b).
Proof. unfold name_le. apply _. Defined.

(** [sorted(REGISTRY_DIR.iterdir())] *)
Definition sorted_dirs (w : world) : list string :=
  merge_sort name_le (map fst (map_to_list (registry w))).

(** [list_tools()]: a directory without [metadata.json] is passed over. *)
Definition list_tools (w : world) : list ToolListItem :=
  omap (fun name =>
          match registry w !! name with
          | Some {| metadata_json := Some meta |} =>
              Some {| item_tool_id := tool_id meta;
                      item_tool_name := tool_name meta;
                      item_description := description meta;
                      item_execution_type := execution_type meta |}
          | _ => None
          end)
       (sorted_dirs w).

(** The files of [UPLOADS_DIR / tool_id]. *)
Definition in_script_dir (tool_id : string) (kv : string * string * string) : Prop :=
  fst (fst kv) = tool_id.

#[export] Instance in_script_dir_dec tool_id kv : Decision (in_script_dir tool_id kv).
Proof. unfold in_script_dir. apply _. Defined.

(** [(UPLOADS_DIR / tool_id).exists()]: the directory is there when it
    holds a file. *)
Definition script_dir_exists (w : world) (tool_id : string) : bool :=
  negb (bool_decide (filter (in_script_dir tool_id) (uploads w) = ∅)).

(** [delete_tool(tool_id)] *)
Definition delete_tool (tool_id : string) : M bool :=
  let deleted := false in
  w <- get_world ;;
  deleted <- (if dir_exists w tool_id
              then modify (fun w => set_registry (delete tool_id (registry w)) w) ;;;
                   ret true
              else ret deleted) ;;
  w <- get_world ;;
  deleted <- (if script_dir_exists w tool_id
              then modify (fun w =>
                     set_uploads
                       (filter (fun kv => ~ in_script_dir tool_id kv) (uploads w))
                       w) ;;;
                   ret true
              else ret deleted) ;;
  ret deleted.

(** [update_tool_metadata(tool_id, metadata)] *)
Definition update_tool_metadata (tool_id : string) (metadata : ToolMetadata)
  : M bool :=
  w <- get_world ;;
  match registry w !! tool_id with
  | None => ret false
  | Some dir =>
      modify (fun w =>
        set_registry
          (<[tool_id := {| metadata_json := Some metadata;
                           adapter_json := adapter_json dir |}]> (registry w)) w) ;;;
      ret true
  end.

Definition with_file_name (name : string) (m : ToolMetadata) : ToolMetadata :=
  {| tool_id := World.tool_id m; tool_name := tool_name m;
     description := description m; execution_type := execution_type m;
     file_name := name |}.

(** [update_tool_script(tool_id, file_name, source_code)].  The script is
    written first; a tool directory without [metadata.json] then makes the
    read fail, which the [except] clause turns into [False]. *)
Definition update_tool_script (tool_id file_name source_code : string) : M bool :=
  w <- get_world ;;
  match registry w !! tool_id with
  | None => ret false
  | Some dir =>
      let normalized_code := normalize_newlines source_code in
      modify (fun w =>
        set_uploads (<[(tool_id, file_name) := normalized_code]> (uploads w)) w) ;;;
      match metadata_json dir with
      | None => ret false
      | Some metadata_dict =>
          modify (fun w =>
            set_registry
              (<[tool_id := {| metadata_json :=
                                 Some (with_file_name file_name metadata_dict);
                               adapter_json := adapter_json dir |}]> (registry w))
              w) ;;;
          ret true
      end
  end.

End RegistryStore.

(* ===================================================================== *)
(** * Properties *)
(* ===================================================================== *)

(** ** Reasoning about computations

    [spec R n P X m]: from every world [w], the computation [m] ends in a
    world related to [w] by [R n]; if it returns [a] then [P a], if it raises
    [e] then [X e].  [R] is graded by a budget: [R 0] holds of a world and
    itself, budgets add up along a sequence, and a larger budget is a weaker
    statement. *)

Module Logic.
Import Py World.
Local Open Scope py_scope.

Class Graded (R : nat -> world -> world -> Prop) : Prop := {
  graded_refl : forall w, R 0 w w;
  graded_trans : forall n1 n2 a b c, R n1 a b -> R n2 b c -> R (n1 + n2) a c;
  graded_mono : forall n1 n2 a b, n1 <= n2 -> R n1 a b -> R n2 a b;
}.

Definition spec (R : nat -> world -> world -> Prop) (n : nat) {A : Type}
    (P : A -> Prop) (X : exn -> Prop) (m : M A) : Prop :=
  forall w,
    R n w (snd (m w))
    /\ match fst (m w) with
       | Ok a => P a
       | Raise e => X e
       end.

(** The relation that says nothing. *)
Definition anything (n : nat) (w w' : world) : Prop := True.

#[export] Instance anything_graded : Graded anything.
Proof. split; intros; exact I. Qed.

Definition no_exn (e : exn) : Prop := False.
Definition any_exn (e : exn) : Prop := True.
Definition any_value {A : Type} (a : A) : Prop := True.

Section Rules.
Context (R : nat -> world -> world -> Prop) `{!Graded R}.

Lemma graded_refl_n n w : R n w w.
Proof. apply (graded_mono 0); [lia | apply graded_refl]. Qed.

Lemma spec_ret {A} n (P : A -> Prop) X (a : A) : P a -> spec R n P X (ret a).
Proof. intros H w. split; [apply graded_refl_n | exact H]. Qed.

Lemma spec_raise {A} n (P : A -> Prop) (X : exn -> Prop) e :
  X e -> spec R n P X (raise e).
Proof. intros H w. split; [apply graded_refl_n | exact H]. Qed.

Lemma spec_lift {A} n (P : A -> Prop) (X : exn -> Prop) (o : outcome A) :
  match o with Ok a => P a | Raise e => X e end ->
  spec R n P X (lift_outcome o).
Proof. intros H w. split; [apply graded_refl_n | exact H]. Qed.

(** A computation that only reads. *)
Lemma spec_read {A} n (P : A -> Prop) X (g : world -> A) (m : M A) :
  (forall w, m w = (Ok (g w), w)) -> (forall w, P (g w)) -> spec R n P X m.
Proof. intros Hm HP w. rewrite Hm. split; [apply graded_refl_n | apply HP]. Qed.

Lemma spec_modify n (P : unit -> Prop) X (f : world -> world) :
  (forall w, R n w (f w)) -> P tt -> spec R n P X (modify f).
Proof. intros Hf HP w. split; [apply Hf | exact HP]. Qed.

Lemma spec_bind {A B} n1 n2 n (P1 : A -> Prop) (P : B -> Prop) X
                (m : M A) (k : A -> M B) :
  n1 + n2 <= n ->
  spec R n1 P1 X m ->
  (forall a, P1 a -> spec R n2 P X (k a)) ->
  spec R n P X (bind m k).
Proof.
  intros Hn Hm Hk w. unfold bind. destruct (Hm w) as [HR Hv].
  destruct (m w) as [[a|e] w1]; simpl in *.
  - destruct (Hk a Hv w1) as [HR' Hv']. split; [|exact Hv'].
    eapply graded_mono; [exact Hn|]. eapply graded_trans; eassumption.
  - split; [|exact Hv]. eapply graded_mono; [|exact HR]. lia.
Qed.

(** The common case: the first computation costs nothing and its value is
    not needed. *)
Lemma spec_seq {A B} n (P : B -> Prop) X (m : M A) (k : A -> M B) :
  spec R 0 any_value X m ->
  (forall a, spec R n P X (k a)) ->
  spec R n P X (bind m k).
Proof. intros Hm Hk. apply (spec_bind 0 n n any_value); auto. Qed.

(** [except Exception] lets an exception that is no [Exception] pass. *)
Lemma spec_catch {A} n (P : A -> Prop) (X X' : exn -> Prop) (m : M A) :
  spec R n P X m ->
  (forall e, X e -> is_exception e = false -> X' e) ->
  spec R n (fun r => match r with Ok a => P a | Raise e => X e end) X' (catch m).
Proof.
  intros Hm Hpass w. unfold catch. destruct (Hm w) as [HR Hv].
  destruct (m w) as [[a|e] w1]; simpl in *; [split; assumption|].
  destruct (is_exception e) eqn:He; simpl; (split; [exact HR|]);
    [exact Hv | now apply Hpass].
Qed.

Lemma spec_catch_any {A} n (m : M A) :
  spec R n any_value any_exn m -> spec R n any_value any_exn (catch m).
Proof.
  intros Hm w. unfold catch. destruct (Hm w) as [HR _].
  destruct (m w) as [[a|e] w1]; simpl in *; [split; [exact HR | exact I]|].
  destruct (is_exception e); split; first [exact HR | exact I].
Qed.

Lemma spec_try_except {A} n1 n2 n (P : A -> Prop) (X1 X : exn -> Prop)
                      (m : M A) (h : exn -> M A) :
  n1 + n2 <= n ->
  spec R n1 P X1 m ->
  (forall e, X1 e -> is_exception e = true -> spec R n2 P X (h e)) ->
  (forall e, X1 e -> is_exception e = false -> X e) ->
  spec R n P X (try_except m h).
Proof.
  intros Hn Hm Hh Hpass w. unfold try_except. destruct (Hm w) as [HR Hv].
  destruct (m w) as [[a|e] w1]; simpl in *.
  - split; [|exact Hv]. eapply graded_mono; [|exact HR]. lia.
  - destruct (is_exception e) eqn:He.
    + destruct (Hh e Hv He w1) as [HR' Hv']. split; [|exact Hv'].
      eapply graded_mono; [exact Hn|]. eapply graded_trans; eassumption.
    + split; [|now apply Hpass]. eapply graded_mono; [|exact HR]. lia.
Qed.

Lemma spec_finally {A} n1 n2 n (P : A -> Prop) X (m : M A)
                   (f : world -> world) :
  n1 + n2 <= n ->
  spec R n1 P X m ->
  (forall w, R n2 w (f w)) ->
  spec R n P X (finally m f).
Proof.
  intros Hn Hm Hf w. unfold finally. destruct (Hm w) as [HR Hv].
  destruct (m w) as [r w1]; simpl in *. split; [|exact Hv].
  eapply graded_mono; [exact Hn|]. eapply graded_trans; [exact HR | apply Hf].
Qed.

Lemma spec_weaken {A} n1 n (P1 P : A -> Prop) (X1 X : exn -> Prop) (m : M A) :
  spec R n1 P1 X1 m ->
  n1 <= n -> (forall a, P1 a -> P a) -> (forall e, X1 e -> X e) ->
  spec R n P X m.
Proof.
  intros Hm Hn HP HX w. destruct (Hm w) as [HR Hv]. split.
  - eapply graded_mono; eassumption.
  - destruct (fst (m w)); auto.
Qed.

End Rules.

(** From a statement about every world to one run. *)
Lemma spec_run R n {A} (P : A -> Prop) X (m : M A) (w : world) :
  spec R n P X m ->
  R n w (snd (m w))
  /\ match fst (m w) with Ok a => P a | Raise e => X e end.
Proof. intros H. apply H. Qed.

End Logic.

(** ** The sanitizer *)

Module SanitizerFacts.
Import Py Sanitizer.

(** The accumulating loops, read as a map and a disjunction. *)
Lemma list_loop_acc (items cleaned : list pyval) (changed : bool) :
  fold_left
    (fun (acc : list pyval * bool) (item : pyval) =>
       let '(cleaned, changed) := acc in
       let '(cleaned_item, item_changed) := _sanitize_json_floats item in
       (cleaned ++ [cleaned_item], if item_changed then true else changed))
    items (cleaned, changed)
  = (cleaned ++ map sanitize items, changed || existsb was_modified items).
Proof.
  revert cleaned changed.
  induction items as [|item items IH]; intros cleaned changed; simpl.
  - now rewrite app_nil_r, orb_false_r.
  - unfold sanitize at 1, was_modified at 1.
    destruct (_sanitize_json_floats item) as [ci cc]; simpl.
    rewrite IH, <- app_assoc; simpl.
    f_equal. destruct cc, changed; reflexivity.
Qed.

Lemma dict_loop_acc (entries cleaned : list (pykey * pyval)) (changed : bool) :
  fold_left
    (fun (acc : list (pykey * pyval) * bool) (kv : pykey * pyval) =>
       let '(cleaned, changed) := acc in
       let '(cleaned_value, value_changed) := _sanitize_json_floats (snd kv) in
       (cleaned ++ [(fst kv, cleaned_value)],
        if value_changed then true else changed))
    entries (cleaned, changed)
  = (cleaned ++ map (fun kv => (fst kv, sanitize (snd kv))) entries,
     changed || existsb (fun kv => was_modified (snd kv)) entries).
Proof.
  revert cleaned changed.
  induction entries as [|[k v] entries IH]; intros cleaned changed; simpl.
  - now rewrite app_nil_r, orb_false_r.
  - unfold sanitize at 1, was_modified at 1.
    destruct (_sanitize_json_floats v) as [cv vc]; simpl.
    rewrite IH, <- app_assoc; simpl.
    f_equal. destruct vc, changed; reflexivity.
Qed.

Lemma sanitize_list items :
  _sanitize_json_floats (PList items)
  = (PList (map sanitize items), existsb was_modified items).
Proof. simpl. now rewrite list_loop_acc. Qed.

Lemma sanitize_dict entries :
  _sanitize_json_floats (PDict entries)
  = (PDict (map (fun kv => (fst kv, sanitize (snd kv))) entries),
     existsb (fun kv => was_modified (snd kv)) entries).
Proof. simpl. now rewrite dict_loop_acc. Qed.

Lemma sanitize_float f :
  _sanitize_json_floats (PFloat f)
  = if is_nonfinite f then (PNone, true) else (PFloat f, false).
Proof. reflexivity. Qed.

(** The flag is raised exactly when the cleaned tree differs. *)
Lemma was_modified_false_same x :
  was_modified x = false -> sanitize x = x.
Proof.
  induction x as [| | |f| |items IH|items IH|entries IH|] using pyval_tree_ind;
    unfold was_modified, sanitize; try reflexivity.
  - rewrite sanitize_float. now destruct (is_nonfinite f).
  - rewrite sanitize_list; simpl. intros H. f_equal.
    induction IH as [|x items Hx _ IHitems]; simpl in *; [reflexivity|].
    apply orb_false_iff in H as [H1 H2].
    now rewrite Hx, IHitems.
  - rewrite sanitize_dict; simpl. intros H. f_equal.
    induction IH as [|[k v] entries Hv _ IHentries]; simpl in *; [reflexivity|].
    apply orb_false_iff in H as [H1 H2].
    now rewrite Hv, IHentries.
Qed.

(** A second pass finds nothing left to change. *)
Lemma sanitize_settled x : was_modified (sanitize x) = false.
Proof.
  induction x as [| | |f| |items IH|items IH|entries IH|] using pyval_tree_ind;
    unfold was_modified, sanitize in *; try reflexivity.
  - rewrite sanitize_float. destruct (is_nonfinite f) eqn:E; simpl; [reflexivity|].
    now rewrite E.
  - rewrite sanitize_list; simpl fst. rewrite sanitize_list; simpl snd.
    induction IH as [|x items Hx _ IHitems]; simpl; [reflexivity|].
    unfold was_modified at 1, sanitize at 1. now rewrite Hx.
  - rewrite sanitize_dict; simpl fst. rewrite sanitize_dict; simpl snd.
    induction IH as [|[k v] entries Hv _ IHentries]; simpl in *; [reflexivity|].
    unfold was_modified at 1, sanitize at 1. now rewrite Hv.
Qed.

Lemma sanitize_twice x :
  _sanitize_json_floats (sanitize x) = (sanitize x, false).
Proof.
  pose proof (sanitize_settled x) as H.
  pose proof (was_modified_false_same _ H) as H'.
  unfold was_modified, sanitize in *.
  destruct (_sanitize_json_floats (fst (_sanitize_json_floats x))) as [y c].
  simpl in *. now subst.
Qed.

(** On a tree of dicts with text keys, lists and scalars nothing non-finite
    is left. *)
Lemma sanitize_clears x :
  json_shaped x = true -> has_nonfinite (sanitize x) = false.
Proof.
  induction x as [| | |f| |items IH|items IH|entries IH|] using pyval_tree_ind;
    unfold sanitize in *; try reflexivity; try discriminate.
  - intros _. rewrite sanitize_float.
    destruct (is_nonfinite f) eqn:E; simpl; [reflexivity | exact E].
  - rewrite sanitize_list; simpl. intros H.
    induction IH as [|x items Hx _ IHitems]; simpl in *; [reflexivity|].
    apply andb_true_iff in H as [H1 H2].
    unfold sanitize at 1. now rewrite Hx, IHitems.
  - rewrite sanitize_dict; simpl. intros H.
    induction IH as [|[k v] entries Hv _ IHentries]; simpl in *; [reflexivity|].
    apply andb_true_iff in H as [H1 H2].
    apply andb_true_iff in H1 as [Hk H1].
    unfold sanitize at 1. rewrite Hv, IHentries by assumption.
    destruct k; try discriminate. reflexivity.
Qed.

(** A tree without a non-finite value comes back equal and unflagged. *)
Lemma sanitize_noop x :
  has_nonfinite x = false -> _sanitize_json_floats x = (x, false).
Proof.
  induction x as [| | |f| |items IH|items IH|entries IH|] using pyval_tree_ind;
    try reflexivity.
  - simpl. intros H. now rewrite H.
  - rewrite sanitize_list. simpl. intros H.
    assert (map sanitize items = items /\ existsb was_modified items = false)
      as [-> ->]; [|reflexivity].
    induction IH as [|x items Hx _ IHitems]; simpl in *; [now split|].
    apply orb_false_iff in H as [H1 H2].
    destruct (IHitems H2) as [E1 E2].
    unfold sanitize at 1, was_modified at 1.
    rewrite (Hx H1); simpl. now rewrite E1, E2.
  - rewrite sanitize_dict. simpl. intros H.
    assert (map (fun kv => (fst kv, sanitize (snd kv))) entries = entries
            /\ existsb (fun kv => was_modified (snd kv)) entries = false)
      as [-> ->]; [|reflexivity].
    induction IH as [|[k v] entries Hv _ IHentries]; simpl in *; [now split|].
    apply orb_false_iff in H as [H1 H2].
    apply orb_false_iff in H1 as [Hk H1].
    destruct (IHentries H2) as [E1 E2].
    unfold sanitize at 1, was_modified at 1.
    rewrite (Hv H1); simpl. now rewrite E1, E2.
Qed.

(** Outside that shape the walk stops: a tuple is handed back whole. *)
Example sanitize_skips_tuple :
  _sanitize_json_floats (PTuple [PFloat nan]) = (PTuple [PFloat nan], false).
Proof. reflexivity. Qed.

Example sanitize_nested :
  _sanitize_json_floats
    (PDict [(KStr "a", PList [PFloat nan; PInt 1]); (KStr "b", PFloat inf)])
  = (PDict [(KStr "a", PList [PNone; PInt 1]); (KStr "b", PNone)], true).
Proof. reflexivity. Qed.

(** What does hold: the sanitizer is idempotent on every tree; on a tree
    of dicts with text keys, lists and scalars it leaves no non-finite
    float; and a tree that holds no non-finite value is returned equal to
    itself with [was_modified = false]. *)
Theorem sanitize_idempotent_clears_noop (x : pyval) :
  _sanitize_json_floats (fst (_sanitize_json_floats x))
    = (fst (_sanitize_json_floats x), false)
  /\ (json_shaped x = true ->
      has_nonfinite (fst (_sanitize_json_floats x)) = false)
  /\ (has_nonfinite x = false -> _sanitize_json_floats x = (x, false)).
Proof.
  split; [apply sanitize_twice|].
  split; [apply sanitize_clears | apply sanitize_noop].
Qed.

Lemma sanitize_idempotent_clears_noop_witness :
  let x := PDict [(KStr "cycle_time_sec", PFloat nan);
                  (KStr "xs", PList [PFloat inf; PInt 3])] in
  let y := PDict [(KStr "cycle_time_sec", PNone);
                  (KStr "xs", PList [PNone; PInt 3])] in
  json_shaped x = true /\ has_nonfinite y = false
  /\ _sanitize_json_floats x = (y, true)
  /\ has_nonfinite (fst (_sanitize_json_floats x)) = false
  /\ _sanitize_json_floats y = (y, false).
Proof.
  intros x y.
  destruct (sanitize_idempotent_clears_noop x) as [_ [Hx _]].
  destruct (sanitize_idempotent_clears_noop y) as [_ [_ Hy]].
  split; [reflexivity|]. split; [reflexivity|]. split; [reflexivity|].
  split; [apply Hx; reflexivity | apply Hy; reflexivity].
Defined.

(** C8.  The claim does not hold of the code.  A tuple is a sequence, and
    the sanitizer hands it back as it is, whatever it holds: the tree
    [{"score": (nan, inf)}] comes back equal to itself with
    [was_modified = false], it still holds its non-finite values, and the
    strict encoder refuses it.  The walk descends into the values of a dict
    and into a list only; a non-finite float used as a key of a dict stays
    as well. *)
Theorem sanitizer_leaves_nonfinite_in_tuple :
  let x := PDict [(KStr "score", PTuple [PFloat nan; PFloat inf])] in
  let k := PDict [(KFloat nan, PInt 1)] in
  _sanitize_json_floats x = (x, false)
  /\ has_nonfinite (fst (_sanitize_json_floats x)) = true
  /\ json_check false (fst (_sanitize_json_floats x))
     = Some (ValueError "Out of range float values are not JSON compliant")
  /\ _sanitize_json_floats k = (k, false)
  /\ has_nonfinite (fst (_sanitize_json_floats k)) = true.
Proof. repeat split; reflexivity. Qed.

End SanitizerFacts.

(** ** The sandbox *)

Module SandboxFacts.
Import Py World Sandbox.
Local Open Scope py_scope.

(** *** What [exec] leaves behind *)

Lemma set_trace_same (w : world) : set_trace (trace w) w = w.
Proof. now destruct w. Qed.

Lemma set_trace_twice (t t' : list event) (w : world) :
  set_trace t' (set_trace t w) = set_trace t' w.
Proof. reflexivity. Qed.

(** A run of statements only extends the trace, by one entry for each
    statement that completed, and these are the first statements of the
    source, in order. *)
Lemma exec_stmts_cons (b : builtins) (s : stmt) (prog : list stmt)
                      (ns : namespace) (w : world) :
  exec_stmts b (s :: prog) ns w
  = match exec_stmt b s ns w with
    | (Ok after, w') =>
        exec_stmts (fst after) prog (snd after)
                   (set_trace (trace w' ++ [EvStatement s]) w')
    | (Raise e, w') => (Raise e, w')
    end.
Proof.
  simpl. unfold bind at 1.
  destruct (exec_stmt b s ns w) as [[after|e] w']; reflexivity.
Qed.

Lemma exec_stmt_pure (b : builtins) (s : stmt) (ns : namespace) (w : world) :
  snd (exec_stmt b s ns w) = w.
Proof.
  destruct s; simpl; try reflexivity.
  unfold bind, lift_outcome. now destruct (__import__ b module).
Qed.

Lemma exec_stmts_world (b : builtins) (prog : list stmt) (ns : namespace)
                       (w : world) :
  exists done rest,
    prog = done ++ rest
    /\ snd (exec_stmts b prog ns w)
       = set_trace (trace w ++ map EvStatement done) w
    /\ (forall ns', fst (exec_stmts b prog ns w) = Ok ns' -> rest = []).
Proof.
  revert b ns w. induction prog as [|s prog IH]; intros b ns w.
  - exists [], []. simpl. rewrite app_nil_r, set_trace_same. repeat split; auto.
  - rewrite exec_stmts_cons.
    pose proof (exec_stmt_pure b s ns w) as Hp.
    destruct (exec_stmt b s ns w) as [[after|e] w1]; simpl in Hp; subst w1.
    + destruct (IH (fst after) (snd after)
                   (set_trace (trace w ++ [EvStatement s]) w))
        as (done & rest & -> & Hw & Hok).
      exists (s :: done), rest. split; [reflexivity|]. split.
      * rewrite Hw. simpl. now rewrite <- app_assoc.
      * exact Hok.
    + exists [], (s :: prog). simpl.
      rewrite app_nil_r, set_trace_same. repeat split; auto. discriminate.
Qed.

Lemma exec_stmts_completed (b : builtins) (prog : list stmt)
                           (ns ns1 : namespace) (w w1 : world) :
  exec_stmts b prog ns w = (Ok ns1, w1) ->
  w1 = set_trace (trace w ++ map EvStatement prog) w.
Proof.
  intros H. destruct (exec_stmts_world b prog ns w) as (done & rest & -> & Hw & Hok).
  rewrite H in Hw, Hok. simpl in Hw. rewrite (Hok ns1 eq_refl), app_nil_r.
  exact Hw.
Qed.

(** A statement other than the one that restores [__import__] leaves the
    builtins of the frame as they are. *)
Definition keeps_builtins (s : stmt) : bool :=
  match s with
  | SRestoreImport => false
  | _ => true
  end.

Lemma exec_stmt_keeps (b : builtins) (s : stmt) (ns : namespace) (w w1 : world)
                      (after : builtins * namespace) :
  keeps_builtins s = true ->
  exec_stmt b s ns w = (Ok after, w1) -> fst after = b.
Proof.
  destruct s; simpl; try discriminate; intros _;
    unfold ret, raise, bind, lift_outcome;
    try (now intros [= <- _]); try discriminate.
  destruct (__import__ b module); [now intros [= <- _] | discriminate].
Qed.

Lemma exec_stmts_app (b : builtins) (done rest : list stmt)
                     (ns ns1 : namespace) (w w1 : world) :
  forallb keeps_builtins done = true ->
  exec_stmts b done ns w = (Ok ns1, w1) ->
  exec_stmts b (done ++ rest) ns w = exec_stmts b rest ns1 w1.
Proof.
  revert ns w. induction done as [|s done IH]; intros ns w Hkeep.
  - simpl. unfold ret. now intros [= -> ->].
  - simpl in Hkeep. apply andb_true_iff in Hkeep as [Hs Hdone].
    rewrite <- app_comm_cons, !exec_stmts_cons.
    destruct (exec_stmt b s ns w) as [[after|e] w2] eqn:Hstep; [|discriminate].
    rewrite (exec_stmt_keeps _ _ _ _ _ _ Hs Hstep).
    now apply IH.
Qed.

Definition disallowed_message (module : string) : string :=
  "'" +:+ module +:+ "' 모듈은 어댑터 코드에서 사용할 수 없습니다.".

Lemma restricted_import_refuses (module : string) :
  in_safe_modules module = false ->
  restricted_import module = Raise (ImportError (disallowed_message module)).
Proof. unfold restricted_import. now intros ->. Qed.

Lemma restricted_import_allows (module : string) :
  in_safe_modules module = true ->
  restricted_import module = Ok module_object.
Proof. unfold restricted_import. now intros ->. Qed.

Lemma frame_builtins_sandbox : frame_builtins sandbox_namespace = _safe_builtins.
Proof. reflexivity. Qed.

(** As long as no statement has restored [__import__], an import of a
    module outside the allow-list raises [ImportError] when the import
    statement is reached: the statements before it have run, each of them
    once, and none of the statements after it runs. *)
Lemma import_refused_while_restricted
    (E : Env) (code : string) (done rest : list stmt)
    (module bound_as : string) (ns1 : namespace) (w w1 : world) :
  py_compile E code = Ok (done ++ SImport module bound_as :: rest) ->
  forallb keeps_builtins done = true ->
  in_safe_modules module = false ->
  exec_stmts _safe_builtins done sandbox_namespace w = (Ok ns1, w1) ->
  exec E code sandbox_namespace w
    = (Raise (ImportError (disallowed_message module)), w1)
  /\ w1 = set_trace (trace w ++ map EvStatement done) w.
Proof.
  intros Hc Hkeep Hm Hdone. split.
  - unfold exec, bind at 1, lift_outcome. rewrite Hc, frame_builtins_sandbox.
    rewrite (exec_stmts_app _ _ _ _ _ _ _ Hkeep Hdone), exec_stmts_cons. simpl.
    unfold bind, lift_outcome.
    now rewrite (restricted_import_refuses _ Hm).
  - eapply exec_stmts_completed; eassumption.
Qed.

Definition source_with_late_import : list stmt :=
  [SPrint "loading adapter";
   SImport "os" "os";
   SDef "convert_bop_to_input"
        (Scenarios.returning [Scenarios.positional "bop_json";
                              Scenarios.positional "params"] (PStr "{}"))].

Definition late_import_env : Env :=
  Scenarios.scenario_env [("pre", source_with_late_import)]
                         Scenarios.no_oracle (Scenarios.exits_with 0).

(** With the import in second place, the statement before it has already
    run when [ImportError] is raised. *)
Lemma import_error_after_earlier_statement :
  let r := _run_preprocessor late_import_env "pre" 0 None
             (Scenarios.one_tool_world (PDict []) "pre" "post") in
  fst r = Raise (ImportError (disallowed_message "os"))
  /\ trace (snd r) = [EvStatement (SPrint "loading adapter")]
  /\ count is_statement (trace (snd r)) = 1.
Proof. vm_compute. repeat split; reflexivity. Qed.

(** The same source behind a first line that puts the interpreter's
    [__import__] back, which the injected [json] module hands out:
<<
    __builtins__['__import__'] = json.__builtins__['__import__']
    import os
    def convert_bop_to_input(bop_json, params): return "{}"
>> *)
Definition source_restoring_import : list stmt :=
  [SRestoreImport;
   SImport "os" "os";
   SDef "convert_bop_to_input"
        (Scenarios.returning [Scenarios.positional "bop_json";
                              Scenarios.positional "params"] (PStr "{}"))].

Definition restoring_env : Env :=
  Scenarios.scenario_env [("pre", source_restoring_import)]
                         Scenarios.no_oracle (Scenarios.exits_with 0).

(** C7.  The claim does not hold of the code.  [os] is outside the
    allow-list, and an adapter source that imports it after one assignment
    to [__builtins__] runs to its end in the sandbox namespace: the import
    raises nothing, the name [os] is bound to the module, every statement
    has run, and [_run_preprocessor] goes on to call the function and
    returns its text. *)
Theorem restored_import_admits_disallowed_module :
  let w := Scenarios.one_tool_world (PDict []) "pre" "post" in
  let r := exec restoring_env "pre" sandbox_namespace w in
  in_safe_modules "os" = false
  /\ match fst r with
     | Ok ns => ns !! "os" = Some (NVal module_object)
     | Raise _ => False
     end
  /\ trace (snd r) = map EvStatement source_restoring_import
  /\ fst (_run_preprocessor restoring_env "pre" 0 None w) = Ok "{}".
Proof. vm_compute. repeat split; reflexivity. Qed.

(** *** The arity check of [_run_preprocessor] *)

Definition arity_message : string :=
  "Pre-processor 'convert_bop_to_input'는 반드시 2개의 파라미터(bop_json, params)를 받아야 합니다.".

Lemma exec_adds_no_invocation (E : Env) (code : string) (ns : namespace)
                              (w : world) :
  count is_invoked (trace (snd (exec E code ns w))) = count is_invoked (trace w)
  /\ heap (snd (exec E code ns w)) = heap w.
Proof.
  unfold exec, bind, lift_outcome.
  destruct (py_compile E code) as [prog|e]; [|now split].
  destruct (exec_stmts_world (frame_builtins ns) prog ns w)
    as (done & rest & _ & -> & _).
  simpl. split; [|reflexivity].
  unfold count. rewrite List.filter_app, length_app.
  assert (List.filter is_invoked (map EvStatement done) = []) as ->.
  { induction done; simpl; auto. }
  simpl. lia.
Qed.

(** C6 (as amended).  The function bound to [convert_bop_to_input] must
    declare at least two parameters.  The count is read off the callable's
    signature once the source has been executed and before the function is
    called; a function that declares fewer than two (one, say) is rejected
    with [ValueError], its body is never entered and no object is touched. *)
Theorem short_signature_rejected_before_call
    (E : Env) (code : string) (bop_data : nat) (params : option nat)
    (w w1 : world) (ns : namespace) (f : pyfunc) :
  exec E code sandbox_namespace w = (Ok ns, w1) ->
  ns !! "convert_bop_to_input" = Some (NFunc f) ->
  length (parameters f) < 2 ->
  _run_preprocessor E code bop_data params w
    = (Raise (ValueError arity_message), w1)
  /\ count is_invoked (trace w1) = count is_invoked (trace w)
  /\ heap w1 = heap w.
Proof.
  intros Hexec Hfn Hlen.
  pose proof (exec_adds_no_invocation E code sandbox_namespace w) as [Hc Hh].
  rewrite Hexec in Hc, Hh. simpl in Hc, Hh.
  split; [|now split].
  unfold _run_preprocessor, bind at 1. rewrite Hexec, Hfn. simpl.
  unfold bind at 1, lift_outcome.
  apply Nat.ltb_lt in Hlen. now rewrite Hlen.
Qed.

Definition one_parameter_source : list stmt :=
  [SDef "convert_bop_to_input"
        (Scenarios.returning [Scenarios.positional "bop_json"] (PStr "{}"))].

Definition one_parameter_env : Env :=
  Scenarios.scenario_env [("pre", one_parameter_source)]
                         Scenarios.no_oracle (Scenarios.exits_with 0).

Lemma short_signature_rejected_before_call_witness :
  let w := Scenarios.one_tool_world (PDict []) "pre" "post" in
  let w1 := set_trace (map EvStatement one_parameter_source) w in
  _run_preprocessor one_parameter_env "pre" 0 None w
    = (Raise (ValueError arity_message), w1)
  /\ count is_invoked (trace w1) = 0.
Proof.
  intros w w1.
  destruct (short_signature_rejected_before_call one_parameter_env "pre" 0 None
              w w1
              (<["convert_bop_to_input" :=
                   NFunc (Scenarios.returning [Scenarios.positional "bop_json"]
                                              (PStr "{}"))]> sandbox_namespace)
              (Scenarios.returning [Scenarios.positional "bop_json"] (PStr "{}")))
    as [H [Hc _]].
  - reflexivity.
  - reflexivity.
  - simpl. lia.
  - split; [exact H | exact Hc].
Defined.

(** The claim C6 as stated fails: a function declared with three parameters,
    the third with a default, passes the check and is called. *)
Definition three_parameter_source : list stmt :=
  [SDef "convert_bop_to_input"
        (Scenarios.returning
           [Scenarios.positional "bop_json"; Scenarios.positional "params";
            Scenarios.optional "verbose"] (PStr "{}"))].

Definition three_parameter_env : Env :=
  Scenarios.scenario_env [("pre", three_parameter_source)]
                         Scenarios.no_oracle (Scenarios.exits_with 0).

Lemma three_parameters_accepted_and_called :
  let r := _run_preprocessor three_parameter_env "pre" 0 None
             (Scenarios.one_tool_world (PDict []) "pre" "post") in
  fst r = Ok "{}"
  /\ count is_invoked (trace (snd r)) = 1.
Proof. vm_compute. split; reflexivity. Qed.

End SandboxFacts.

(** ** The executor *)

Module ExecutorFacts.
Import Py World Sandbox Registry Sanitizer Executor Logic.
Local Open Scope py_scope.

(** *** Stepping through a computation *)

Lemma spec_trivial {A} n (m : M A) : spec anything n any_value any_exn m.
Proof. intros w. split; [exact I|]. destruct (fst (m w)); exact I. Qed.

Section Readers.
Context (R : nat -> world -> world -> Prop) `{!Graded R}.

Lemma spec_get_world n X : spec R n any_value X get_world.
Proof. now apply (spec_read R n _ X (fun w => w)). Qed.

Lemma spec_deref n X r : spec R n any_value X (deref r).
Proof. now apply (spec_read R n _ X (fun w => default (PDict []) (heap w !! r))). Qed.

Lemma spec_get_log n X : spec R n any_value X get_log.
Proof. now apply (spec_read R n _ X (fun w => exec_log (frame w))). Qed.

Lemma spec_get_pre_code n X : spec R n any_value X get_pre_code.
Proof. now apply (spec_read R n _ X (fun w => current_pre_code (frame w))). Qed.

Lemma spec_get_post_code n X : spec R n any_value X get_post_code.
Proof. now apply (spec_read R n _ X (fun w => current_post_code (frame w))). Qed.

(** [exec_log["message"] = msg] hands [msg] on. *)
Lemma spec_log_message_is n X msg :
  (forall w,
     R n w (set_frame {| exec_log := with_message msg (exec_log (frame w));
                         current_pre_code := current_pre_code (frame w);
                         current_post_code := current_post_code (frame w) |} w)) ->
  spec R n (fun s => s = msg) X (log_message_is msg).
Proof.
  intros H w. unfold log_message_is, update_log, bind, modify, ret. simpl.
  split; [apply H | reflexivity].
Qed.

Lemma spec_deepcopy n X r :
  (forall w v, R n w (set_heap (<[fresh (dom (heap w)) := v]> (heap w)) w)) ->
  spec R n any_value X (deepcopy r).
Proof. intros H w. split; [apply H | exact I]. Qed.

End Readers.

(** One step of a proof of [spec]: the rule for the construct at the head of
    the computation.  [obl] settles whatever is left to it: what a change of
    the world owes [R], and the computations it knows a lemma for. *)
Ltac spec_step obl :=
  lazymatch goal with
  | |- Graded _ => exact _
  | |- (_ <= _)%nat => first [apply Nat.le_refl | lia]
  | |- any_value _ => exact I
  | |- any_exn _ => exact I
  | |- forall _, _ =>
      intros ?; cbv beta;
      try match goal with H : ?a = _ |- _ => is_var a; subst a end
  | |- spec _ _ _ _ (ret _) => apply spec_ret
  | |- spec _ _ _ _ (raise _) => apply spec_raise
  | |- spec _ _ _ _ (lift_outcome _) => apply spec_lift
  | |- spec _ _ _ _ get_world => apply spec_get_world
  | |- spec _ _ _ _ get_log => apply spec_get_log
  | |- spec _ _ _ _ get_pre_code => apply spec_get_pre_code
  | |- spec _ _ _ _ get_post_code => apply spec_get_post_code
  | |- spec _ _ _ _ (deref _) => apply spec_deref
  | |- spec _ _ _ _ (modify _) => apply spec_modify
  | |- spec _ _ _ _ (emit _) => unfold emit
  | |- spec _ _ _ _ (update_log _) => unfold update_log
  | |- spec _ _ _ _ (set_pre_code _) => unfold set_pre_code
  | |- spec _ _ _ _ (set_post_code _) => unfold set_post_code
  | |- spec _ _ _ _ (store _ _) => unfold store
  | |- spec _ _ _ _ (log_message_is _) => apply spec_log_message_is
  | |- spec _ _ _ _ (deepcopy _) => apply spec_deepcopy
  | |- spec _ _ _ _ (catch _) => first [apply spec_catch | apply spec_catch_any]
  | |- spec _ ?n _ _ (finally _ _) => eapply (spec_finally _ n 0 n)
  | |- spec _ _ _ _ (try_except _ _) => eapply (spec_try_except _ 0)
  | |- spec _ _ _ _ (bind (log_message_is _) _) => eapply (spec_bind _ 0)
  | |- spec _ _ _ _ (bind (params_or_empty _) _) => eapply (spec_bind _ 0)
  | |- spec _ _ _ _ (bind (update_log bump_attempts) _) => fail
  | |- spec _ _ _ _ (bind (consult _ _ _ _ _) _) => fail
  | |- spec _ _ _ _ (bind (pre_loop _ _ _ _ _ _) _) => fail
  | |- spec _ _ _ _ (bind (post_loop _ _ _ _ _ _) _) => fail
  | |- spec _ _ _ _ (bind (catch _) _) => eapply (spec_bind _ 0)
  | |- spec _ _ _ _ (bind _ _) => apply spec_seq
  | |- spec _ _ _ _ (let _ := _ in _) => cbv zeta
  | |- spec _ _ _ _ (match ?x with _ => _ end) => destruct x eqn:?
  | |- match ?o with Ok _ => _ | Raise _ => _ end => destruct o eqn:?
  | |- _ => obl
  end.

Ltac spec_steps obl := repeat (spec_step obl).

(** Apply a rule by hand; the instance it needs is found at once. *)
Ltac graded := lazymatch goal with |- Graded _ => exact _ end.
Tactic Notation "rule" uconstr(r) := eapply r; try graded.

(** *** Failures carry a message *)




(** *** The anatomy of a call

    [execute_tool] copies the caller's object, looks the tool up, and, when
    the tool and its script are there, makes the work directory and writes
    the log line that renders [params].  If that line raises, the call ends
    there.  Otherwise it runs the pipeline from a world with a fresh log
    dict, catches what it raises, and tidies up. *)

Definition except_handler (e : exn) : M ExecuteResult :=
  msg <- log_message_is ("실행 오류: " +:+ emsg e) ;;
  ret (failure msg).

Definition work_dir_of (E : Env) (tid : string) : string :=
  path_join WORKDIR_BASE (tid +:+ "_" +:+ now_ms E).

Definition copied (bop_data : nat) (w : world) : world :=
  set_heap (<[fresh (dom (heap w)) := default (PDict []) (heap w !! bop_data)]>
              (heap w)) w.

Definition with_work_dir (E : Env) (tid : string) (w : world) : world :=
  set_workdirs ({[work_dir_of E tid]} ∪ workdirs w) w.

Definition started (E : Env) (tid : string) (entry : ToolRegistryEntry)
                   (w : world) : world :=
  set_frame {| exec_log := new_exec_log tid (metadata entry);
               current_pre_code := pre_process_code (adapter entry);
               current_post_code := post_process_code (adapter entry) |}
            (with_work_dir E tid w).

Definition tidied (E : Env) (tid : string) (w : world) : world :=
  rmtree (work_dir_of E tid)
         (path_join (work_dir_of E tid) "input_data.json")
         (path_join (work_dir_of E tid) "output_data.json")
         (_save_execution_log tid (exec_log (frame w)) w).

(** What the log line raises in world [w], if anything. *)
Definition params_fault (params : option nat) (w : world) : option exn :=
  match params with
  | None => None
  | Some r =>
      let v := default (PDict []) (heap w !! r) in
      if truthy v then json_check true v else None
  end.

Lemma log_params_run E params w :
  log_params E params w
  = (match params_fault params w with
     | Some e => Raise e
     | None => Ok tt
     end, w).
Proof.
  unfold log_params, params_fault. destruct params as [r|]; [|reflexivity].
  unfold bind at 1, deref. simpl.
  destruct (truthy _); [|reflexivity].
  unfold bind, lift_outcome, json_dumps, ret.
  destruct (json_check true _); reflexivity.
Qed.

Lemma execute_tool_anatomy k E tid bop_data params w :
  execute_tool k E tid bop_data params w
  = match get_tool w tid with
    | None =>
        (Ok (failure ("도구 '" +:+ tid +:+ "'를 찾을 수 없습니다.")),
         copied bop_data w)
    | Some entry =>
        match get_script_path w tid (file_name (metadata entry)) with
        | None =>
            (Ok (failure ("스크립트 파일을 찾을 수 없습니다: "
                          +:+ file_name (metadata entry))),
             copied bop_data w)
        | Some script_path =>
            match params_fault params (copied bop_data w) with
            | Some e => (Raise e, with_work_dir E tid (copied bop_data w))
            | None =>
                let out :=
                  try_except
                    (pipeline k E tid entry script_path (work_dir_of E tid)
                              (fresh (dom (heap w))) params)
                    except_handler
                    (started E tid entry (copied bop_data w)) in
                (fst out, tidied E tid (snd out))
            end
        end
    end.
Proof.
  unfold execute_tool, bind at 1, deepcopy, alloc. simpl.
  unfold bind at 1, get_world. simpl.
  change (get_tool _ tid) with (get_tool w tid).
  destruct (get_tool w tid) as [entry|]; [|reflexivity].
  change (get_script_path _ tid (file_name (metadata entry)))
    with (get_script_path w tid (file_name (metadata entry))).
  destruct (get_script_path w tid (file_name (metadata entry))) as [sp|];
    [|reflexivity].
  unfold bind at 1, modify. cbv zeta. simpl fst. simpl snd. cbv iota beta.
  fold (work_dir_of E tid).
  unfold bind at 1. rewrite log_params_run. simpl fst. simpl snd.
  change (params_fault params _) with (params_fault params (copied bop_data w)).
  destruct (params_fault params (copied bop_data w)) as [e|]; [reflexivity|].
  unfold bind, finally. simpl.
  match goal with
  | |- (let '(r, w') := ?m ?w0 in _) = _ =>
      change w0 with (started E tid entry (copied bop_data w));
      change m with (try_except
                       (pipeline k E tid entry sp (work_dir_of E tid)
                                 (fresh (dom (heap w))) params)
                       except_handler)
  end.
  destruct (try_except _ _ _) as [r w']. reflexivity.
Qed.

(** *** When a call returns a result *)

Section Totality.
Variable k : nat.
Variable E : Env.







End Totality.

(** The three failures the specification names, on concrete inputs. *)
Example unknown_tool_is_reported :
  fst (execute_tool 0 (Scenarios.scenario_env [] Scenarios.no_oracle
                                               (Scenarios.exits_with 0))
                    "nope" 0 None
                    (Scenarios.one_tool_world (PDict []) "pre" "post"))
  = Ok (failure "도구 'nope'를 찾을 수 없습니다.").
Proof. vm_compute. reflexivity. Qed.

Example missing_script_is_reported :
  fst (execute_tool 0 (Scenarios.scenario_env [] Scenarios.no_oracle
                                               (Scenarios.exits_with 0))
                    "tool" 0 None
                    (set_registry
                       (registry (Scenarios.one_tool_world (PDict []) "pre" "post"))
                       {| heap := {[ 0 := PDict [] ]}; registry := ∅;
                          uploads := ∅; workdirs := ∅; files := ∅; logs := [];
                          frame := Scenarios.blank_frame; trace := [] |}))
  = Ok (failure "스크립트 파일을 찾을 수 없습니다: script.py").
Proof. vm_compute. reflexivity. Qed.

Example broken_source_is_reported :
  fst (execute_tool 0 (Scenarios.scenario_env [] Scenarios.no_oracle
                                               (Scenarios.exits_with 0))
                    "tool" 0 None
                    (Scenarios.one_tool_world (PDict []) "pre" "post"))
  = Ok {| success := false;
          message := "Pre-processor 실행 오류: invalid syntax";
          updated_bop := None; tool_input := None; tool_output := None;
          stdout := None; stderr := None;
          auto_repair_attempted := Some false; auto_repaired := None |}.
Proof. vm_compute. reflexivity. Qed.

(** With [params = {"limits": [1, 2]}] the call below succeeds. *)
Example listed_params_are_logged :
  let E := Scenarios.quiet_tool_env Scenarios.writes_file_and_prints in
  let w := Scenarios.with_params Scenarios.params_with_list
             (Scenarios.one_tool_world Scenarios.sample_bop "pre" "post") in
  exists r, fst (execute_tool 0 E "tool" 0 (Some 1) w) = Ok r
            /\ success r = true.
Proof. vm_compute. eexists. split; reflexivity. Qed.

(** C3.  The claim does not hold of the code.  For a registered tool with
    its script in place, a sound adapter pair and a tool that exits with
    status zero, the call with [params = {"limits": {1, 2}}] returns no
    result: the [TypeError] that [json.dumps] raises in the log line before
    the [try] block reaches the caller as it is.  Neither the [except]
    clause nor the [finally] clause runs, so the work directory made just
    before stays and no execution log is saved. *)
Theorem params_log_line_raises_to_caller :
  let E := Scenarios.quiet_tool_env Scenarios.writes_file_and_prints in
  let w := Scenarios.with_params Scenarios.params_with_set
             (Scenarios.one_tool_world Scenarios.sample_bop "pre" "post") in
  let out := execute_tool 0 E "tool" 0 (Some 1) w in
  fst out = Raise (TypeError "Object of type set is not JSON serializable")
  /\ work_dir_of E "tool" ∈ workdirs (snd out)
  /\ logs (snd out) = []
  /\ trace (snd out) = [].
Proof.
  intros E w out. split; [vm_compute; reflexivity|].
  split; [|split; vm_compute; reflexivity].
  subst out. rewrite execute_tool_anatomy.
  destruct (get_tool w "tool") as [entry|] eqn:Hentry;
    [|vm_compute in Hentry; discriminate].
  vm_compute in Hentry. injection Hentry as <-.
  destruct (get_script_path w "tool" _) as [sp|] eqn:Hsp;
    [|vm_compute in Hsp; discriminate].
  destruct (params_fault _ _) eqn:Hlog; [|vm_compute in Hlog; discriminate].
  simpl snd. unfold with_work_dir. simpl.
  apply elem_of_union_l, elem_of_singleton. reflexivity.
Qed.

(** *** What the engine may change for free

    A relation [R] fits the engine with costs [cb], [cpre], [cpost] when
    every change of the world the engine makes is free for it, except that
    counting one more repair attempt in the log costs [cb] and a
    consultation of the oracle costs [cpre] (for the pre-processor) or
    [cpost] (for the post-processor).  Objects may be overwritten where
    [writable] says so. *)

Definition change_log (f : ExecLog -> ExecLog) (w : world) : world :=
  set_frame {| exec_log := f (exec_log (frame w));
               current_pre_code := current_pre_code (frame w);
               current_post_code := current_post_code (frame w) |} w.

Definition keeps_counters (f : ExecLog -> ExecLog) : Prop :=
  forall l, auto_repair_attempts (f l) = auto_repair_attempts l.

Definition quiet_event (e : event) : bool :=
  match e with
  | EvStatement _ | EvInvoked _ _ _ | EvSubprocess _ | EvStdoutFallback => true
  | EvRepair _ _ | EvAdapterWritten _ _ => false
  end.

Class Engine (R : nat -> world -> world -> Prop) (cb cpre cpost : nat)
             (writable : nat -> Prop) : Prop := {
  engine_graded :: Graded R;
  free_store : forall w r v,
    writable r -> R 0 w (set_heap (<[r := v]> (heap w)) w);
  free_alloc : forall w v,
    R 0 w (set_heap (<[fresh (dom (heap w)) := v]> (heap w)) w);
  free_event : forall w e,
    quiet_event e = true -> R 0 w (set_trace (trace w ++ [e]) w);
  free_log : forall w f, keeps_counters f -> R 0 w (change_log f w);
  free_code : forall w pre post,
    R 0 w (set_frame {| exec_log := exec_log (frame w);
                        current_pre_code := pre;
                        current_post_code := post |} w);
  free_files : forall w f, R 0 w (set_files f w);
  cost_bump : forall w, R cb w (change_log bump_attempts w);
  cost_repair_pre : forall w code,
    R cpre w (set_trace (trace w ++ [EvRepair "pre_process" code]) w);
  cost_repair_post : forall w code,
    R cpost w (set_trace (trace w ++ [EvRepair "post_process" code]) w);
}.

(** Overwriting [adapter.json] is free as well. *)
Class WriteFree (R : nat -> world -> world -> Prop) : Prop := {
  free_registry : forall w r, R 0 w (set_registry r w);
  free_written : forall w tid a,
    R 0 w (set_trace (trace w ++ [EvAdapterWritten tid a]) w);
}.

Ltac engine_obl :=
  first
    [ apply free_store; solve [auto]
    | apply free_alloc
    | apply free_event; reflexivity
    | apply free_code
    | apply free_files
    | apply free_log; intros ?; reflexivity
    | apply (free_log _ (fun l => with_sanitized (with_message _ l)));
      intros ?; reflexivity
    | apply cost_bump
    | apply cost_repair_pre
    | apply cost_repair_post
    | apply free_registry
    | apply free_written ].

Section EngineRules.
Context (R : nat -> world -> world -> Prop) (cb cpre cpost : nat)
        (writable : nat -> Prop) `{!Engine R cb cpre cpost writable}.
Variable k : nat.
Variable E : Env.

Lemma exec_stmt_free b s ns : spec R 0 any_value any_exn (exec_stmt b s ns).
Proof. destruct s; simpl; spec_steps engine_obl. Qed.

Lemma exec_stmts_free b prog ns :
  spec R 0 any_value any_exn (exec_stmts b prog ns).
Proof.
  revert b ns. induction prog as [|s prog IH]; intros b ns; simpl.
  - spec_steps engine_obl.
  - spec_steps ltac:(first [engine_obl | apply exec_stmt_free | apply IH]).
Qed.

Lemma exec_free code ns : spec R 0 any_value any_exn (exec E code ns).
Proof.
  unfold exec.
  spec_steps ltac:(first [engine_obl | apply exec_stmts_free]).
Qed.

Lemma call_free fname o a b b_ref :
  writable a ->
  (forall r, b_ref = Some r -> writable r) ->
  spec R 0 any_value any_exn (call fname o a b b_ref).
Proof.
  intros Ha Hb. unfold call. spec_steps engine_obl.
Qed.

Lemma params_or_empty_spec params :
  spec R 0 (fun p => forall r, snd p = Some r -> params = Some r) any_exn
       (params_or_empty params).
Proof.
  unfold params_or_empty. destruct params as [r|].
  - rule (spec_bind _ 0 0 _ any_value); [lia | rule spec_deref |].
    intros v _. destruct (truthy v); rule spec_ret; simpl; congruence.
  - rule spec_ret. simpl. congruence.
Qed.

Section Sandboxed.
Variable bop_data : nat.
Variable params : option nat.
Hypothesis bop_writable : writable bop_data.
Hypothesis params_writable : forall r, params = Some r -> writable r.

Lemma run_preprocessor_free code :
  spec R 0 any_value any_exn (_run_preprocessor E code bop_data params).
Proof.
  unfold _run_preprocessor.
  spec_steps ltac:(first [ engine_obl
                         | apply exec_free
                         | apply params_or_empty_spec
                         | apply call_free; [assumption | solve [eauto]] ]).
Qed.

Lemma run_postprocessor_free code tool_output :
  spec R 0 any_value any_exn (_run_postprocessor E code bop_data tool_output).
Proof.
  unfold _run_postprocessor.
  spec_steps ltac:(first [ engine_obl
                         | apply exec_free
                         | apply call_free; [assumption | discriminate] ]).
Qed.

Lemma consult_pre_cost code info data :
  spec R cpre any_value any_exn (consult E "pre_process" code info data).
Proof.
  unfold consult.
  rule spec_seq; [rule spec_get_world | intros w0].
  rule (spec_bind _ cpre 0 _ any_value); [lia | | intros; rule spec_ret; exact I].
  unfold emit. rule spec_modify; [intros; apply cost_repair_pre | exact I].
Qed.

Lemma consult_post_cost code info data :
  spec R cpost any_value any_exn (consult E "post_process" code info data).
Proof.
  unfold consult.
  rule spec_seq; [rule spec_get_world | intros w0].
  rule (spec_bind _ cpost 0 _ any_value); [lia | | intros; rule spec_ret; exact I].
  unfold emit. rule spec_modify; [intros; apply cost_repair_post | exact I].
Qed.

(** The number of rounds of a loop in which a repair may be asked for. *)
Definition budget (attempts : list nat) : nat :=
  length (List.filter (fun a => (a <? k)%nat) attempts).

Lemma budget_range : budget (seq 0 (k + 1)) = k.
Proof.
  unfold budget. rewrite Nat.add_1_r, seq_S, List.filter_app, length_app. simpl.
  rewrite Nat.ltb_irrefl. simpl.
  assert (forall n, n <= k ->
            List.filter (fun a => (a <? k)%nat) (seq 0 n) = seq 0 n) as H.
  { induction n as [|n IH]; intros Hn; [reflexivity|].
    rewrite seq_S, List.filter_app, IH by lia. simpl.
    destruct (Nat.ltb_spec n k); [reflexivity | lia]. }
  rewrite H by lia. rewrite length_seq. lia.
Qed.

Lemma pre_loop_cost attempts pre_error :
  spec R ((cb + cpre) * budget attempts) any_value any_exn
       (pre_loop k E bop_data params attempts pre_error).
Proof.
  revert pre_error. induction attempts as [|attempt rest IH]; intros pre_error.
  - simpl. spec_steps engine_obl.
  - simpl pre_loop.
    spec_steps ltac:(first [ engine_obl | apply run_preprocessor_free ]).
    + (* a repair is asked for *)
      unfold budget; simpl; rewrite Heqb; simpl length; fold (budget rest).
      rule (spec_bind _ cb (cpre + (cb + cpre) * budget rest) _ any_value);
        [lia | | intros _ _].
      { unfold update_log. rule spec_modify; [intros; apply cost_bump | exact I]. }
      rule spec_seq; [rule spec_deref | intros bop].
      rule spec_seq;
        [rule spec_lift; destruct (json_dumps _ _ _); exact I | intros text].
      rule (spec_bind _ cpre ((cb + cpre) * budget rest));
        [lia | apply consult_pre_cost | intros fixed _].
      destruct (accepted fixed) as [c|].
      * spec_steps ltac:(first [ engine_obl | apply IH ]).
      * rule spec_ret. exact I.
    + (* the budget is spent *)
      unfold budget; simpl; rewrite Heqb; fold (budget rest). apply IH.
Qed.

Lemma post_loop_cost tool_output attempts post_error :
  spec R ((cb + cpost) * budget attempts) any_value any_exn
       (post_loop k E bop_data tool_output attempts post_error).
Proof.
  revert post_error. induction attempts as [|attempt rest IH]; intros post_error.
  - simpl. spec_steps engine_obl.
  - simpl post_loop.
    spec_steps ltac:(first [ engine_obl | apply run_postprocessor_free ]).
    + unfold budget; simpl; rewrite Heqb; simpl length; fold (budget rest).
      rule (spec_bind _ cb (cpost + (cb + cpost) * budget rest) _ any_value);
        [lia | | intros _ _].
      { unfold update_log. rule spec_modify; [intros; apply cost_bump | exact I]. }
      rule (spec_bind _ cpost ((cb + cpost) * budget rest));
        [lia | apply consult_post_cost | intros fixed _].
      destruct (accepted fixed) as [c|].
      * spec_steps ltac:(first [ engine_obl | apply IH ]).
      * rule spec_ret. exact I.
    + unfold budget; simpl; rewrite Heqb; fold (budget rest). apply IH.
Qed.

Lemma execute_subprocess_free script_path work_dir input_file output_file
      execution_type :
  spec R 0 any_value any_exn
       (_execute_subprocess E script_path work_dir input_file output_file
                            execution_type).
Proof. unfold _execute_subprocess. spec_steps engine_obl. Qed.

Lemma collect_tool_output_free output_file out :
  spec R 0 any_value any_exn (collect_tool_output output_file out).
Proof. unfold collect_tool_output. spec_steps engine_obl. Qed.

Section Writing.
Context `{!WriteFree R}.

Lemma update_tool_adapter_free tid a :
  spec R 0 any_value any_exn (update_tool_adapter tid a).
Proof. unfold update_tool_adapter. spec_steps engine_obl. Qed.

Lemma finish_free tid original before updated tool_in tool_out out err :
  spec R 0 any_value any_exn
       (finish E tid original before updated tool_in tool_out out err).
Proof.
  unfold finish.
  spec_steps ltac:(first [engine_obl | apply update_tool_adapter_free]).
Qed.

Lemma post_phase_cost tid original tool_in tool_out out err :
  spec R ((cb + cpost) * k) any_value any_exn
       (post_phase k E tid original bop_data tool_in tool_out out err).
Proof.
  unfold post_phase.
  spec_steps engine_obl.
  rule (spec_bind _ ((cb + cpost) * k) 0 _ any_value); [lia | |].
  - pose proof (post_loop_cost tool_out (seq 0 (k + 1)) None) as H.
    rewrite budget_range in H. exact H.
  - intros post _.
    spec_steps ltac:(first [engine_obl | apply finish_free]).
Qed.

Lemma launch_phase_cost tid entry script_path work_dir tool_in :
  spec R ((cb + cpost) * k) any_value any_exn
       (launch_phase k E tid entry script_path work_dir bop_data tool_in).
Proof.
  unfold launch_phase.
  spec_steps ltac:(first [ engine_obl
                         | apply execute_subprocess_free
                         | apply collect_tool_output_free
                         | apply post_phase_cost ]).
Qed.

Lemma pipeline_cost tid entry script_path work_dir :
  spec R ((cb + cpre) * k + (cb + cpost) * k) any_value any_exn
       (pipeline k E tid entry script_path work_dir bop_data params).
Proof.
  unfold pipeline.
  rule (spec_bind _ ((cb + cpre) * k) ((cb + cpost) * k) _ any_value);
    [lia | |].
  - pose proof (pre_loop_cost (seq 0 (k + 1)) None) as H.
    rewrite budget_range in H. exact H.
  - intros pre _.
    spec_steps ltac:(first [engine_obl | apply launch_phase_cost]).
Qed.

Lemma guarded_cost tid entry script_path work_dir :
  spec R ((cb + cpre) * k + (cb + cpost) * k) any_value any_exn
       (try_except
          (pipeline k E tid entry script_path work_dir bop_data params)
          except_handler).
Proof.
  rule (spec_try_except _ ((cb + cpre) * k + (cb + cpost) * k) 0 _ _ any_exn);
    [lia | apply pipeline_cost | | intros; exact I].
  intros e _ _. unfold except_handler. spec_steps engine_obl.
Qed.

End Writing.

End Sandboxed.

End EngineRules.


(** *** Counting *)

Lemma count_snoc (p : event -> bool) (tr : list event) (e : event) :
  count p (tr ++ [e]) = count p tr + (if p e then 1 else 0).
Proof.
  unfold count. rewrite List.filter_app, length_app. simpl.
  now destruct (p e).
Qed.

Lemma count_app (p : event -> bool) (tr tr' : list event) :
  count p (tr ++ tr') = count p tr + count p tr'.
Proof. unfold count. now rewrite List.filter_app, length_app. Qed.

(** [grow mu n]: the measure [mu] does not shrink and gains at most [n]. *)
Definition grow (mu : world -> nat) (n : nat) (w w' : world) : Prop :=
  mu w <= mu w' /\ mu w' <= mu w + n.

#[export] Instance grow_graded (mu : world -> nat) : Graded (grow mu).
Proof. split; unfold grow; intros; lia. Qed.

Definition is_repair_of (fn : string) (e : event) : bool :=
  match e with
  | EvRepair f _ => String.eqb f fn
  | _ => false
  end.

(** Consultations of the oracle for one phase; all consultations; the
    counter the log carries. *)
Definition repairs_in (fn : string) (w : world) : nat :=
  count (is_repair_of fn) (trace w).
Definition repairs (w : world) : nat := count is_repair (trace w).
Definition attempts (w : world) : nat :=
  auto_repair_attempts (exec_log (frame w)).

Ltac measure_obl :=
  intros; unfold grow, repairs_in, repairs, attempts, change_log; simpl;
  rewrite ?count_snoc; simpl;
  try match goal with
      | H : quiet_event ?e = true |- _ => destruct e; try discriminate H; simpl
      | H : keeps_counters ?f |- _ => rewrite H
      end;
  lia.

#[export] Instance pre_repairs_engine :
  Engine (grow (repairs_in "pre_process")) 0 1 0 (fun _ => True).
Proof. split; [exact _ | measure_obl ..]. Qed.

#[export] Instance post_repairs_engine :
  Engine (grow (repairs_in "post_process")) 0 0 1 (fun _ => True).
Proof. split; [exact _ | measure_obl ..]. Qed.

#[export] Instance repairs_engine : Engine (grow repairs) 0 1 1 (fun _ => True).
Proof. split; [exact _ | measure_obl ..]. Qed.

#[export] Instance attempts_engine : Engine (grow attempts) 1 0 0 (fun _ => True).
Proof. split; [exact _ | measure_obl ..]. Qed.

#[export] Instance pre_repairs_write : WriteFree (grow (repairs_in "pre_process")).
Proof. split; measure_obl. Qed.
#[export] Instance post_repairs_write : WriteFree (grow (repairs_in "post_process")).
Proof. split; measure_obl. Qed.
#[export] Instance repairs_write : WriteFree (grow repairs).
Proof. split; measure_obl. Qed.
#[export] Instance attempts_write : WriteFree (grow attempts).
Proof. split; measure_obl. Qed.

(** [same view]: the part of the world that [view] shows is left as it
    was. *)
Definition same {V : Type} (view : world -> V) (n : nat) (w w' : world) : Prop :=
  view w' = view w.

#[export] Instance same_graded {V} (view : world -> V) : Graded (same view).
Proof. split; unfold same; intros; congruence. Qed.

#[export] Instance anything_engine : Engine anything 0 0 0 (fun _ => True).
Proof. split; [exact _ | intros; exact I ..]. Qed.

#[export] Instance logs_engine : Engine (same logs) 0 0 0 (fun _ => True).
Proof. split; [exact _ | intros; reflexivity ..]. Qed.
#[export] Instance logs_write : WriteFree (same logs).
Proof. split; intros; reflexivity. Qed.

(** *** The repair budget *)

Section Budget.
Variable k : nat.
Variable E : Env.
Variables (tid : string) (bop_data : nat) (params : option nat).

(** A measure read off the trace alone moves over a whole call as it moves
    over the guarded pipeline. *)
Lemma trace_measure_along_call (mu : world -> nat) (cb cpre cpost : nat)
    `{!Engine (grow mu) cb cpre cpost (fun _ => True)} `{!WriteFree (grow mu)}
    (w : world) :
  (forall a b, trace a = trace b -> mu a = mu b) ->
  grow mu ((cb + cpre) * k + (cb + cpost) * k) w
       (snd (execute_tool k E tid bop_data params w)).
Proof.
  intros Hmu. rewrite execute_tool_anatomy.
  assert (forall n, grow mu n w (copied bop_data w)) as Hcopy.
  { intros n. unfold grow. rewrite (Hmu (copied bop_data w) w eq_refl). lia. }
  destruct (get_tool w tid) as [entry|]; [|apply Hcopy].
  destruct (get_script_path w tid _) as [sp|]; [|apply Hcopy].
  destruct (params_fault params _) as [e|].
  { simpl snd. unfold grow.
    rewrite (Hmu (with_work_dir E tid (copied bop_data w)) w eq_refl). lia. }
  cbv zeta. simpl snd.
  destruct (spec_run _ _ _ _ _ (started E tid entry (copied bop_data w))
              (guarded_cost (grow mu) cb cpre cpost (fun _ => True) k E
                 (fresh (dom (heap w))) params I (fun _ _ => I)
                 tid entry sp (work_dir_of E tid))) as [[H1 H2] _].
  set (w3 := snd (try_except _ _ _)) in *.
  unfold grow.
  rewrite (Hmu (tidied E tid w3) w3 eq_refl).
  rewrite (Hmu (started E tid entry (copied bop_data w)) w eq_refl) in H1, H2.
  split; assumption.
Qed.

Lemma logged_attempts (w : world) :
  exists added,
    logs (snd (execute_tool k E tid bop_data params w)) = logs w ++ added
    /\ Forall (fun x => auto_repair_attempts (snd x) <= 2 * k) added.
Proof.
  rewrite execute_tool_anatomy.
  destruct (get_tool w tid) as [entry|];
    [|exists []; split; [now rewrite app_nil_r | constructor]].
  destruct (get_script_path w tid _) as [sp|];
    [|exists []; split; [now rewrite app_nil_r | constructor]].
  destruct (params_fault params _) as [e|];
    [exists []; split; [now rewrite app_nil_r | constructor]|].
  cbv zeta. simpl snd.
  set (w0 := started E tid entry (copied bop_data w)).
  destruct (spec_run _ _ _ _ _ w0
              (guarded_cost (grow attempts) 1 0 0 (fun _ => True) k E
                 (fresh (dom (heap w))) params I (fun _ _ => I)
                 tid entry sp (work_dir_of E tid))) as [[_ Ha] _].
  destruct (spec_run _ _ _ _ _ w0
              (guarded_cost (same logs) 0 0 0 (fun _ => True) k E
                 (fresh (dom (heap w))) params I (fun _ _ => I)
                 tid entry sp (work_dir_of E tid))) as [Hl _].
  unfold same in Hl.
  set (w3 := snd (try_except _ _ w0)) in *.
  exists [(tid, exec_log (frame w3))]. split.
  - simpl. now rewrite Hl.
  - constructor; [|constructor]. simpl.
    change (auto_repair_attempts (exec_log (frame w3))) with (attempts w3).
    change (attempts w0) with 0 in Ha. lia.
Qed.

End Budget.

(** C1 (as amended).  Within one call the oracle is consulted at most [k]
    times for the pre-processor and at most [k] times for the
    post-processor, [2 k] times at most in all, and the count of repair
    attempts that the call logs is at most [2 k]; with [k = 0] the oracle is
    not consulted at all, whatever fails. *)
Theorem repair_budget_per_phase
    (k : nat) (E : Env) (tid : string) (bop_data : nat) (params : option nat)
    (w : world) :
  let w' := snd (execute_tool k E tid bop_data params w) in
  repairs_in "pre_process" w' <= repairs_in "pre_process" w + k
  /\ repairs_in "post_process" w' <= repairs_in "post_process" w + k
  /\ repairs w' <= repairs w + 2 * k
  /\ (exists added,
        logs w' = logs w ++ added
        /\ Forall (fun x => auto_repair_attempts (snd x) <= 2 * k) added)
  /\ repairs (snd (execute_tool 0 E tid bop_data params w)) = repairs w.
Proof.
  intros w'. subst w'.
  pose proof (trace_measure_along_call k E tid bop_data params
                (repairs_in "pre_process") 0 1 0 w) as [_ H1];
    [unfold repairs_in; congruence|].
  pose proof (trace_measure_along_call k E tid bop_data params
                (repairs_in "post_process") 0 0 1 w) as [_ H2];
    [unfold repairs_in; congruence|].
  pose proof (trace_measure_along_call k E tid bop_data params
                repairs 0 1 1 w) as [_ H3];
    [unfold repairs; congruence|].
  pose proof (trace_measure_along_call 0 E tid bop_data params
                repairs 0 1 1 w) as [H4 H5];
    [unfold repairs; congruence|].
  repeat split; try lia.
  apply logged_attempts.
Qed.

(** The claim C1 as stated fails for [k = 1]: the pre-processor fails once
    and is mended, then the post-processor fails and the oracle is asked
    again.  Two consultations, and a logged count of two. *)
Lemma two_consultations_on_budget_one :
  let out := execute_tool 1 Scenarios.both_phases_fail_env "tool" 0 None
               (Scenarios.one_tool_world (PDict []) "pre" "post") in
  repairs (snd out) = 2
  /\ map (fun x => auto_repair_attempts (snd x)) (logs (snd out)) = [2]
  /\ List.filter is_repair (trace (snd out))
     = [EvRepair "pre_process" "pre"; EvRepair "post_process" "post"].
Proof. vm_compute. repeat split; reflexivity. Qed.

(** *** The caller's object *)

(** [kept b]: the object [b], if there is one, stays as it is. *)
Definition kept (b : nat) (n : nat) (w w' : world) : Prop :=
  forall v, heap w !! b = Some v -> heap w' !! b = Some v.

#[export] Instance kept_graded (b : nat) : Graded (kept b).
Proof. split; unfold kept; intros; auto. Qed.

Lemma fresh_is_new (w : world) (b : nat) (v : pyval) :
  heap w !! b = Some v -> fresh (dom (heap w)) <> b.
Proof.
  intros H Heq. apply (is_fresh (dom (heap w))). rewrite Heq.
  apply elem_of_dom. now exists v.
Qed.

#[export] Instance kept_engine (b : nat) :
  Engine (kept b) 0 0 0 (fun r => r <> b).
Proof.
  split; [exact _ | unfold kept; simpl; intros; auto ..].
  - now rewrite lookup_insert_ne.
  - rewrite lookup_insert_ne; [assumption | eapply fresh_is_new; eassumption].
Qed.

#[export] Instance kept_write (b : nat) : WriteFree (kept b).
Proof. split; unfold kept; simpl; auto. Qed.

(** C10.  The claim does not hold of the code.  Only [bop_data] is deep
    copied; [params] goes to the pre-processor as it is, so whatever of the
    caller's domain object can be reached through [params] is open to the
    adapter.  When the caller passes one and the same dict as [bop_data]
    and as [params], a pre-processor that writes into its second argument
    writes into the caller's domain object, which is changed when the call
    returns. *)
Theorem caller_object_changed_through_params :
  let w := Scenarios.one_tool_world Scenarios.sample_bop "pre" "post" in
  let w' := snd (execute_tool 0 (Scenarios.mutating_env Scenarios.writes_into_params 1)
                              "tool" 0 (Some 0) w) in
  heap w !! 0 = Some Scenarios.sample_bop
  /\ heap w' !! 0
     = Some (PDict [(KStr "project_title", PStr "line 1");
                    (KStr "processes", PList []);
                    (KStr "injected", PInt 1)]).
Proof. vm_compute. split; reflexivity. Qed.

#[export] Instance registry_engine :
  Engine (same registry) 0 0 0 (fun _ => True).
Proof. split; [exact _ | intros; reflexivity ..]. Qed.

(** *** A run in which the tool exits with a non-zero status *)

Definition failed (r : ExecuteResult) : Prop := success r = false.

(** The command of the launch. *)
Definition launch_command (entry : ToolRegistryEntry)
                          (script_path work_dir : string) : list string :=
  _build_command script_path
                 (path_join work_dir "input_data.json")
                 (path_join work_dir "output_data.json")
                 (execution_type (metadata entry)).

(** The result dict of a run that ends at the exit status. *)
Definition exit_failure (out err : string) (rc : Z) : ExecuteResult :=
  {| success := false;
     message := "스크립트가 오류 코드 " +:+ str_of_Z rc +:+ "로 종료되었습니다.";
     updated_bop := None; tool_input := None; tool_output := None;
     stdout := clip 2000 out; stderr := clip 2000 err;
     auto_repair_attempted := None; auto_repaired := None |}.

(** From the launch on: the tool is given the text just written to its
    input file; when it exits with a status other than zero, the run ends
    there.  Nothing is recorded but the launch itself, the counter of
    repair attempts stays, and neither registry nor sources in use change. *)
Lemma launch_phase_nonzero (k : nat) (E : Env) (tid : string)
    (entry : ToolRegistryEntry) (script_path work_dir : string)
    (bop_data : nat) (tool_in : string) (w : world)
    (out err : string) (rc : Z) (written : option file_state) :
  subprocess_run E (launch_command entry script_path work_dir) tool_in
    = Completed out err rc written ->
  rc <> 0%Z ->
  let after := launch_phase k E tid entry script_path work_dir bop_data
                            tool_in w in
  fst after = Ok (exit_failure out err rc)
  /\ trace (snd after)
     = trace w ++ [EvSubprocess (launch_command entry script_path work_dir)]
  /\ attempts (snd after) = attempts w
  /\ log_success (exec_log (frame (snd after)))
     = log_success (exec_log (frame w))
  /\ log_return_code (exec_log (frame (snd after))) = Some rc
  /\ logs (snd after) = logs w
  /\ registry (snd after) = registry w
  /\ heap (snd after) = heap w.
Proof.
  intros Hrun Hrc.
  unfold launch_phase, bind, update_log, modify, catch, _execute_subprocess,
    bind, get_world, emit, modify, ret, log_message_is, update_log, bind, modify,
    ret.
  simpl.
  unfold read_text. simpl. rewrite lookup_insert_eq.
  fold (launch_command entry script_path work_dir). rewrite Hrun.
  assert (negb (rc =? 0)%Z = true) as Hnz.
  { apply negb_true_iff. now apply Z.eqb_neq. }
  destruct written as [f|]; simpl; rewrite Hnz; simpl;
    repeat split; reflexivity.
Qed.

(** C4.  In a call that gets as far as the launch - the tool and its
    script are found, the log line renders [params], and the pre-processor
    phase hands over the text [tool_in] - a tool that exits on this input
    with a status other than zero, whether or not it has written its output
    file, ends the call: the result has [success = false] and names the
    status, the failure is never handed to a repair loop - after the
    pre-processor phase nothing is recorded but the launch itself, so no
    consultation is made and no repair attempt counted for it, and none at
    all for the post-processor - and the log that is saved holds the status
    and the count of attempts as it stood before the launch. *)
Theorem nonzero_exit_never_repaired
    (k : nat) (E : Env) (tid : string) (bop_data : nat) (params : option nat)
    (w : world) (entry : ToolRegistryEntry) (script_path : string)
    (tool_in : string) (pre_error : option exn)
    (out err : string) (rc : Z) (written : option file_state) :
  get_tool w tid = Some entry ->
  get_script_path w tid (file_name (metadata entry)) = Some script_path ->
  params_fault params (copied bop_data w) = None ->
  let pre := pre_loop k E (fresh (dom (heap w))) params (seq 0 (k + 1)) None
                      (started E tid entry (copied bop_data w)) in
  fst pre = Ok (Some tool_in, pre_error) ->
  subprocess_run E (launch_command entry script_path (work_dir_of E tid)) tool_in
    = Completed out err rc written ->
  rc <> 0%Z ->
  let res := execute_tool k E tid bop_data params w in
  fst res = Ok (exit_failure out err rc)
  /\ trace (snd res)
     = trace (snd pre)
         ++ [EvSubprocess (launch_command entry script_path (work_dir_of E tid))]
  /\ repairs (snd res) = repairs (snd pre)
  /\ repairs_in "post_process" (snd res) = repairs_in "post_process" w
  /\ registry (snd res) = registry w
  /\ exists l,
       logs (snd res) = logs w ++ [(tid, l)]
       /\ log_return_code l = Some rc
       /\ auto_repair_attempts l = attempts (snd pre).
Proof.
  intros Htool Hsp Hlog pre Hpre Hrun Hrc res. subst res.
  rewrite execute_tool_anatomy, Htool, Hsp, Hlog. cbv zeta.
  set (w0 := started E tid entry (copied bop_data w)) in *.
  assert (try_except
            (pipeline k E tid entry script_path (work_dir_of E tid)
                      (fresh (dom (heap w))) params)
            except_handler w0
          = launch_phase k E tid entry script_path (work_dir_of E tid)
                         (fresh (dom (heap w))) tool_in (snd pre)) as Hpipe.
  { destruct (launch_phase_nonzero k E tid entry script_path (work_dir_of E tid)
                (fresh (dom (heap w))) tool_in (snd pre) out err rc written
                Hrun Hrc) as (Hres & _).
    unfold try_except, pipeline, bind at 1. fold pre.
    destruct pre as [o w1]. simpl in Hpre. subst o. simpl fst. simpl snd.
    simpl in Hres.
    cbn [fst snd] in *.
    destruct (launch_phase _ _ _ _ _ _ _ _ w1) as [r w2]. simpl in Hres.
    now subst r. }
  rewrite Hpipe.
  destruct (launch_phase_nonzero k E tid entry script_path (work_dir_of E tid)
              (fresh (dom (heap w))) tool_in (snd pre) out err rc written
              Hrun Hrc) as (Hres & Htr & Hat & Hsucc & Hcode & Hlogs & Hreg & _).
  cbv zeta in Hres, Htr, Hat, Hsucc, Hcode, Hlogs, Hreg.
  set (after := launch_phase _ _ _ _ _ _ _ _ _) in *.
  (* what the pre-processor phase leaves alone *)
  pose proof (spec_run _ _ _ _ _ w0
                (pre_loop_cost (grow (repairs_in "post_process")) 0 0 1
                   (fun _ => True) k E (fresh (dom (heap w))) params I
                   (fun _ _ => I) (seq 0 (k + 1)) None)) as [[Hp1 Hp2] _].
  pose proof (spec_run _ _ _ _ _ w0
                (pre_loop_cost (same registry) 0 0 0
                   (fun _ => True) k E (fresh (dom (heap w))) params I
                   (fun _ _ => I) (seq 0 (k + 1)) None)) as [Hr _].
  pose proof (spec_run _ _ _ _ _ w0
                (pre_loop_cost (same logs) 0 0 0
                   (fun _ => True) k E (fresh (dom (heap w))) params I
                   (fun _ _ => I) (seq 0 (k + 1)) None)) as [Hl _].
  fold pre in Hp1, Hp2, Hr, Hl. unfold same in Hr, Hl.
  simpl fst. simpl snd.
  split; [exact Hres|].
  split; [exact Htr|].
  split; [unfold repairs; simpl; rewrite Htr, count_snoc; simpl; lia|].
  split.
  { unfold repairs_in in *. simpl. rewrite Htr, count_snoc. simpl.
    change (trace w0) with (trace w) in Hp1, Hp2.
    simpl in Hp2. lia. }
  split; [simpl; rewrite Hreg; exact Hr|].
  exists (exec_log (frame (snd after))).
  split; [simpl; now rewrite Hlogs, Hl|].
  split; [exact Hcode | exact Hat].
Qed.

Lemma nonzero_exit_never_repaired_witness :
  let E := Scenarios.broken_tool_env in
  let w := Scenarios.one_tool_world Scenarios.sample_bop "pre" "post" in
  let res := execute_tool 3 E "tool" 0 None w in
  fst res = Ok (exit_failure "partial" "Traceback" 1)
  /\ repairs (snd res) = 0
  /\ map (fun x => auto_repair_attempts (snd x)) (logs (snd res)) = [0].
Proof.
  intros E w res.
  destruct (get_tool w "tool") as [entry|] eqn:Htool;
    [|vm_compute in Htool; discriminate].
  destruct (get_script_path w "tool" (file_name (metadata entry)))
    as [sp|] eqn:Hsp;
    [|vm_compute in Htool; injection Htool as <-;
      vm_compute in Hsp; discriminate].
  destruct (nonzero_exit_never_repaired 3 E "tool" 0 None w entry sp "{}" None
              "partial" "Traceback" 1 (Some (Content "{}")) Htool Hsp eq_refl)
    as (Hres & _ & Hrep & _ & _ & l & Hlogs & _ & Hatt).
  - vm_compute in Htool. injection Htool as <-. vm_compute. reflexivity.
  - reflexivity.
  - discriminate.
  - fold res in Hres, Hrep, Hlogs. split; [exact Hres|].
    vm_compute in Htool. injection Htool as <-.
    split; [rewrite Hrep; vm_compute; reflexivity|].
    rewrite Hlogs. simpl. rewrite Hatt. vm_compute. reflexivity.
Defined.

(** *** Writing the adapter back *)

(** What of the world the registry question is about: the registry, the
    uploaded scripts, and the writes recorded so far. *)
Definition registry_view (w : world)
  : gmap string ToolDir * gmap (string * string) string * list event :=
  (registry w, uploads w, List.filter is_written (trace w)).

Lemma filter_written_snoc (tr : list event) (e : event) :
  List.filter is_written (tr ++ [e])
  = List.filter is_written tr ++ (if is_written e then [e] else []).
Proof. rewrite List.filter_app. simpl. now destruct (is_written e). Qed.

#[export] Instance registry_view_engine :
  Engine (same registry_view) 0 0 0 (fun _ => True).
Proof.
  split; [exact _ | unfold same, registry_view; simpl; intros; try reflexivity ..].
  - rewrite filter_written_snoc. destruct e; try discriminate; simpl;
      now rewrite app_nil_r.
  - rewrite filter_written_snoc. simpl. now rewrite app_nil_r.
  - rewrite filter_written_snoc. simpl. now rewrite app_nil_r.
Qed.

(** A run of the pipeline either fails (or raises) with the registry as it
    found it, or is a run of [finish] from a world with the registry as the
    pipeline found it. *)
Definition fails_or_finishes (E : Env) (tid : string) (original : AdapterCode)
    (m : M ExecuteResult) : Prop :=
  forall w,
    (registry_view (snd (m w)) = registry_view w
     /\ match fst (m w) with
        | Ok r => success r = false
        | Raise _ => True
        end)
    \/ (exists w1 before updated tool_in tool_out out err,
          registry_view w1 = registry_view w
          /\ m w = finish E tid original before updated tool_in tool_out out err w1).

Section FailsOrFinishes.
Variable k : nat.
Variable E : Env.
Variable tid : string.
Variable original : AdapterCode.

Lemma fof_bind {A} (m : M A) (kont : A -> M ExecuteResult) :
  spec (same registry_view) 0 any_value any_exn m ->
  (forall a, fails_or_finishes E tid original (kont a)) ->
  fails_or_finishes E tid original (bind m kont).
Proof.
  intros Hm Hk w. unfold bind. destruct (Hm w) as [Hv _]. unfold same in Hv.
  destruct (m w) as [[a|e] w1]; simpl in *.
  - destruct (Hk a w1) as [[Hr Hf]|(w2 & b & u & ti & to & o & er & Hr & Heq)].
    + left. split; [congruence | exact Hf].
    + right. exists w2, b, u, ti, to, o, er. split; [congruence | exact Heq].
  - left. split; [exact Hv | exact I].
Qed.

Lemma fof_fail (m : M ExecuteResult) :
  spec (same registry_view) 0 failed any_exn m ->
  fails_or_finishes E tid original m.
Proof.
  intros Hm w. left. destruct (Hm w) as [Hv Hr]. split; [exact Hv|].
  destruct (fst (m w)); [exact Hr | exact I].
Qed.

Lemma fof_finish before updated tool_in tool_out out err :
  fails_or_finishes E tid original
    (finish E tid original before updated tool_in tool_out out err).
Proof.
  intros w. right. exists w, before, updated, tool_in, tool_out, out, err.
  split; reflexivity.
Qed.

Ltac view_obl :=
  first
    [ engine_obl
    | reflexivity
    | apply (execute_subprocess_free (same registry_view) 0 0 0 (fun _ => True))
    | apply (collect_tool_output_free (same registry_view) 0 0 0 (fun _ => True)) ].

Ltac fof_step :=
  lazymatch goal with
  | |- fails_or_finishes _ _ _ (finish _ _ _ _ _ _ _ _ _) => apply fof_finish
  | |- fails_or_finishes _ _ _ (bind (log_message_is _) _) =>
      apply fof_fail; unfold failed; spec_steps view_obl
  | |- fails_or_finishes _ _ _ (bind _ _) =>
      apply fof_bind; [spec_steps view_obl | intros ?]
  | |- fails_or_finishes _ _ _ (match ?x with _ => _ end) => destruct x eqn:?
  | |- fails_or_finishes _ _ _ (raise _) =>
      apply fof_fail; unfold failed; spec_steps view_obl
  end.

Lemma post_phase_fof bop_data tool_in tool_out out err :
  fails_or_finishes E tid original
    (post_phase k E tid original bop_data tool_in tool_out out err).
Proof.
  unfold post_phase.
  apply fof_bind; [spec_steps view_obl | intros before].
  apply fof_bind.
  - pose proof (post_loop_cost (same registry_view) 0 0 0 (fun _ => True) k E
                  bop_data I tool_out (seq 0 (k + 1)) None) as H.
    exact H.
  - intros post. repeat fof_step.
Qed.

Lemma pipeline_fof entry script_path work_dir bop_data params :
  adapter entry = original ->
  fails_or_finishes E tid original
    (pipeline k E tid entry script_path work_dir bop_data params).
Proof.
  intros Heq. unfold pipeline.
  apply fof_bind.
  - pose proof (pre_loop_cost (same registry_view) 0 0 0 (fun _ => True) k E
                  bop_data params I (fun _ _ => I) (seq 0 (k + 1)) None) as H.
    exact H.
  - intros pre. unfold launch_phase. rewrite Heq.
    repeat first [apply post_phase_fof | fof_step].
Qed.

End FailsOrFinishes.

Definition frame_codes_kept (w w' : world) : Prop :=
  current_pre_code (frame w') = current_pre_code (frame w)
  /\ current_post_code (frame w') = current_post_code (frame w).

(** The adapter sources in use, and whether they differ from the ones
    loaded. *)
Definition active_adapter (tid : string) (w : world) : AdapterCode :=
  {| adapter_tool_id := tid;
     pre_process_code := current_pre_code (frame w);
     post_process_code := current_post_code (frame w) |}.

Definition repaired (original : AdapterCode) (w : world) : bool :=
  negb (String.eqb (current_pre_code (frame w)) (pre_process_code original))
  || negb (String.eqb (current_post_code (frame w)) (post_process_code original)).

Definition written_back (tid : string) (dir : ToolDir) (w w' : world) : Prop :=
  registry w'
  = <[tid := {| metadata_json := metadata_json dir;
                adapter_json := Some (active_adapter tid w') |}]> (registry w)
  /\ List.filter is_written (trace w')
     = List.filter is_written (trace w) ++ [EvAdapterWritten tid (active_adapter tid w')].

Definition untouched (w w' : world) : Prop :=
  registry w' = registry w
  /\ List.filter is_written (trace w') = List.filter is_written (trace w).

Lemma finish_registry (E : Env) (tid : string) (original : AdapterCode)
    (before : nat) (updated : pyval) (tool_in tool_out out err : string)
    (w : world) (dir : ToolDir) :
  registry w !! tid = Some dir ->
  let o := finish E tid original before updated tool_in tool_out out err w in
  frame_codes_kept w (snd o)
  /\ match fst o with
     | Ok r =>
         if success r
         then if repaired original w
              then written_back tid dir w (snd o)
              else untouched w (snd o)
         else untouched w (snd o)
     | Raise _ => untouched w (snd o)
     end.
Proof.
  intros Hdir.
  unfold finish, bind, deref, lift_outcome, get_pre_code, get_post_code,
    get_log, log_message_is, update_log, bind, modify, ret, raise.
  simpl.
  destruct (_ensure_process_completeness E _ updated) as [u|e]; simpl;
    [|repeat split].
  destruct (snd (_sanitize_json_floats u)); simpl;
    (destruct (json_dumps E None _) as [text|e]; simpl;
     [| destruct (is_value_or_type_error e); simpl; repeat split]);
    fold (repaired original w);
    (destruct (repaired original w) eqn:Hrep; simpl;
     [ unfold update_tool_adapter, bind, get_world, modify, emit, modify, ret;
       simpl; rewrite Hdir; simpl; unfold written_back, active_adapter; simpl;
       rewrite filter_written_snoc; simpl; repeat split
     | repeat split ]).
Qed.

Lemma get_tool_dir (w : world) (tid : string) (entry : ToolRegistryEntry) :
  get_tool w tid = Some entry ->
  exists dir,
    registry w !! tid = Some dir
    /\ metadata_json dir = Some (metadata entry)
    /\ adapter_json dir = Some (adapter entry).
Proof.
  unfold get_tool. destruct (registry w !! tid) as [[[m|] [a|]]|]; try discriminate.
  intros [= <-]. eexists. repeat split.
Qed.

Lemma except_handler_run (e : exn) (w : world) :
  exists msg,
    except_handler e w = (Ok (failure msg), change_log (with_message msg) w).
Proof. eexists. reflexivity. Qed.

(** C9.  A call that ends in success has written the adapter back exactly
    when the sources in use at the end differ from the ones loaded at the
    start: then [adapter.json] of the tool holds the sources in use and one
    write is recorded; otherwise, and on every failure, the registry is as
    it was and no write is recorded. *)
Theorem adapter_written_back_iff_repaired
    (k : nat) (E : Env) (tid : string) (bop_data : nat) (params : option nat)
    (w : world) (r : ExecuteResult) :
  fst (execute_tool k E tid bop_data params w) = Ok r ->
  let w' := snd (execute_tool k E tid bop_data params w) in
  (success r = false -> untouched w w')
  /\ (success r = true ->
      exists entry dir,
        get_tool w tid = Some entry
        /\ registry w !! tid = Some dir
        /\ (repaired (adapter entry) w' = true -> written_back tid dir w w')
        /\ (repaired (adapter entry) w' = false -> untouched w w')).
Proof.
  rewrite execute_tool_anatomy.
  destruct (get_tool w tid) as [entry|] eqn:Htool.
  2:{ simpl. intros [= <-]. split; [intros _; split; reflexivity | discriminate]. }
  destruct (get_script_path w tid _) as [sp|].
  2:{ simpl. intros [= <-]. split; [intros _; split; reflexivity | discriminate]. }
  destruct (params_fault params _) as [e|]; [simpl; discriminate|].
  destruct (get_tool_dir _ _ _ Htool) as (dir & Hdir & _ & _).
  cbv zeta. simpl fst. simpl snd.
  set (w0 := started E tid entry (copied bop_data w)).
  assert (registry_view w0 = registry_view w) as Hw0 by reflexivity.
  unfold try_except.
  destruct (pipeline_fof k E tid (adapter entry) entry sp (work_dir_of E tid)
              (fresh (dom (heap w))) params eq_refl w0)
    as [[Hview Hres]|(w1 & before & updated & ti & to & o & er & Hview & Heq)].
  - (* the pipeline failed or raised *)
    destruct (pipeline k E tid entry sp (work_dir_of E tid)
                       (fresh (dom (heap w))) params w0) as [[r1|e] w1];
      simpl in *.
    + intros [= <-]. split; [|congruence]. intros _.
      unfold untouched. simpl. unfold registry_view in *. split; congruence.
    + destruct (is_exception e); simpl; [|discriminate].
      intros [= <-]. split; [|discriminate]. intros _.
      unfold untouched. simpl. unfold registry_view in *. split; congruence.
  - (* the pipeline reached its last stage *)
    rewrite Heq.
    assert (registry w1 !! tid = Some dir) as Hdir1.
    { unfold registry_view in *. replace (registry w1) with (registry w) by congruence.
      exact Hdir. }
    pose proof (finish_registry E tid (adapter entry) before updated ti to o er
                  w1 dir Hdir1) as [[Hpre Hpost] Hfin].
    cbv zeta in Hpre, Hpost, Hfin.
    destruct (finish E tid (adapter entry) before updated ti to o er w1)
      as [[r1|e] w2]; simpl in *.
    + intros [= <-].
      assert (registry_view w1 = registry_view w) as Hv by congruence.
      unfold registry_view in Hv.
      assert (repaired (adapter entry) (tidied E tid w2)
              = repaired (adapter entry) w1) as Hrep.
      { unfold repaired. simpl. now rewrite Hpre, Hpost. }
      destruct (success r1).
      * split; [discriminate|]. intros _. exists entry, dir.
        split; [reflexivity|]. split; [exact Hdir|]. rewrite Hrep.
        destruct (repaired (adapter entry) w1).
        -- split; [|discriminate]. intros _.
           destruct Hfin as [Hreg Htr]. unfold written_back.
           change (active_adapter tid (tidied E tid w2)) with (active_adapter tid w2).
           simpl. split; [rewrite Hreg | rewrite Htr]; congruence.
        -- split; [discriminate|]. intros _.
           destruct Hfin as [Hreg Htr]. unfold untouched. simpl.
           split; congruence.
      * split; [|discriminate]. intros _.
        destruct Hfin as [Hreg Htr]. unfold untouched. simpl. split; congruence.
    + destruct (is_exception e); simpl; [|discriminate].
      intros [= <-]. split; [|discriminate]. intros _.
      assert (registry_view w1 = registry_view w) as Hv by congruence.
      unfold registry_view in Hv.
      destruct Hfin as [Hreg Htr]. unfold untouched. simpl. split; congruence.
Qed.

Lemma adapter_written_back_iff_repaired_witness :
  let w := Scenarios.one_tool_world (PDict []) "pre" "post" in
  let out := execute_tool 1 Scenarios.scenario_a_env "tool" 0 None w in
  exists r,
    fst out = Ok r /\ success r = true
    /\ option_map adapter_json (registry (snd out) !! "tool")
       = Some (Some {| adapter_tool_id := "tool";
                       pre_process_code := "pre fixed";
                       post_process_code := "post" |})
    /\ List.filter is_written (trace (snd out))
       = [EvAdapterWritten "tool"
            {| adapter_tool_id := "tool"; pre_process_code := "pre fixed";
               post_process_code := "post" |}].
Proof.
  intros w out.
  assert (exists r, fst out = Ok r /\ success r = true) as (r & Hr & Hs)
    by (vm_compute; eexists; split; reflexivity).
  destruct (adapter_written_back_iff_repaired 1 Scenarios.scenario_a_env "tool"
              0 None w r Hr) as [_ H].
  destruct (H Hs) as (entry & dir & Hentry & Hdir & Hwritten & _).
  vm_compute in Hentry. injection Hentry as <-.
  vm_compute in Hdir. injection Hdir as <-.
  exists r. split; [exact Hr|]. split; [exact Hs|].
  destruct (Hwritten ltac:(vm_compute; reflexivity)) as [Hreg Htr].
  fold out in Hreg, Htr. split.
  - rewrite Hreg, lookup_insert_eq. vm_compute. reflexivity.
  - rewrite Htr. vm_compute. reflexivity.
Defined.

(** *** Collecting the tool output *)

(** What the step does: after the tool has exited with status zero, the
    content of the output file is the tool output when the file is there,
    can be read and is not empty; in every other case (missing, unreadable,
    empty) the captured standard output is, and the substitution leaves a
    logged warning.  The step never fails. *)
Lemma output_file_then_stdout
    (output_file out : string) (w : world) :
  collect_tool_output output_file out w
  = match files w !! output_file with
    | Some (Content t) =>
        if str_truthy t then (Ok t, w)
        else (Ok out, set_trace (trace w ++ [EvStdoutFallback]) w)
    | Some Unreadable => (Ok out, set_trace (trace w ++ [EvStdoutFallback]) w)
    | None => (Ok out, set_trace (trace w ++ [EvStdoutFallback]) w)
    end.
Proof.
  unfold collect_tool_output, bind, get_world. simpl.
  destruct (files w !! output_file) as [[|t]|]; try reflexivity.
  destruct (str_truthy t); reflexivity.
Qed.

(** C5.  The claim does not hold of the code.  With neither an output file
    nor standard output - the tool exits with status zero, writes nothing
    and prints nothing - the call does not fail: it goes on to the
    post-processor, which receives the empty text wrapped as
    [{"raw_output": ""}], and it returns [success = true] with no
    [tool_output].  And a run that fell back to standard output returns the
    very result of a run that read the same text from the output file: the
    fallback leaves a logged warning and no mark on the result. *)
Theorem no_output_still_succeeds_and_fallback_unrecorded :
  let w := Scenarios.one_tool_world (PDict []) "pre" "post" in
  let silent := execute_tool 0 (Scenarios.quiet_tool_env Scenarios.prints_nothing)
                             "tool" 0 None w in
  let from_file := execute_tool 0 (Scenarios.quiet_tool_env
                                     Scenarios.writes_file_and_prints)
                                "tool" 0 None w in
  let from_stdout := execute_tool 0 (Scenarios.quiet_tool_env Scenarios.only_prints)
                                  "tool" 0 None w in
  (exists r, fst silent = Ok r /\ success r = true /\ tool_output r = None)
  /\ In (EvInvoked "apply_result_to_bop" (PDict [])
                   (PDict [(KStr "raw_output", PStr "")]))
        (trace (snd silent))
  /\ fst from_stdout = fst from_file
  /\ In EvStdoutFallback (trace (snd from_stdout))
  /\ ~ In EvStdoutFallback (trace (snd from_file)).
Proof.
  vm_compute.
  split; [eexists; repeat split|].
  split; [tauto|]. split; [reflexivity|]. split; [tauto|].
  intros H. repeat (destruct H as [H|H]; [discriminate H|]). exact H.
Qed.

(** *** The payload of a success *)

(** At the failing input of C2 the call succeeds and hands back a tree that
    holds a NaN, which the strict encoder refuses: the sanitizer does not
    look into the tuple, and [json.dumps] with its default [allow_nan] lets
    the value through. *)
Lemma nan_in_tuple_reaches_caller :
  let out := execute_tool 0 Scenarios.nan_tuple_env "tool" 0 None
               (Scenarios.one_tool_world (PDict []) "pre" "post") in
  (exists r,
     fst out = Ok r /\ success r = true
     /\ updated_bop r = Some Scenarios.nan_in_tuple)
  /\ has_nonfinite Scenarios.nan_in_tuple = true
  /\ json_check false Scenarios.nan_in_tuple
     = Some (ValueError "Out of range float values are not JSON compliant")
  /\ _sanitize_json_floats Scenarios.nan_in_tuple = (Scenarios.nan_in_tuple, false)
  /\ json_check true Scenarios.nan_in_tuple = None.
Proof.
  vm_compute. split; [eexists; repeat split|]. repeat split.
Qed.

End ExecutorFacts.

Module SanitizerMore.
Import Py Sanitizer SanitizerFacts.

Lemma map_fixed {A} (f : A -> A) (l : list A) :
  map f l = l -> Forall (fun x => f x = x) l.
Proof.
  induction l as [|x l IH]; simpl; intros H; constructor.
  - now injection H.
  - apply IH. now injection H.
Qed.

Lemma same_was_unmodified x : sanitize x = x -> was_modified x = false.
Proof.
  induction x as [| | |f| |items IH|items IH|entries IH|] using pyval_tree_ind;
    unfold was_modified, sanitize; try reflexivity.
  - rewrite sanitize_float. now destruct (is_nonfinite f).
  - rewrite sanitize_list; simpl. intros [= H].
    apply map_fixed in H.
    induction IH as [|x items Hx _ IHitems]; simpl; [reflexivity|].
    inversion H; subst. rewrite Hx by assumption. now apply IHitems.
  - rewrite sanitize_dict; simpl. intros [= H].
    apply map_fixed in H.
    induction IH as [|[k v] entries Hv _ IHentries]; simpl in *; [reflexivity|].
    inversion H as [|? ? Hkv Hrest]; subst. simpl in Hkv.
    rewrite Hv by congruence. now apply IHentries.
Qed.

Theorem flag_tells_whether_tree_changed (x : pyval) :
  snd (_sanitize_json_floats x) = false <-> fst (_sanitize_json_floats x) = x.
Proof.
  split; [apply was_modified_false_same | apply same_was_unmodified].
Qed.

Lemma first_error_none {A} (chk : A -> option exn) (l : list A) :
  Forall (fun x => chk x = None) l -> first_error chk l = None.
Proof.
  induction 1 as [|x l Hx _ IH]; simpl; [reflexivity|]. now rewrite Hx.
Qed.

Lemma sanitize_json_shaped x :
  json_shaped x = true -> json_shaped (sanitize x) = true.
Proof.
  induction x as [| | |f| |items IH|items IH|entries IH|] using pyval_tree_ind;
    unfold sanitize in *; try reflexivity; try discriminate.
  - intros _. rewrite sanitize_float. now destruct (is_nonfinite f).
  - rewrite sanitize_list; simpl. intros H.
    induction IH as [|x items Hx _ IHitems]; simpl in *; [reflexivity|].
    apply andb_true_iff in H as [H1 H2].
    unfold sanitize at 1. now rewrite Hx, IHitems.
  - rewrite sanitize_dict; simpl. intros H.
    induction IH as [|[k v] entries Hv _ IHentries]; simpl in *; [reflexivity|].
    apply andb_true_iff in H as [H1 H2].
    apply andb_true_iff in H1 as [Hk H1].
    unfold sanitize at 1. now rewrite Hk, Hv, IHentries.
Qed.

Lemma strict_when_shaped_and_finite x :
  json_shaped x = true -> has_nonfinite x = false -> json_check false x = None.
Proof.
  induction x as [| | |f| |items IH|items IH|entries IH|] using pyval_tree_ind;
    try reflexivity; try discriminate.
  - simpl. intros _ H. unfold json_float_check. now rewrite H.
  - simpl. intros Hs Hf. apply first_error_none.
    induction IH as [|x items Hx _ IHitems]; simpl in *; constructor.
    + apply andb_true_iff in Hs as [H1 H2].
      apply orb_false_iff in Hf as [F1 F2]. now apply Hx.
    + apply andb_true_iff in Hs as [H1 H2].
      apply orb_false_iff in Hf as [F1 F2]. now apply IHitems.
  - simpl. intros Hs Hf. apply first_error_none.
    induction IH as [|[k v] entries Hv _ IHentries]; simpl in *; constructor.
    + apply andb_true_iff in Hs as [H1 H2].
      apply andb_true_iff in H1 as [Hk H1].
      apply orb_false_iff in Hf as [F1 F2].
      apply orb_false_iff in F1 as [Fk F1].
      simpl. destruct k; try discriminate. simpl. now apply Hv.
    + apply andb_true_iff in Hs as [H1 H2].
      apply orb_false_iff in Hf as [F1 F2]. now apply IHentries.
Qed.

(** On a tree of dicts with text keys, lists and scalars, the cleaned tree
    is one the strict encoder takes, and it still has that shape. *)
Theorem sanitized_json_tree_is_strictly_serializable (x : pyval) :
  json_shaped x = true ->
  strict_serializable (fst (_sanitize_json_floats x))
  /\ json_shaped (fst (_sanitize_json_floats x)) = true.
Proof.
  intros H. split; [|now apply sanitize_json_shaped].
  apply strict_when_shaped_and_finite.
  - now apply sanitize_json_shaped.
  - now apply sanitize_clears.
Qed.

Lemma sanitized_json_tree_is_strictly_serializable_witness :
  let x := PDict [(KStr "cycle_time_sec", PFloat nan);
                  (KStr "xs", PList [PFloat inf; PInt 3])] in
  json_check false x
    = Some (ValueError "Out of range float values are not JSON compliant")
  /\ strict_serializable (fst (_sanitize_json_floats x)).
Proof.
  intros x. split; [reflexivity|].
  apply (sanitized_json_tree_is_strictly_serializable x). reflexivity.
Defined.

End SanitizerMore.

Module ResultFacts.
Import Py World Sandbox Registry Sanitizer Executor Logic SanitizerFacts ExecutorFacts.
Local Open Scope py_scope.

(** *** What a result holds *)

Lemma json_dumps_ok E indent v text :
  json_dumps E indent v = Ok text -> json_check true v = None.
Proof. unfold json_dumps. destruct (json_check true v); [discriminate | reflexivity]. Qed.

(** A success carries the cleaned tree, which [json.dumps] has taken; a
    failure carries no tree. *)
Definition sound_payload (r : ExecuteResult) : Prop :=
  if success r
  then exists v, updated_bop r = Some v
                 /\ _sanitize_json_floats v = (v, false)
                 /\ json_check true v = None
  else updated_bop r = None.

Ltac payload_obl :=
  first [ exact I
        | apply spec_trivial
        | unfold sound_payload; simpl;
          first [ reflexivity
                | eexists; split; [reflexivity|]; split;
                  [ apply sanitize_twice | eapply json_dumps_ok; eassumption ] ] ].

Section Payload.
Variable k : nat.
Variable E : Env.

Lemma finish_payload tid original before updated tool_in tool_out out err :
  spec anything 0 sound_payload any_exn
       (finish E tid original before updated tool_in tool_out out err).
Proof.
  unfold finish. spec_steps payload_obl.
Qed.

Lemma pipeline_payload tid entry script_path work_dir bop_data params :
  spec anything 0 sound_payload any_exn
       (pipeline k E tid entry script_path work_dir bop_data params).
Proof.
  unfold pipeline.
  rule spec_seq; [apply spec_trivial | intros pre].
  unfold launch_phase, post_phase. spec_steps payload_obl.
  rule spec_seq; [apply spec_trivial | intros post].
  spec_steps payload_obl. apply finish_payload.
Qed.

Lemma guarded_payload tid entry script_path work_dir bop_data params :
  spec anything 0 sound_payload any_exn
       (try_except (pipeline k E tid entry script_path work_dir bop_data params)
                   except_handler).
Proof.
  rule (spec_try_except _ 0 0 0 _ any_exn);
    [lia | apply pipeline_payload | | intros; exact I].
  intros e _ _. unfold except_handler. spec_steps payload_obl.
Qed.

Lemma execute_tool_payload tid bop_data params w r :
  fst (execute_tool k E tid bop_data params w) = Ok r -> sound_payload r.
Proof.
  rewrite execute_tool_anatomy.
  destruct (get_tool w tid) as [entry|]; [|intros [= <-]; reflexivity].
  destruct (get_script_path w tid _) as [sp|]; [|intros [= <-]; reflexivity].
  destruct (params_fault params _) as [e|]; [discriminate|].
  cbv zeta. simpl fst.
  destruct (spec_run _ _ _ _ _ (started E tid entry (copied bop_data w))
              (guarded_payload tid entry sp (work_dir_of E tid)
                               (fresh (dom (heap w))) params)) as [_ H].
  intros Hr. rewrite Hr in H. exact H.
Qed.

End Payload.

(** *** The fields of a result *)

Lemma length_append (a b : string) :
  String.length (a +:+ b) = String.length a + String.length b.
Proof. induction a as [|c a IH]; simpl; [reflexivity | now rewrite IH]. Qed.

Lemma length_str_prefix (n : nat) (s : string) :
  String.length (str_prefix n s) <= n.
Proof.
  unfold str_prefix. revert s.
  induction n as [|n IH]; intros [|c s]; simpl; try lia.
  specialize (IH s). lia.
Qed.

Lemma str_prefix_nonempty (n : nat) (s : string) :
  s <> "" -> str_prefix (S n) s <> "".
Proof. unfold str_prefix. destruct s; [congruence | discriminate]. Qed.

Lemma str_truthy_nonempty (s : string) : str_truthy s = true -> s <> "".
Proof. unfold str_truthy. intros H ->. discriminate. Qed.

(** A text field that is there is not empty, and no longer than [n]. *)
Definition at_most (n : nat) (o : option string) : Prop :=
  forall s, o = Some s -> s <> "" /\ String.length s <= n.

Definition present (o : option string) : Prop :=
  forall s, o = Some s -> s <> "".

Lemma at_most_none n : at_most n None.
Proof. intros s. discriminate. Qed.

Lemma present_none : present None.
Proof. intros s. discriminate. Qed.

Lemma at_most_clip (n m : nat) (s : string) :
  S n <= m -> at_most m (clip (S n) s).
Proof.
  intros Hn t. unfold clip. destruct (str_truthy s) eqn:Hs; [|discriminate].
  intros [= <-]. split.
  - apply str_prefix_nonempty. now apply str_truthy_nonempty.
  - pose proof (length_str_prefix (S n) s). lia.
Qed.

Lemma present_when_truthy (s : string) :
  present (if str_truthy s then Some s else None).
Proof.
  intros t. destruct (str_truthy s) eqn:Hs; [|discriminate].
  intros [= <-]. now apply str_truthy_nonempty.
Qed.

(** The keys a result dict has, by outcome. *)
Definition well_formed (r : ExecuteResult) : Prop :=
  at_most 2000 (stdout r)
  /\ if success r
     then at_most 500 (stderr r)
          /\ present (tool_input r) /\ present (tool_output r)
          /\ auto_repair_attempted r = None
          /\ auto_repaired r <> None
     else at_most 3025 (stderr r)
          /\ tool_input r = None
          /\ at_most 2000 (tool_output r)
          /\ auto_repaired r = None.

Lemma post_error_text_short (err details : string) :
  at_most 3025
    (Some ((if str_truthy err then str_prefix 2000 err else "")
           +:+ nl +:+ nl +:+ "[Post-processor Error]" +:+ nl
           +:+ str_prefix 1000 details)).
Proof.
  intros t [= <-]. split.
  - destruct (if str_truthy err then str_prefix 2000 err else "");
      discriminate.
  - rewrite !length_append.
    pose proof (length_str_prefix 1000 details).
    assert (String.length (if str_truthy err then str_prefix 2000 err else "")
            <= 2000).
    { destruct (str_truthy err); [apply length_str_prefix | simpl; lia]. }
    simpl. lia.
Qed.

Ltac fields_obl :=
  first [ exact I
        | apply spec_trivial
        | unfold well_formed; simpl;
          repeat first [ apply at_most_none
                       | apply present_none
                       | apply at_most_clip; lia
                       | apply present_when_truthy
                       | apply post_error_text_short
                       | reflexivity
                       | discriminate
                       | apply conj ] ].

Section Fields.
Variable k : nat.
Variable E : Env.

Lemma finish_fields tid original before updated tool_in tool_out out err :
  spec anything 0 well_formed any_exn
       (finish E tid original before updated tool_in tool_out out err).
Proof.
  unfold finish. spec_steps fields_obl.
Qed.

Lemma pipeline_fields tid entry script_path work_dir bop_data params :
  spec anything 0 well_formed any_exn
       (pipeline k E tid entry script_path work_dir bop_data params).
Proof.
  unfold pipeline.
  rule spec_seq; [apply spec_trivial | intros pre].
  unfold launch_phase, post_phase. spec_steps fields_obl.
  rule spec_seq; [apply spec_trivial | intros post].
  spec_steps fields_obl. apply finish_fields.
Qed.

Lemma guarded_fields tid entry script_path work_dir bop_data params :
  spec anything 0 well_formed any_exn
       (try_except (pipeline k E tid entry script_path work_dir bop_data params)
                   except_handler).
Proof.
  rule (spec_try_except _ 0 0 0 _ any_exn);
    [lia | apply pipeline_fields | | intros; exact I].
  intros e _ _. unfold except_handler. spec_steps fields_obl.
Qed.

Lemma execute_tool_fields tid bop_data params w r :
  fst (execute_tool k E tid bop_data params w) = Ok r -> well_formed r.
Proof.
  rewrite execute_tool_anatomy.
  destruct (get_tool w tid) as [entry|];
    [|intros [= <-]; unfold well_formed; simpl; fields_obl].
  destruct (get_script_path w tid _) as [sp|];
    [|intros [= <-]; unfold well_formed; simpl; fields_obl].
  destruct (params_fault params _) as [e|]; [discriminate|].
  cbv zeta. simpl fst.
  destruct (spec_run _ _ _ _ _ (started E tid entry (copied bop_data w))
              (guarded_fields tid entry sp (work_dir_of E tid)
                              (fresh (dom (heap w))) params)) as [_ H].
  intros Hr. rewrite Hr in H. exact H.
Qed.

End Fields.

(** *** The claims about results *)

(** The tree of a success is one the sanitizer leaves alone and
    [json.dumps] takes; when it is a tree of dicts with text keys, lists
    and scalars it holds no non-finite number and the strict encoder takes
    it too.  A failure carries no tree. *)
Theorem success_carries_a_clean_tree
    (k : nat) (E : Env) (tid : string) (bop_data : nat) (params : option nat)
    (w : world) (r : ExecuteResult) :
  fst (execute_tool k E tid bop_data params w) = Ok r ->
  (success r = true ->
     exists v, updated_bop r = Some v
               /\ _sanitize_json_floats v = (v, false)
               /\ json_check true v = None
               /\ (json_shaped v = true ->
                   has_nonfinite v = false /\ strict_serializable v))
  /\ (success r = false -> updated_bop r = None).
Proof.
  intros Hr. pose proof (execute_tool_payload k E _ _ _ _ _ Hr) as H.
  unfold sound_payload in H. destruct (success r).
  - split; [intros _ | discriminate].
    destruct H as (v & Hv & Hclean & Hdumps). exists v.
    split; [exact Hv|]. split; [exact Hclean|]. split; [exact Hdumps|].
    intros Hshape.
    pose proof (sanitize_clears v Hshape) as Hfinite.
    unfold sanitize in Hfinite. rewrite Hclean in Hfinite. simpl in Hfinite.
    split; [exact Hfinite|].
    pose proof (SanitizerMore.strict_when_shaped_and_finite v Hshape Hfinite) as Hs.
    exact Hs.
  - split; [discriminate | intros _; exact H].
Qed.

Lemma success_carries_a_clean_tree_witness :
  let out := execute_tool 0 (Scenarios.quiet_tool_env Scenarios.writes_file_and_prints)
               "tool" 0 None
               (Scenarios.one_tool_world Scenarios.sample_bop "pre" "post") in
  exists r v,
    fst out = Ok r /\ success r = true /\ updated_bop r = Some v
    /\ strict_serializable v.
Proof.
  intros out.
  assert (exists r, fst out = Ok r /\ success r = true) as (r & Hr & Hs)
    by (vm_compute; eexists; split; reflexivity).
  destruct (success_carries_a_clean_tree _ _ _ _ _ _ r Hr) as [H _].
  destruct (H Hs) as (v & Hv & _ & _ & Hstrict).
  exists r, v. split; [exact Hr|]. split; [exact Hs|]. split; [exact Hv|].
  apply Hstrict.
  revert Hv. vm_compute in Hr. injection Hr as <-. simpl. intros [= <-]. reflexivity.
Defined.

(** The fields of a result: captured output is cut to 2000 characters and
    error output to 500 (after a success) or to 3025 (after a failure, the
    post-processor's traceback included); a text field that is there is
    never empty; the tool input and the repair outcome come with a success
    only, the repair-attempt flag with a failure only. *)
Theorem result_fields_by_outcome
    (k : nat) (E : Env) (tid : string) (bop_data : nat) (params : option nat)
    (w : world) (r : ExecuteResult) :
  fst (execute_tool k E tid bop_data params w) = Ok r ->
  at_most 2000 (stdout r)
  /\ (success r = true ->
      at_most 500 (stderr r)
      /\ present (tool_input r) /\ present (tool_output r)
      /\ auto_repair_attempted r = None /\ auto_repaired r <> None)
  /\ (success r = false ->
      at_most 3025 (stderr r)
      /\ tool_input r = None /\ at_most 2000 (tool_output r)
      /\ auto_repaired r = None).
Proof.
  intros Hr. pose proof (execute_tool_fields k E _ _ _ _ _ Hr) as [H1 H2].
  split; [exact H1|]. destruct (success r).
  - split; [intros _; exact H2 | discriminate].
  - split; [discriminate | intros _; exact H2].
Qed.

Lemma result_fields_by_outcome_witness :
  let out := execute_tool 3 Scenarios.broken_tool_env "tool" 0 None
               (Scenarios.one_tool_world Scenarios.sample_bop "pre" "post") in
  exists r,
    fst out = Ok r /\ success r = false
    /\ stdout r = Some "partial" /\ at_most 3025 (stderr r)
    /\ tool_input r = None.
Proof.
  intros out.
  assert (exists r, fst out = Ok r /\ success r = false
                    /\ stdout r = Some "partial") as (r & Hr & Hs & Hout)
    by (vm_compute; eexists; repeat split).
  destruct (result_fields_by_outcome _ _ _ _ _ _ r Hr) as (_ & _ & H).
  destruct (H Hs) as (Herr & Hin & _).
  exists r. split; [exact Hr|]. split; [exact Hs|]. split; [exact Hout|].
  split; [exact Herr | exact Hin].
Defined.

(** *** Parameters that came from JSON *)




(** *** Tidying up *)

#[export] Instance workdirs_engine : Engine (same workdirs) 0 0 0 (fun _ => True).
Proof. split; [exact _ | intros; reflexivity ..]. Qed.
#[export] Instance workdirs_write : WriteFree (same workdirs).
Proof. split; intros; reflexivity. Qed.



End ResultFacts.

(* ===================================================================== *)
(** ** The registry *)
(* ===================================================================== *)

Module RegistryFacts.
Import Py World Registry Executor RegistryStore.
Local Open Scope py_scope.

(** Every character of [s] is in the class [p]. *)
Fixpoint every (p : ascii -> bool) (s : string) : bool :=
  match s with
  | EmptyString => true
  | String c rest => p c && every p rest
  end.

Fixpoint ends_with_underscore (s : string) : bool :=
  match s with
  | EmptyString => false
  | String c EmptyString => Ascii.eqb c underscore
  | String _ rest => ends_with_underscore rest
  end.

Fixpoint has_double_underscore (s : string) : bool :=
  match s with
  | EmptyString => false
  | String c rest =>
      Ascii.eqb c underscore && starts_with_underscore rest
      || has_double_underscore rest
  end.

Lemma every_sub_non_word s : every is_word_char (sub_non_word s) = true.
Proof.
  unfold sub_non_word.
  induction s as [|c s IH]; simpl; [reflexivity|].
  rewrite IH, andb_true_r. destruct (is_word_char c) eqn:H; [exact H | reflexivity].
Qed.

Lemma every_lstrip p s : every p s = true -> every p (lstrip_underscores s) = true.
Proof.
  induction s as [|c s IH]; simpl; [reflexivity|].
  intros H. apply andb_true_iff in H as [H1 H2].
  destruct (Ascii.eqb c underscore); [now apply IH|]. simpl. now rewrite H1, H2.
Qed.

Lemma every_rstrip p s : every p s = true -> every p (rstrip_underscores s) = true.
Proof.
  induction s as [|c s IH]; simpl; [reflexivity|].
  intros H. apply andb_true_iff in H as [H1 H2]. specialize (IH H2).
  destruct (rstrip_underscores s) as [|d r].
  - destruct (Ascii.eqb c underscore); simpl; [reflexivity | now rewrite H1].
  - simpl in *. now rewrite H1, IH.
Qed.

Lemma every_squeeze p s : every p s = true -> every p (squeeze_underscores s) = true.
Proof.
  induction s as [|c s IH]; simpl; [reflexivity|].
  intros H. apply andb_true_iff in H as [H1 H2].
  destruct (Ascii.eqb c underscore && starts_with_underscore s);
    [now apply IH|]. simpl. now rewrite H1, IH.
Qed.

Lemma lstrip_no_leading s : starts_with_underscore (lstrip_underscores s) = false.
Proof.
  induction s as [|c s IH]; simpl; [reflexivity|].
  destruct (Ascii.eqb c underscore) eqn:H; [exact IH | simpl; exact H].
Qed.

Lemma rstrip_keeps_no_leading s :
  starts_with_underscore s = false ->
  starts_with_underscore (rstrip_underscores s) = false.
Proof.
  destruct s as [|c s]; simpl; [reflexivity|]. intros H.
  destruct (rstrip_underscores s); [|exact H].
  rewrite H. simpl. exact H.
Qed.

Lemma rstrip_no_trailing s : ends_with_underscore (rstrip_underscores s) = false.
Proof.
  induction s as [|c s IH]; simpl; [reflexivity|].
  destruct (rstrip_underscores s) as [|d r] eqn:Hr.
  - destruct (Ascii.eqb c underscore) eqn:H; simpl; [reflexivity | exact H].
  - exact IH.
Qed.

Lemma squeeze_starts s :
  starts_with_underscore (squeeze_underscores s) = starts_with_underscore s.
Proof.
  induction s as [|c s IH]; simpl; [reflexivity|].
  destruct (Ascii.eqb c underscore) eqn:H; simpl.
  - destruct (starts_with_underscore s) eqn:Hs; simpl; [now rewrite IH | exact H].
  - exact H.
Qed.

Lemma squeeze_nonempty s : s <> "" -> squeeze_underscores s <> "".
Proof.
  induction s as [|c s IH]; [congruence|]. intros _. simpl.
  destruct (Ascii.eqb c underscore && starts_with_underscore s) eqn:H;
    [|discriminate].
  apply IH. apply andb_true_iff in H as [_ H]. destruct s; [discriminate | congruence].
Qed.

Lemma squeeze_ends s :
  ends_with_underscore (squeeze_underscores s) = ends_with_underscore s.
Proof.
  induction s as [|c s IH]; simpl; [reflexivity|].
  destruct s as [|d s'].
  - simpl. now rewrite andb_false_r.
  - destruct (Ascii.eqb c underscore && starts_with_underscore (String d s')) eqn:H.
    + exact IH.
    + change (ends_with_underscore (String c (squeeze_underscores (String d s')))
              = ends_with_underscore (String d s')).
      pose proof (squeeze_nonempty (String d s') ltac:(discriminate)) as Hne.
      destruct (squeeze_underscores (String d s')) eqn:Hq; [congruence|].
      exact IH.
Qed.

Lemma squeeze_no_double s : has_double_underscore (squeeze_underscores s) = false.
Proof.
  induction s as [|c s IH]; simpl; [reflexivity|].
  destruct (Ascii.eqb c underscore && starts_with_underscore s) eqn:H;
    [exact IH|].
  simpl. rewrite IH, orb_false_r, squeeze_starts. exact H.
Qed.

Lemma word_is_plain s :
  s <> "" -> every is_word_char s = true -> is_plain_name s = true.
Proof.
  intros Hne Hw. unfold is_plain_name.
  assert (str_truthy s = true) as ->.
  { unfold str_truthy. destruct s; [congruence | reflexivity]. }
  assert (has_char is_separator s = false) as ->.
  { clear Hne. induction s as [|c s IH]; simpl in *; [reflexivity|].
    apply andb_true_iff in Hw as [H1 H2]. rewrite (IH H2), orb_false_r.
    unfold is_separator. 
    destruct (Ascii.eqb_spec c "/"); [subst; discriminate|].
    destruct (Ascii.eqb_spec c "\"); [subst; discriminate|].
    destruct (Ascii.eqb_spec c zero); [subst; discriminate|]. reflexivity. }
  destruct s as [|c s]; [congruence|]. simpl in Hw.
  apply andb_true_iff in Hw as [H1 H2].
  destruct (String.eqb_spec (String c s) "."); [injection e as -> _; discriminate|].
  destruct (String.eqb_spec (String c s) ".."); [injection e as -> _; discriminate|].
  reflexivity.
Qed.

(** Whatever the tool name and whatever [str.lower] does to it, the slug is
    a non-empty word over [[a-zA-Z0-9_]] that neither starts nor ends with
    an underscore and has no two underscores in a row.  It is therefore a
    plain directory name: no separator, not [.] or [..]. *)
Theorem slug_is_a_plain_word (lower : string -> string) (tool_name : string) :
  let slug := slug_of lower tool_name in
  slug <> ""
  /\ every is_word_char slug = true
  /\ starts_with_underscore slug = false
  /\ ends_with_underscore slug = false
  /\ has_double_underscore slug = false
  /\ is_plain_name slug = true.
Proof.
  unfold slug_of. cbv zeta.
  set (s := squeeze_underscores (strip_underscores (sub_non_word (lower tool_name)))).
  assert (every is_word_char s = true) as Hw.
  { apply every_squeeze, every_rstrip, every_lstrip, every_sub_non_word. }
  assert (starts_with_underscore s = false) as Hs.
  { unfold s. rewrite squeeze_starts.
    apply rstrip_keeps_no_leading, lstrip_no_leading. }
  assert (ends_with_underscore s = false) as He.
  { unfold s. rewrite squeeze_ends. apply rstrip_no_trailing. }
  assert (has_double_underscore s = false) as Hd by apply squeeze_no_double.
  destruct (str_truthy s) eqn:Ht; simpl.
  - assert (s <> "") as Hne by (intros Hz; rewrite Hz in Ht; discriminate).
    repeat split; try assumption. now apply word_is_plain.
  - repeat split; try reflexivity. discriminate.
Qed.

(** The ids the loop tries, in order: the slug, then [slug_1], [slug_2], ... *)
Definition candidate (base_slug : string) (i : nat) : string :=
  match i with
  | O => base_slug
  | S _ => base_slug +:+ "_" +:+ str_of_nat i
  end.

Lemma to_int_proper (z : Z) :
  Z.to_int z <> Decimal.Pos Decimal.Nil /\ Z.to_int z <> Decimal.Neg Decimal.Nil.
Proof.
  destruct z as [|p|p]; simpl; split; try discriminate;
    intros [= H]; now apply Unsigned.to_uint_nonnil in H.
Qed.

Lemma str_of_Z_inj (a b : Z) : str_of_Z a = str_of_Z b -> a = b.
Proof.
  unfold str_of_Z. intros H.
  destruct (to_int_proper a) as [Ha1 Ha2], (to_int_proper b) as [Hb1 Hb2].
  pose proof (NilZero.isi _ Ha1 Ha2) as Ia.
  pose proof (NilZero.isi _ Hb1 Hb2) as Ib.
  rewrite H in Ia. rewrite Ia in Ib. injection Ib as Ib.
  now apply DecimalZ.to_int_inj.
Qed.

Lemma str_of_nat_inj (n m : nat) : str_of_nat n = str_of_nat m -> n = m.
Proof. unfold str_of_nat. intros H. apply str_of_Z_inj in H. lia. Qed.

Lemma append_inj_l (a x y : string) : a +:+ x = a +:+ y -> x = y.
Proof. induction a as [|c a IH]; simpl; [trivial|]. intros [= H]. auto. Qed.

Lemma append_length (a b : string) :
  String.length (a +:+ b) = String.length a + String.length b.
Proof. induction a as [|c a IH]; simpl; [reflexivity | now rewrite IH]. Qed.

Lemma candidate_inj (base : string) (i j : nat) :
  candidate base i = candidate base j -> i = j.
Proof.
  destruct i as [|i], j as [|j]; simpl; intros H; [reflexivity| | |].
  - apply (f_equal String.length) in H. rewrite append_length in H. simpl in H. lia.
  - apply (f_equal String.length) in H. rewrite append_length in H. simpl in H. lia.
  - apply append_inj_l in H. injection H as H. now apply str_of_nat_inj in H.
Qed.

Lemma dir_exists_dom (w : world) (tid : string) :
  dir_exists w tid = true <-> tid ∈ dom (registry w).
Proof.
  unfold dir_exists. rewrite elem_of_dom.
  destruct (registry w !! tid); split; intros H; try reflexivity;
    try discriminate; [eauto | now destruct H].
Qed.

(** Among the first [size + 1] candidates one is free. *)
Lemma some_candidate_is_free (w : world) (base : string) :
  exists j, j <= size (registry w) /\ dir_exists w (candidate base j) = false.
Proof.
  destruct (decide (Forall (fun j => dir_exists w (candidate base j) = true)
                           (seq 0 (S (size (registry w)))))) as [Hall|Hnot].
  - exfalso.
    set (n := size (registry w)) in *.
    assert (NoDup (candidate base <$> seq 0 (S n))) as Hnd.
    { apply NoDup_fmap_2; [|apply NoDup_seq].
      intros i j. apply candidate_inj. }
    assert (candidate base <$> seq 0 (S n) ⊆+ elements (dom (registry w))) as Hsub.
    { apply NoDup_submseteq; [exact Hnd|].
      intros x Hx. apply list_elem_of_fmap in Hx as (j & -> & Hj).
      apply elem_of_elements, dir_exists_dom.
      rewrite Forall_forall in Hall. apply Hall. exact Hj. }
    apply submseteq_length in Hsub.
    rewrite length_fmap, length_seq in Hsub.
    change (length (elements (dom (registry w)))) with (size (dom (registry w))) in Hsub.
    rewrite size_dom in Hsub. unfold n in Hsub. lia.
  - apply not_Forall_Exists in Hnot; [|intros j; apply _].
    apply List.Exists_exists in Hnot as (j & Hj & Hfree).
    apply in_seq in Hj. exists j. split; [lia|].
    simpl in Hfree. destruct (dir_exists w (candidate base j)); [|reflexivity].
    now contradiction Hfree.
Qed.

Lemma first_free_finds (w : world) (base : string) (fuel i : nat) :
  (exists j, i <= j < i + fuel /\ dir_exists w (candidate base j) = false) ->
  exists j,
    first_free w base (candidate base i) (S i) fuel = Some (candidate base j)
    /\ i <= j /\ dir_exists w (candidate base j) = false
    /\ forall j', i <= j' < j -> dir_exists w (candidate base j') = true.
Proof.
  revert i. induction fuel as [|fuel IH]; intros i (j & Hj & Hfree); [lia|].
  simpl. destruct (dir_exists w (candidate base i)) eqn:Hi.
  - assert (j <> i) by (intros ->; congruence).
    destruct (IH (S i)) as (j0 & Hff & Hle & Hf0 & Hbefore).
    { exists j. split; [lia | exact Hfree]. }
    exists j0. change (base +:+ "_" +:+ str_of_nat (S i)) with (candidate base (S i)).
    split; [exact Hff|]. split; [lia|]. split; [exact Hf0|].
    intros j' Hj'. destruct (decide (j' = i)) as [->|]; [exact Hi|].
    apply Hbefore. lia.
  - exists i. split; [reflexivity|]. split; [lia|]. split; [exact Hi|].
    intros j'. lia.
Qed.

(** [generate_tool_id(tool_name, allow_existing=False)] returns, and what
    it returns names no tool directory: it is the slug of the name when
    that is free, else the first free one of [slug_1], [slug_2], ...; every
    id tried before it is taken.  With [allow_existing=True] the slug comes
    back whether it is taken or not. *)
Theorem generate_tool_id_is_first_free
    (lower : string -> string) (w : world) (tool_name : string) :
  generate_tool_id lower w tool_name true = Some (slug_of lower tool_name)
  /\ exists j,
       generate_tool_id lower w tool_name false
         = Some (candidate (slug_of lower tool_name) j)
       /\ registry w !! candidate (slug_of lower tool_name) j = None
       /\ (forall j', j' < j ->
             is_Some (registry w !! candidate (slug_of lower tool_name) j'))
       /\ j <= size (registry w).
Proof.
  split; [reflexivity|]. unfold generate_tool_id.
  set (base := slug_of lower tool_name).
  destruct (some_candidate_is_free w base) as (j & Hj & Hfree).
  destruct (first_free_finds w base (S (size (registry w))) 0) as
    (j0 & Hff & _ & Hf0 & Hbefore).
  { exists j. split; [lia | exact Hfree]. }
  exists j0. split; [exact Hff|]. split.
  - unfold dir_exists in Hf0. now destruct (registry w !! candidate base j0).
  - split.
    + intros j' Hj'. specialize (Hbefore j' ltac:(lia)).
      unfold dir_exists in Hbefore. destruct (registry w !! candidate base j');
        [eauto | discriminate].
    + destruct (decide (j0 <= j)) as [Hle|Hgt]; [lia|].
      specialize (Hbefore j ltac:(lia)). congruence.
Qed.

(** [find_existing_tool_id] and [generate_tool_id] agree: the one finds an
    id exactly when the slug of the name is taken, and then it is the id
    the other returns for an update; when it finds none, the other returns
    the slug itself for a new tool as well. *)
Theorem find_existing_agrees_with_generate
    (lower : string -> string) (w : world) (tool_name : string) :
  match find_existing_tool_id lower w tool_name with
  | Some tid =>
      generate_tool_id lower w tool_name true = Some tid
      /\ is_Some (registry w !! tid)
      /\ generate_tool_id lower w tool_name false <> Some tid
  | None =>
      registry w !! slug_of lower tool_name = None
      /\ generate_tool_id lower w tool_name false
         = generate_tool_id lower w tool_name true
  end.
Proof.
  unfold find_existing_tool_id.
  destruct (dir_exists w (slug_of lower tool_name)) eqn:Hdir.
  - split; [reflexivity|]. split.
    + unfold dir_exists in Hdir.
      destruct (registry w !! slug_of lower tool_name); [eauto | discriminate].
    + unfold generate_tool_id.
      destruct (some_candidate_is_free w (slug_of lower tool_name))
        as (j & Hj & Hfree).
      destruct (first_free_finds w (slug_of lower tool_name)
                  (S (size (registry w))) 0) as (j0 & Hff & _ & Hf0 & _).
      { exists j. split; [lia | exact Hfree]. }
      simpl candidate in Hff at 1. rewrite Hff. intros [= H].
      rewrite H in Hf0. congruence.
  - split.
    + unfold dir_exists in Hdir.
      now destruct (registry w !! slug_of lower tool_name).
    + unfold generate_tool_id. simpl. now rewrite Hdir.
Qed.

Definition is_cr (c : ascii) : bool := Ascii.eqb c cr.

Lemma has_char_append p a b :
  has_char p (a +:+ b) = has_char p a || has_char p b.
Proof.
  induction a as [|c a IH]; simpl; [reflexivity|]. now rewrite IH, orb_assoc.
Qed.

Lemma prefix_cons_false (c d : ascii) (old s : string) :
  Ascii.eqb d c = false -> String.prefix (String c old) (String d s) = false.
Proof.
  intros H. cbn [String.prefix]. destruct (ascii_dec c d) as [->|]; [|reflexivity].
  now rewrite Ascii.eqb_refl in H.
Qed.

(** A text without the first character of [old] has no occurrence of it. *)
Lemma replace_scan_absent (c : ascii) (old new s : string) :
  has_char (fun d => Ascii.eqb d c) s = false ->
  replace_scan (String c old) new 0 s = s.
Proof.
  induction s as [|d s IH]; [reflexivity|].
  intros H. simpl in H. apply orb_false_iff in H as [H1 H2].
  cbn [replace_scan]. rewrite (prefix_cons_false _ _ _ _ H1).
  now rewrite IH.
Qed.

Lemma prefix_one_char (c d : ascii) (s : string) :
  String.prefix (String c "") (String d s) = Ascii.eqb d c.
Proof.
  cbn [String.prefix]. destruct (ascii_dec c d) as [->|Hne].
  - rewrite Ascii.eqb_refl. now destruct s.
  - destruct (Ascii.eqb_spec d c); [congruence | reflexivity].
Qed.

Lemma replace_one_char_clears (c : ascii) (new s : string) :
  has_char (fun d => Ascii.eqb d c) new = false ->
  has_char (fun d => Ascii.eqb d c) (replace_scan (String c "") new 0 s) = false.
Proof.
  intros Hnew. induction s as [|d s IH]; [reflexivity|].
  cbn [replace_scan]. rewrite prefix_one_char.
  destruct (Ascii.eqb d c) eqn:Hd.
  - cbn [String.length Nat.sub]. rewrite has_char_append, Hnew, IH. reflexivity.
  - cbn [has_char]. now rewrite Hd, IH.
Qed.

Lemma cr_not_in_lf : has_char (fun d => Ascii.eqb d cr) (String lf "") = false.
Proof. reflexivity. Qed.

(** Newline normalisation leaves no carriage return, and a text that has
    none is left as it is; so a second pass changes nothing. *)
Theorem normalized_text_has_no_carriage_return (source_code : string) :
  has_char is_cr (normalize_newlines source_code) = false
  /\ (has_char is_cr source_code = false ->
      normalize_newlines source_code = source_code)
  /\ normalize_newlines (normalize_newlines source_code)
     = normalize_newlines source_code.
Proof.
  assert (forall s, has_char is_cr (normalize_newlines s) = false) as Hclear.
  { intros s. unfold normalize_newlines, str_replace.
    apply replace_one_char_clears, cr_not_in_lf. }
  assert (forall s, has_char is_cr s = false -> normalize_newlines s = s) as Hfix.
  { intros s H. unfold normalize_newlines, str_replace.
    rewrite (replace_scan_absent cr (String lf "") (String lf "") s H).
    now apply replace_scan_absent. }
  split; [apply Hclear|]. split; [apply Hfix|]. apply Hfix, Hclear.
Qed.

(** *** Stores with plain names

    The registry is keyed by tool ids and the scripts by tool id and file
    name, as texts.  On disk two texts can name one directory or file
    ([x] and [./x], say), so the statements below are about stores in which
    every id and file name is a single path component, and they speak of
    such ids and names only.  The file system is taken to tell names apart
    by case, to hold no links, and to take every write. *)

Definition plain_dir (tid : string) (dir : ToolDir) : bool :=
  is_plain_name tid
  && match metadata_json dir with
     | Some m => is_plain_name (file_name m)
     | None => true
     end.

Definition plain_script (key : string * string) : bool :=
  is_plain_name (fst key) && is_plain_name (snd key).

Definition plain_store (w : world) : Prop :=
  map_Forall (fun tid dir => plain_dir tid dir = true) (registry w)
  /\ map_Forall (fun key (_ : string) => plain_script key = true) (uploads w).

Lemma plain_store_sample :
  plain_store (Scenarios.one_tool_world (PDict []) "pre" "post").
Proof. split; apply map_Forall_singleton; reflexivity. Qed.

(** *** [save_tool], then [get_tool] *)

(** A tool saved under plain names is found again: [get_tool] returns the
    metadata and the adapter that were saved and the script with its line
    ends normalised, [get_script_path] finds the script, the store still
    has plain names only, and what [get_tool] and [get_script_content]
    return for every other plain tool id is as before. *)
Theorem saved_tool_is_found
    (metadata : ToolMetadata) (adapter : AdapterCode) (source_code : string)
    (w : world) :
  plain_store w ->
  is_plain_name (tool_id metadata) = true ->
  is_plain_name (file_name metadata) = true ->
  let out := save_tool metadata adapter source_code w in
  fst out = Ok (tool_id metadata)
  /\ get_tool (snd out) (tool_id metadata)
     = Some {| World.metadata := metadata; World.adapter := adapter;
               source_code := Some (normalize_newlines source_code) |}
  /\ is_Some (get_script_path (snd out) (tool_id metadata) (file_name metadata))
  /\ plain_store (snd out)
  /\ (forall tid, is_plain_name tid = true -> tid <> tool_id metadata ->
        get_tool (snd out) tid = get_tool w tid
        /\ forall f, is_plain_name f = true ->
             get_script_content (snd out) tid f = get_script_content w tid f).
Proof.
  intros [Hreg Hup] Htid Hfile. unfold save_tool, bind, modify, ret. simpl.
  split; [reflexivity|]. split.
  { unfold get_tool, get_script_content. simpl.
    now rewrite !lookup_insert_eq. }
  split.
  { unfold get_script_path. simpl. rewrite lookup_insert_eq. eauto. }
  split.
  { split; simpl.
    - apply map_Forall_insert_2; [|exact Hreg].
      unfold plain_dir. simpl. now rewrite Htid, Hfile.
    - apply map_Forall_insert_2; [|exact Hup].
      unfold plain_script. simpl. now rewrite Htid, Hfile. }
  intros tid _ Hne. unfold get_tool, get_script_content. simpl.
  rewrite lookup_insert_ne by congruence.
  assert (forall f, (<[(tool_id metadata, file_name metadata)
                        := normalize_newlines source_code]> (uploads w))
                      !! (tid, f) = uploads w !! (tid, f)) as Hsame.
  { intros f. apply lookup_insert_ne. congruence. }
  split; [|intros f _; apply Hsame].
  destruct (registry w !! tid) as [[[m|] [a|]]|]; try reflexivity.
  now rewrite Hsame.
Qed.

Definition sample_metadata : ToolMetadata :=
  {| tool_id := "line_balancer"; tool_name := "Line balancer";
     description := ""; execution_type := PYTHON; file_name := "balance.py" |}.
Definition sample_adapter : AdapterCode :=
  {| adapter_tool_id := "line_balancer"; pre_process_code := "pre";
     post_process_code := "post" |}.

Lemma saved_tool_is_found_witness :
  let w := Scenarios.one_tool_world (PDict []) "pre" "post" in
  let out := save_tool sample_metadata sample_adapter
               ("import json" +:+ String cr (String lf "print(1)")) w in
  get_tool (snd out) "line_balancer"
  = Some {| metadata := sample_metadata; adapter := sample_adapter;
            source_code := Some ("import json" +:+ String lf "print(1)") |}
  /\ get_tool (snd out) "tool" = get_tool w "tool".
Proof.
  intros w out.
  destruct (saved_tool_is_found sample_metadata sample_adapter
              ("import json" +:+ String cr (String lf "print(1)")) w
              plain_store_sample eq_refl eq_refl)
    as (_ & Hget & _ & _ & Hother).
  split; [exact Hget|]. apply (Hother "tool"); [reflexivity | discriminate].
Defined.

(** *** [delete_tool] *)

Lemma script_dir_exists_spec (w : world) (tid : string) :
  script_dir_exists w tid = true <-> exists f, is_Some (uploads w !! (tid, f)).
Proof.
  unfold script_dir_exists. rewrite negb_true_iff, bool_decide_eq_false.
  split.
  - intros Hne. apply map_choose in Hne as ([t f] & text & Hin).
    apply map_lookup_filter_Some in Hin as [Hin Hdir].
    unfold in_script_dir in Hdir. simpl in Hdir. subst t. eauto.
  - intros (f & text & Hin) Hempty.
    assert (filter (in_script_dir tid) (uploads w) !! (tid, f) = Some text) as H.
    { apply map_lookup_filter_Some. split; [exact Hin | reflexivity]. }
    rewrite Hempty in H. discriminate.
Qed.

Lemma lookup_outside_script_dir (w : world) (tid t f : string) :
  filter (fun kv => ~ in_script_dir tid kv) (uploads w) !! (t, f)
  = if decide (t = tid) then None else uploads w !! (t, f).
Proof.
  destruct (decide (t = tid)) as [->|Hne].
  - apply map_lookup_filter_None. right. intros text _ Hnot. now apply Hnot.
  - destruct (uploads w !! (t, f)) as [text|] eqn:Hin.
    + apply map_lookup_filter_Some. split; [exact Hin|].
      unfold in_script_dir. simpl. congruence.
    + apply map_lookup_filter_None. now left.
Qed.

(** The registry and the uploads that [delete_tool] leaves. *)
Lemma delete_tool_run (tid : string) (w : world) :
  let out := delete_tool tid w in
  fst out = Ok (dir_exists w tid || script_dir_exists w tid)
  /\ registry (snd out) = delete tid (registry w)
  /\ (forall t f, uploads (snd out) !! (t, f)
                  = if decide (t = tid) then None else uploads w !! (t, f)).
Proof.
  unfold delete_tool, bind, get_world, modify, ret. cbv zeta.
  destruct (dir_exists w tid) eqn:Hd; simpl.
  - change (script_dir_exists (set_registry (delete tid (registry w)) w) tid)
      with (script_dir_exists w tid).
    destruct (script_dir_exists w tid) eqn:Hs; simpl.
    + split; [reflexivity|]. split; [reflexivity|].
      intros t f. apply lookup_outside_script_dir.
    + split; [reflexivity|]. split; [reflexivity|].
      intros t f. destruct (decide (t = tid)) as [->|]; [|reflexivity].
      destruct (uploads w !! (tid, f)) as [text|] eqn:Hin; [|reflexivity].
      assert (script_dir_exists w tid = true) as Hyes
        by (apply script_dir_exists_spec; eauto).
      congruence.
  - destruct (script_dir_exists w tid) eqn:Hs; simpl.
    + split; [reflexivity|]. split.
      * symmetry. apply delete_id. unfold dir_exists in Hd.
        now destruct (registry w !! tid).
      * intros t f. apply lookup_outside_script_dir.
    + split; [reflexivity|]. split.
      * symmetry. apply delete_id. unfold dir_exists in Hd.
        now destruct (registry w !! tid).
      * intros t f. destruct (decide (t = tid)) as [->|]; [|reflexivity].
        destruct (uploads w !! (tid, f)) as [text|] eqn:Hin; [|reflexivity].
        assert (script_dir_exists w tid = true) as Hyes
          by (apply script_dir_exists_spec; eauto).
        congruence.
Qed.

(** [delete_tool] returns [True] when the tool directory or a script of the
    tool was there.  Afterwards [get_tool] does not find the tool,
    [get_script_path] finds none of its scripts, and a second call returns
    [False]; the store still has plain names only, and every other plain
    tool and its scripts are as before. *)
Theorem deleted_tool_is_not_found (tid : string) (w : world) :
  plain_store w ->
  is_plain_name tid = true ->
  let out := delete_tool tid w in
  (dir_exists w tid = true \/ (exists f, is_Some (uploads w !! (tid, f))) ->
   fst out = Ok true)
  /\ get_tool (snd out) tid = None
  /\ (forall f, is_plain_name f = true ->
        get_script_path (snd out) tid f = None)
  /\ fst (delete_tool tid (snd out)) = Ok false
  /\ plain_store (snd out)
  /\ (forall tid', is_plain_name tid' = true -> tid' <> tid ->
        get_tool (snd out) tid' = get_tool w tid'
        /\ forall f, is_plain_name f = true ->
             get_script_path (snd out) tid' f = get_script_path w tid' f).
Proof.
  intros [Hplain_reg Hplain_up] _ out.
  destruct (delete_tool_run tid w) as (Hres & Hreg & Hup). fold out in Hres, Hreg, Hup.
  split.
  { rewrite Hres. intros [Hd|Hs]; [now rewrite Hd|].
    apply script_dir_exists_spec in Hs. rewrite Hs. now rewrite orb_true_r. }
  split.
  { unfold get_tool. now rewrite Hreg, lookup_delete_eq. }
  split.
  { intros f _. unfold get_script_path. rewrite Hup.
    now destruct (decide (tid = tid)). }
  split.
  { destruct (delete_tool_run tid (snd out)) as (Hres2 & _ & _).
    rewrite Hres2. f_equal.
    assert (dir_exists (snd out) tid = false) as ->.
    { unfold dir_exists. now rewrite Hreg, lookup_delete_eq. }
    destruct (script_dir_exists (snd out) tid) eqn:Hs; [|reflexivity].
    apply script_dir_exists_spec in Hs as (f & text & Hin).
    rewrite Hup in Hin. now destruct (decide (tid = tid)). }
  split.
  { split.
    - rewrite Hreg. now apply map_Forall_delete.
    - intros [t f] text Hin. rewrite Hup in Hin.
      destruct (decide (t = tid)); [discriminate|].
      exact (Hplain_up _ _ Hin). }
  intros tid' _ Hne.
  assert (forall f, uploads (snd out) !! (tid', f) = uploads w !! (tid', f)) as Hup'.
  { intros f. rewrite Hup. now destruct (decide (tid' = tid)). }
  split.
  - unfold get_tool, get_script_content. rewrite Hreg, lookup_delete_ne by congruence.
    destruct (registry w !! tid') as [[[m|] [a|]]|]; try reflexivity.
    now rewrite Hup'.
  - intros f _. unfold get_script_path. now rewrite Hup'.
Qed.

Lemma deleted_tool_is_not_found_witness :
  let w := Scenarios.one_tool_world (PDict []) "pre" "post" in
  let out := delete_tool "tool" w in
  fst out = Ok true /\ get_tool (snd out) "tool" = None
  /\ fst (delete_tool "tool" (snd out)) = Ok false.
Proof.
  intros w out.
  destruct (deleted_tool_is_not_found "tool" w plain_store_sample eq_refl)
    as (Hres & Hget & _ & Hagain & _).
  split; [apply Hres; left; vm_compute; reflexivity|].
  split; [exact Hget | exact Hagain].
Defined.

(** *** The three updates *)

Lemma get_tool_elsewhere (w w' : world) (tid tid' : string) (d : ToolDir) :
  tid' <> tid ->
  registry w' = <[tid := d]> (registry w) ->
  (forall f, uploads w' !! (tid', f) = uploads w !! (tid', f)) ->
  get_tool w' tid' = get_tool w tid'.
Proof.
  intros Hne Hreg Hup. unfold get_tool, get_script_content.
  rewrite Hreg, lookup_insert_ne by congruence.
  destruct (registry w !! tid') as [[[m|] [a|]]|]; try reflexivity.
  now rewrite Hup.
Qed.

Lemma dir_exists_lookup (w : world) (tid : string) :
  dir_exists w tid = true <-> is_Some (registry w !! tid).
Proof.
  unfold dir_exists. destruct (registry w !! tid); split; intros H;
    try reflexivity; try discriminate; eauto.
  destruct H. discriminate.
Qed.

(** [update_tool_adapter] and [update_tool_metadata] return [False] and
    change nothing when the tool directory is missing.  When they return
    [True], [get_tool] returns the document that was written next to the
    one that was not - with new metadata the script it returns is the one
    the new [file_name] names - while every other plain tool and all the
    scripts are as before and the store still has plain names only. *)
Theorem update_rewrites_one_document
    (tid : string) (a : AdapterCode) (m : ToolMetadata) (w : world) :
  plain_store w ->
  is_plain_name tid = true ->
  is_plain_name (file_name m) = true ->
  let by_adapter := update_tool_adapter tid a w in
  let by_metadata := update_tool_metadata tid m w in
  (dir_exists w tid = false ->
   by_adapter = (Ok false, w) /\ by_metadata = (Ok false, w))
  /\ (fst by_adapter = Ok true ->
      (forall entry, get_tool w tid = Some entry ->
         get_tool (snd by_adapter) tid
         = Some {| metadata := metadata entry; adapter := a;
                   source_code := source_code entry |})
      /\ (forall tid', is_plain_name tid' = true -> tid' <> tid ->
            get_tool (snd by_adapter) tid' = get_tool w tid')
      /\ uploads (snd by_adapter) = uploads w
      /\ plain_store (snd by_adapter))
  /\ (fst by_metadata = Ok true ->
      (forall entry, get_tool w tid = Some entry ->
         get_tool (snd by_metadata) tid
         = Some {| metadata := m; adapter := adapter entry;
                   source_code := get_script_content w tid (file_name m) |})
      /\ (forall tid', is_plain_name tid' = true -> tid' <> tid ->
            get_tool (snd by_metadata) tid' = get_tool w tid')
      /\ uploads (snd by_metadata) = uploads w
      /\ plain_store (snd by_metadata)).
Proof.
  intros [Hplain_reg Hplain_up] Htid Hfile.
  unfold update_tool_adapter, update_tool_metadata, bind, get_world, modify,
    emit, modify, ret, dir_exists.
  destruct (registry w !! tid) as [dir|] eqn:Hdir; simpl.
  - split; [discriminate|]. split.
    + intros _. split.
      { intros entry. unfold get_tool, get_script_content. simpl.
        rewrite Hdir, !lookup_insert_eq.
        destruct dir as [[md|] [ad|]]; try discriminate. simpl.
        now intros [= <-]. }
      split.
      { intros tid' _ Hne.
        eapply get_tool_elsewhere; [exact Hne | reflexivity | reflexivity]. }
      split; [reflexivity|].
      split; simpl; [|exact Hplain_up].
      apply map_Forall_insert_2; [|exact Hplain_reg].
      pose proof (Hplain_reg _ _ Hdir) as Hd. exact Hd.
    + intros _. split.
      { intros entry. unfold get_tool, get_script_content. simpl.
        rewrite Hdir, !lookup_insert_eq.
        destruct dir as [[md|] [ad|]]; try discriminate. simpl.
        now intros [= <-]. }
      split.
      { intros tid' _ Hne.
        eapply get_tool_elsewhere; [exact Hne | reflexivity | reflexivity]. }
      split; [reflexivity|].
      split; simpl; [|exact Hplain_up].
      apply map_Forall_insert_2; [|exact Hplain_reg].
      unfold plain_dir. simpl. now rewrite Htid, Hfile.
  - split; [intros _; split; reflexivity|].
    split; discriminate.
Qed.

Lemma update_rewrites_one_document_witness :
  let w := Scenarios.one_tool_world (PDict []) "pre" "post" in
  let a := {| adapter_tool_id := "tool"; pre_process_code := "pre fixed";
              post_process_code := "post" |} in
  fst (update_tool_adapter "tool" a w) = Ok true
  /\ option_map adapter (get_tool (snd (update_tool_adapter "tool" a w)) "tool")
     = Some a
  /\ update_tool_adapter "nope" a w = (Ok false, w).
Proof.
  intros w a.
  assert (fst (update_tool_adapter "tool" a w) = Ok true) as Hres
    by (vm_compute; reflexivity).
  destruct (update_rewrites_one_document "tool" a sample_metadata w
              plain_store_sample eq_refl eq_refl) as (_ & Hget & _).
  destruct (update_rewrites_one_document "nope" a sample_metadata w
              plain_store_sample eq_refl eq_refl) as (Hsame & _ & _).
  split; [exact Hres|]. split.
  - destruct (Hget Hres) as (H & _).
    destruct (get_tool w "tool") as [entry|] eqn:Hentry;
      [|vm_compute in Hentry; discriminate].
    rewrite (H entry eq_refl). reflexivity.
  - now destruct (Hsame ltac:(vm_compute; reflexivity)) as [H _].
Defined.

(** [update_tool_script] writes the script (line ends normalised) under the
    given file name and then points [metadata.json] at it.  It refuses, and
    changes nothing, when the tool directory is missing.  When the
    directory is there but holds no [metadata.json] it returns [False]
    after the script has been written.  A script stored under another plain
    name stays, as do the adapter and the scripts of every other plain
    tool, and the store still has plain names only. *)
Theorem script_update_writes_then_renames
    (tid file_name source_code : string) (w : world) :
  plain_store w ->
  is_plain_name tid = true ->
  is_plain_name file_name = true ->
  let out := update_tool_script tid file_name source_code w in
  match registry w !! tid with
  | None => out = (Ok false, w)
  | Some dir =>
      get_script_content (snd out) tid file_name
        = Some (normalize_newlines source_code)
      /\ (forall t f, is_plain_name t = true -> is_plain_name f = true ->
            (t, f) <> (tid, file_name) ->
            get_script_content (snd out) t f = get_script_content w t f)
      /\ (forall tid', is_plain_name tid' = true -> tid' <> tid ->
            get_tool (snd out) tid' = get_tool w tid')
      /\ plain_store (snd out)
      /\ match metadata_json dir with
         | None => fst out = Ok false /\ registry (snd out) = registry w
         | Some meta =>
             fst out = Ok true
             /\ registry (snd out) !! tid
                = Some {| metadata_json := Some (with_file_name file_name meta);
                          adapter_json := adapter_json dir |}
             /\ (forall entry, get_tool w tid = Some entry ->
                   get_tool (snd out) tid
                   = Some {| metadata := with_file_name file_name (metadata entry);
                             adapter := adapter entry;
                             World.source_code :=
                               Some (normalize_newlines source_code) |})
         end
  end.
Proof.
  intros [Hplain_reg Hplain_up] Htid Hfile.
  unfold update_tool_script, bind, get_world, modify, ret.
  destruct (registry w !! tid) as [dir|] eqn:Hdir; [|reflexivity].
  assert (map_Forall (fun key (_ : string) => plain_script key = true)
            (<[(tid, file_name) := normalize_newlines source_code]> (uploads w)))
    as Hup'.
  { apply map_Forall_insert_2; [|exact Hplain_up].
    unfold plain_script. simpl. now rewrite Htid, Hfile. }
  destruct dir as [[meta|] ad]; simpl.
  - split.
    { unfold get_script_content. simpl. apply lookup_insert_eq. }
    split.
    { intros t f _ _ Hne. unfold get_script_content. simpl.
      apply lookup_insert_ne. congruence. }
    split.
    { intros tid' _ Hne. eapply get_tool_elsewhere; [exact Hne | reflexivity |].
      intros f. simpl. apply lookup_insert_ne. congruence. }
    split.
    { split; simpl; [|exact Hup'].
      apply map_Forall_insert_2; [|exact Hplain_reg].
      unfold plain_dir. simpl. now rewrite Htid, Hfile. }
    split; [reflexivity|]. split; [apply lookup_insert_eq|].
    intros entry. unfold get_tool, get_script_content. simpl.
    rewrite Hdir, !lookup_insert_eq. destruct ad as [a|]; [|discriminate].
    intros [= <-]. reflexivity.
  - split.
    { unfold get_script_content. simpl. apply lookup_insert_eq. }
    split.
    { intros t f _ _ Hne. unfold get_script_content. simpl.
      apply lookup_insert_ne. congruence. }
    split.
    { intros tid' _ Hne. unfold get_tool, get_script_content. simpl.
      destruct (registry w !! tid') as [[[m|] [a|]]|]; try reflexivity.
      rewrite lookup_insert_ne by congruence. reflexivity. }
    split; [|split; reflexivity].
    split; simpl; [exact Hplain_reg | exact Hup'].
Qed.

Lemma script_update_writes_then_renames_witness :
  let w := Scenarios.one_tool_world (PDict []) "pre" "post" in
  let out := update_tool_script "tool" "v2.py" "print(2)" w in
  fst out = Ok true
  /\ get_script_content (snd out) "tool" "v2.py" = Some "print(2)"
  /\ get_script_content (snd out) "tool" "script.py" = Some "print(1)"
  /\ option_map (fun e => file_name (metadata e)) (get_tool (snd out) "tool")
     = Some "v2.py".
Proof.
  intros w out.
  pose proof (script_update_writes_then_renames "tool" "v2.py" "print(2)" w
                plain_store_sample eq_refl eq_refl) as H.
  cbv zeta in H. fold out in H.
  destruct (registry w !! "tool") as [dir|] eqn:Hdir;
    [|vm_compute in Hdir; discriminate].
  destruct H as (Hnew & Hold & _ & _ & Hmeta).
  destruct (metadata_json dir) as [meta|] eqn:Hm.
  2:{ vm_compute in Hdir. injection Hdir as <-. discriminate. }
  destruct Hmeta as (Hres & _ & Hget).
  split; [exact Hres|]. split; [exact Hnew|]. split.
  - rewrite Hold by first [reflexivity | discriminate]. reflexivity.
  - destruct (get_tool w "tool") as [entry|] eqn:Hentry;
      [|vm_compute in Hentry; discriminate].
    rewrite (Hget entry eq_refl). reflexivity.
Defined.

(** *** The order of names *)

Lemma ascii_compare_lt (a b : ascii) :
  Ascii.compare a b = Lt <-> (N_of_ascii a < N_of_ascii b)%N.
Proof. unfold Ascii.compare. apply N.compare_lt_iff. Qed.

Lemma ascii_compare_gt (a b : ascii) :
  Ascii.compare a b = Gt <-> (N_of_ascii b < N_of_ascii a)%N.
Proof. unfold Ascii.compare. apply N.compare_gt_iff. Qed.

Lemma ascii_compare_eq (a b : ascii) : Ascii.compare a b = Eq <-> a = b.
Proof.
  unfold Ascii.compare. rewrite N.compare_eq_iff. split; [|now intros ->].
  intros H. rewrite <- (ascii_N_embedding a), <- (ascii_N_embedding b).
  now rewrite H.
Qed.

Lemma string_compare_trans (c : comparison) (s1 s2 s3 : string) :
  String.compare s1 s2 <> Gt -> String.compare s2 s3 <> Gt ->
  String.compare s1 s3 <> Gt.
Proof.
  revert s2 s3.
  induction s1 as [|a s1 IH]; intros [|b s2] [|d s3]; simpl; try congruence.
  destruct (Ascii.compare a b) eqn:Hab;
    destruct (Ascii.compare b d) eqn:Hbd;
    destruct (Ascii.compare a d) eqn:Had;
    try apply (proj1 (ascii_compare_eq _ _)) in Hab; try apply (proj1 (ascii_compare_lt _ _)) in Hab;
    try apply (proj1 (ascii_compare_gt _ _)) in Hab;
    try apply (proj1 (ascii_compare_eq _ _)) in Hbd; try apply (proj1 (ascii_compare_lt _ _)) in Hbd;
    try apply (proj1 (ascii_compare_gt _ _)) in Hbd;
    try apply (proj1 (ascii_compare_eq _ _)) in Had; try apply (proj1 (ascii_compare_lt _ _)) in Had;
    try apply (proj1 (ascii_compare_gt _ _)) in Had;
    subst; first [solve [intros; lia] | solve [intros; congruence] | apply IH].
Qed.

#[export] Instance name_le_trans : Transitive name_le.
Proof.
  intros a b c. unfold name_le, String.leb. intros Hab Hbc.
  pose proof (string_compare_trans Eq a b c) as H.
  destruct (String.compare a b); try discriminate;
    destruct (String.compare b c); try discriminate;
    destruct (String.compare a c); try reflexivity;
    exfalso; apply H; congruence.
Qed.

#[export] Instance name_le_total : Total name_le.
Proof. intros a b. apply String.leb_total. Qed.

(** *** [list_tools] *)

Definition item_of (meta : ToolMetadata) : ToolListItem :=
  {| item_tool_id := tool_id meta; item_tool_name := tool_name meta;
     item_description := description meta;
     item_execution_type := execution_type meta |}.

Definition listed_under (w : world) (name : string) : option ToolListItem :=
  match registry w !! name with
  | Some {| metadata_json := Some meta |} => Some (item_of meta)
  | _ => None
  end.

Lemma sorted_dirs_names (w : world) (name : string) :
  name ∈ sorted_dirs w <-> is_Some (registry w !! name).
Proof.
  unfold sorted_dirs. rewrite merge_sort_Permutation.
  rewrite list_elem_of_fmap. split.
  - intros ([n d] & -> & Hin). apply elem_of_map_to_list in Hin. simpl. eauto.
  - intros [d Hd]. exists (name, d). split; [reflexivity|].
    now apply elem_of_map_to_list.
Qed.

Lemma sorted_dirs_nodup (w : world) : NoDup (sorted_dirs w).
Proof.
  unfold sorted_dirs. rewrite merge_sort_Permutation.
  apply NoDup_fst_map_to_list.
Qed.

(** [list_tools] goes through the tool directories in the order of their
    names, each once, and shows the metadata of every directory that has a
    [metadata.json] - whether or not it has an [adapter.json].  So every
    tool that [get_tool] finds is listed, while a listed tool need not be
    one that [get_tool] finds. *)
Theorem listing_follows_directory_names (w : world) :
  StronglySorted name_le (sorted_dirs w)
  /\ NoDup (sorted_dirs w)
  /\ (forall name, name ∈ sorted_dirs w <-> is_Some (registry w !! name))
  /\ list_tools w = omap (listed_under w) (sorted_dirs w)
  /\ (forall item, item ∈ list_tools w <->
        exists name dir meta,
          registry w !! name = Some dir /\ metadata_json dir = Some meta
          /\ item = item_of meta)
  /\ (forall tid entry, get_tool w tid = Some entry ->
        item_of (metadata entry) ∈ list_tools w).
Proof.
  split; [apply StronglySorted_merge_sort; apply _|].
  split; [apply sorted_dirs_nodup|].
  split; [apply sorted_dirs_names|].
  split; [reflexivity|].
  assert (forall item, item ∈ list_tools w <->
            exists name dir meta,
              registry w !! name = Some dir /\ metadata_json dir = Some meta
              /\ item = item_of meta) as Hlisted.
  { intros item. unfold list_tools. rewrite list_elem_of_omap. split.
    - intros (name & Hin & Hitem).
      destruct (registry w !! name) as [[[meta|] ad]|] eqn:Hdir; try discriminate.
      injection Hitem as <-.
      exists name, {| metadata_json := Some meta; adapter_json := ad |}, meta.
      split; [exact Hdir|]. split; reflexivity.
    - intros (name & dir & meta & Hdir & Hmeta & ->).
      exists name. split.
      + apply sorted_dirs_names. eauto.
      + rewrite Hdir. destruct dir as [md ad]. simpl in Hmeta. now subst md. }
  split; [exact Hlisted|].
  intros tid entry. unfold get_tool.
  destruct (registry w !! tid) as [[[meta|] [ad|]]|] eqn:Hdir; try discriminate.
  intros [= <-]. apply Hlisted.
  exists tid, {| metadata_json := Some meta; adapter_json := Some ad |}, meta.
  split; [exact Hdir|]. split; reflexivity.
Qed.

End RegistryFacts.

(* ===================================================================== *)
(** ** Following one run *)
(* ===================================================================== *)

Module Run.
Import Py World Logic.
Local Open Scope py_scope.

(** [wp m Q w]: the run of [m] from [w] ends in an outcome and a world that
    [Q] holds of. *)
Definition wp {A : Type} (m : M A) (Q : outcome A -> world -> Prop)
                         (w : world) : Prop :=
  Q (fst (m w)) (snd (m w)).

(** What [Q] asks of the first half of a [bind]. *)
Definition before {A B : Type} (k : A -> M B) (Q : outcome B -> world -> Prop)
  : outcome A -> world -> Prop :=
  fun o w =>
    match o with
    | Ok a => wp (k a) Q w
    | Raise e => Q (Raise e) w
    end.

Lemma wp_bind {A B} (m : M A) (k : A -> M B) Q w :
  wp m (before k Q) w -> wp (bind m k) Q w.
Proof.
  unfold wp, before, bind. destruct (m w) as [[a|e] w1]; simpl; trivial.
Qed.

Lemma wp_ret {A} (a : A) Q w : Q (Ok a) w -> wp (ret a) Q w.
Proof. trivial. Qed.

Lemma wp_raise {A} e (Q : outcome A -> world -> Prop) w :
  Q (Raise e) w -> wp (raise e) Q w.
Proof. trivial. Qed.

Lemma wp_lift {A} (o : outcome A) Q w : Q o w -> wp (lift_outcome o) Q w.
Proof. trivial. Qed.

Lemma wp_modify f (Q : outcome unit -> world -> Prop) w :
  Q (Ok tt) (f w) -> wp (modify f) Q w.
Proof. trivial. Qed.

Lemma wp_get_world (Q : outcome world -> world -> Prop) w :
  Q (Ok w) w -> wp get_world Q w.
Proof. trivial. Qed.

Lemma wp_deref r (Q : outcome pyval -> world -> Prop) w :
  Q (Ok (default (PDict []) (heap w !! r))) w -> wp (deref r) Q w.
Proof. trivial. Qed.

(** What [Q] asks of a run under [except Exception]: what is not an
    [Exception] goes on to the caller. *)
Definition caught {A : Type} (Q : outcome (outcome A) -> world -> Prop)
  : outcome A -> world -> Prop :=
  fun o w =>
    match o with
    | Ok a => Q (Ok (Ok a)) w
    | Raise e => if is_exception e then Q (Ok (Raise e)) w else Q (Raise e) w
    end.

Lemma wp_catch {A} (m : M A) (Q : outcome (outcome A) -> world -> Prop) w :
  wp m (caught Q) w -> wp (catch m) Q w.
Proof.
  unfold wp, catch, caught. destruct (m w) as [[a|e] w1]; simpl; trivial.
  destruct (is_exception e); trivial.
Qed.

Lemma wp_try_except {A} (m : M A) (h : exn -> M A) Q w :
  wp m (fun o w' => match o with
                    | Ok a => Q (Ok a) w'
                    | Raise e => if is_exception e then wp (h e) Q w'
                                 else Q (Raise e) w'
                    end) w ->
  wp (try_except m h) Q w.
Proof.
  unfold wp, try_except. destruct (m w) as [[a|e] w1]; simpl; trivial.
  destruct (is_exception e); trivial.
Qed.

Lemma wp_finally {A} (m : M A) (f : world -> world) Q w :
  wp m (fun o w' => Q o (f w')) w -> wp (finally m f) Q w.
Proof. unfold wp, finally. destruct (m w) as [o w1]. trivial. Qed.

Lemma wp_mono {A} (m : M A) (Q Q' : outcome A -> world -> Prop) w :
  wp m Q w -> (forall o w', Q o w' -> Q' o w') -> wp m Q' w.
Proof. unfold wp. auto. Qed.

(** A step known only by what it leaves of a view [V] of the world. *)
Lemma wp_same {A T} (V : world -> T) n (m : M A) Q w :
  spec (fun _ w w' => V w' = V w) n any_value any_exn m ->
  (forall o w', V w' = V w -> Q o w') ->
  wp m Q w.
Proof. intros Hm HQ. unfold wp. apply HQ. apply (Hm w). Qed.

End Run.

(* ===================================================================== *)
(** ** What the adapters and the loops leave alone *)
(* ===================================================================== *)

Module Footprints.
Import Py World Sandbox Registry Executor Logic ExecutorFacts.
Local Open Scope py_scope.

Definition sandbox_event (e : event) : bool := is_statement e || is_invoked e.

(** A view of the world that the adapters cannot change: they write
    objects and leave statement and invocation events, nothing else. *)
Class Blind {T : Type} (V : world -> T) : Prop := {
  blind_heap : forall w h, V (set_heap h w) = V w;
  blind_event : forall w e,
    sandbox_event e = true -> V (set_trace (trace w ++ [e]) w) = V w;
}.

(** A view that the repair loops cannot change either: they count
    attempts, consult the oracle and swap the adapter sources in use. *)
Class LoopBlind {T : Type} (V : world -> T) : Prop := {
  loop_blind :: Blind V;
  blind_repair : forall w fn code,
    V (set_trace (trace w ++ [EvRepair fn code]) w) = V w;
  blind_bump : forall w, V (change_log bump_attempts w) = V w;
  blind_code : forall w pre post,
    V (set_frame {| exec_log := exec_log (frame w);
                    current_pre_code := pre;
                    current_post_code := post |} w) = V w;
}.

Ltac blind_obl :=
  first [ exact I
        | unfold same;
          first [ apply blind_heap
                | apply blind_event; reflexivity
                | apply blind_repair
                | apply blind_bump
                | apply blind_code
                | reflexivity ] ].

Section Sandbox.
Context {T : Type} (V : world -> T) `{!Blind V}.
Variable E : Env.

Lemma exec_stmt_blind b s ns :
  spec (same V) 0 any_value any_exn (exec_stmt b s ns).
Proof. destruct s; simpl; spec_steps blind_obl. Qed.

Lemma exec_stmts_blind b prog ns :
  spec (same V) 0 any_value any_exn (exec_stmts b prog ns).
Proof.
  revert b ns. induction prog as [|s prog IH]; intros b ns; simpl.
  - spec_steps blind_obl.
  - rule spec_seq; [apply exec_stmt_blind | intros ns'].
    rule spec_seq; [|intros _; apply IH].
    unfold emit. spec_steps blind_obl.
Qed.

Lemma exec_blind code ns : spec (same V) 0 any_value any_exn (exec E code ns).
Proof.
  unfold exec. rule spec_seq; [spec_steps blind_obl | intros prog].
  apply exec_stmts_blind.
Qed.

Lemma call_blind fname o a b b_ref :
  spec (same V) 0 any_value any_exn (call fname o a b b_ref).
Proof. unfold call. spec_steps blind_obl. Qed.

Lemma params_or_empty_blind params :
  spec (same V) 0 any_value any_exn (params_or_empty params).
Proof. unfold params_or_empty. spec_steps blind_obl. Qed.

Lemma run_preprocessor_blind code bop_data params :
  spec (same V) 0 any_value any_exn (_run_preprocessor E code bop_data params).
Proof.
  unfold _run_preprocessor.
  spec_steps ltac:(first [ blind_obl
                         | apply exec_blind
                         | apply params_or_empty_blind
                         | apply call_blind ]).
Qed.

Lemma run_postprocessor_blind code bop_data tool_output :
  spec (same V) 0 any_value any_exn
       (_run_postprocessor E code bop_data tool_output).
Proof.
  unfold _run_postprocessor.
  spec_steps ltac:(first [ blind_obl | apply exec_blind | apply call_blind ]).
Qed.

End Sandbox.

Section Loops.
Context {T : Type} (V : world -> T) `{!LoopBlind V}.
Variable k : nat.
Variable E : Env.

Lemma consult_blind fn code info data :
  spec (same V) 0 any_value any_exn (consult E fn code info data).
Proof.
  unfold consult.
  rule spec_seq; [rule spec_get_world | intros w0].
  rule spec_seq; [|intros _; rule spec_ret; exact I].
  unfold emit. rule spec_modify; [intros; apply blind_repair | exact I].
Qed.

Lemma pre_loop_blind bop_data params attempts pre_error :
  spec (same V) 0 any_value any_exn
       (pre_loop k E bop_data params attempts pre_error).
Proof.
  revert pre_error. induction attempts as [|attempt rest IH]; intros pre_error.
  - simpl. spec_steps blind_obl.
  - cbn [pre_loop].
    rule spec_seq; [rule spec_get_pre_code | intros code].
    rule spec_seq;
      [rule spec_catch_any; apply (run_preprocessor_blind V) | intros r].
    destruct r as [tool_input|e]; [spec_steps blind_obl|].
    destruct (attempt <? k)%nat; [|apply IH].
    rule spec_seq; [unfold update_log; rule spec_modify;
                    [intros; apply blind_bump | exact I] | intros _].
    cbv zeta.
    rule spec_seq; [rule spec_deref | intros bop].
    rule spec_seq; [rule spec_lift; destruct (json_dumps _ _ _); exact I
                   | intros text].
    rule spec_seq; [apply consult_blind | intros fixed_code].
    destruct (accepted fixed_code) as [c|]; [|spec_steps blind_obl].
    rule spec_seq; [|intros _; apply IH].
    unfold set_pre_code. rule spec_modify; [intros; apply blind_code | exact I].
Qed.

Lemma post_loop_blind bop_data tool_output attempts post_error :
  spec (same V) 0 any_value any_exn
       (post_loop k E bop_data tool_output attempts post_error).
Proof.
  revert post_error. induction attempts as [|attempt rest IH]; intros post_error.
  - simpl. spec_steps blind_obl.
  - cbn [post_loop].
    rule spec_seq; [rule spec_get_post_code | intros code].
    rule spec_seq;
      [rule spec_catch_any; apply (run_postprocessor_blind V) | intros r].
    destruct r as [updated|e]; [spec_steps blind_obl|].
    destruct (attempt <? k)%nat; [|apply IH].
    rule spec_seq; [unfold update_log; rule spec_modify;
                    [intros; apply blind_bump | exact I] | intros _].
    cbv zeta.
    rule spec_seq; [apply consult_blind | intros fixed_code].
    destruct (accepted fixed_code) as [c|]; [|spec_steps blind_obl].
    rule spec_seq; [|intros _; apply IH].
    unfold set_post_code. rule spec_modify; [intros; apply blind_code | exact I].
Qed.

End Loops.

(** With the budget at zero a loop is one run of the adapter. *)
Section Unrepaired.
Context {T : Type} (V : world -> T) `{!Blind V}.
Variable E : Env.

Lemma pre_loop_unrepaired bop_data params :
  spec (same V) 0 any_value any_exn
       (pre_loop 0 E bop_data params (seq 0 (0 + 1)) None).
Proof.
  cbn [seq Nat.add pre_loop].
  rule spec_seq; [rule spec_get_pre_code | intros code].
  rule spec_seq;
    [rule spec_catch_any; apply (run_preprocessor_blind V) | intros r].
  destruct r as [tool_input|e]; [spec_steps blind_obl|].
  change (0 <? 0)%nat with false. cbn [pre_loop]. spec_steps blind_obl.
Qed.

Lemma post_loop_unrepaired bop_data tool_output :
  spec (same V) 0 any_value any_exn
       (post_loop 0 E bop_data tool_output (seq 0 (0 + 1)) None).
Proof.
  cbn [seq Nat.add post_loop].
  rule spec_seq; [rule spec_get_post_code | intros code].
  rule spec_seq;
    [rule spec_catch_any; apply (run_postprocessor_blind V) | intros r].
  destruct r as [updated|e]; [spec_steps blind_obl|].
  change (0 <? 0)%nat with false. cbn [post_loop]. spec_steps blind_obl.
Qed.

End Unrepaired.

End Footprints.

(* ===================================================================== *)
(** ** The execution log and the launches of one call *)
(* ===================================================================== *)

Module LogFacts.
Import Py World Sandbox Registry Sanitizer Executor Logic ExecutorFacts.
Import Run Footprints.
Local Open Scope py_scope.

Definition is_launch (e : event) : bool :=
  match e with EvSubprocess _ => true | _ => false end.

Definition launches (w : world) : nat := count is_launch (trace w).

(** The log dict without its counter of repair attempts. *)
Definition forget_attempts (l : ExecLog) : ExecLog :=
  {| log_tool_id := log_tool_id l; log_tool_name := log_tool_name l;
     log_input := log_input l; log_output := log_output l;
     log_stdout := log_stdout l; log_stderr := log_stderr l;
     log_return_code := log_return_code l; log_success := log_success l;
     log_message := log_message l; auto_repair_attempts := 0;
     auto_repair_success := auto_repair_success l;
     sanitized_invalid_floats := sanitized_invalid_floats l |}.

(** What the loops and the adapters leave as it is: the log dict up to its
    counter, the number of launches made so far and the saved logs. *)
Definition steady (w : world)
  : ExecLog * nat * list (string * ExecLog) :=
  (forget_attempts (exec_log (frame w)), launches w, logs w).

#[export] Instance steady_blind : LoopBlind steady.
Proof.
  split; [split|..]; unfold steady, launches; simpl; intros; try reflexivity.
  - rewrite count_snoc.
    destruct e; try discriminate; simpl; now rewrite Nat.add_0_r.
  - rewrite count_snoc. simpl. now rewrite Nat.add_0_r.
Qed.

Ltac steady_obl :=
  first [ exact I
        | unfold same, steady, launches; simpl;
          rewrite ?count_snoc; simpl; rewrite ?Nat.add_0_r; reflexivity ].

Lemma deepcopy_steady r : spec (same steady) 0 any_value any_exn (deepcopy r).
Proof. intros w. split; [reflexivity | exact I]. Qed.

Lemma collect_tool_output_steady output_file out :
  spec (same steady) 0 any_value any_exn (collect_tool_output output_file out).
Proof. unfold collect_tool_output. spec_steps steady_obl. Qed.

Lemma update_tool_adapter_steady tid a :
  spec (same steady) 0 any_value any_exn (update_tool_adapter tid a).
Proof. unfold update_tool_adapter. spec_steps steady_obl. Qed.

(** One launch: the frame and the saved logs stay, the trace gains the
    launch. *)
Lemma execute_subprocess_launches E script_path work_dir input_file output_file
      execution_type w :
  let out := _execute_subprocess E script_path work_dir input_file output_file
                                 execution_type w in
  frame (snd out) = frame w
  /\ logs (snd out) = logs w
  /\ launches (snd out) = S (launches w).
Proof.
  unfold _execute_subprocess, bind, get_world, emit, modify, raise, ret, launches.
  simpl.
  destruct (subprocess_run E _ _) as [out err rc [f|]| | |]; simpl;
    (split; [reflexivity|]); (split; [reflexivity|]);
    rewrite count_snoc; simpl; lia.
Qed.

(** The fields that [steady] fixes. *)
Lemma steady_fields (w w' : world) :
  steady w' = steady w ->
  let l := exec_log (frame w) in
  let l' := exec_log (frame w') in
  log_tool_id l' = log_tool_id l /\ log_tool_name l' = log_tool_name l
  /\ log_success l' = log_success l /\ log_message l' = log_message l
  /\ log_input l' = log_input l /\ log_output l' = log_output l
  /\ log_return_code l' = log_return_code l
  /\ launches w' = launches w
  /\ logs w' = logs w.
Proof.
  unfold steady, forget_attempts. intros [= ? ? ? ? ? ? ? ? ? ? ? ? ?].
  cbv zeta. repeat split; assumption.
Qed.

(** *** Running the pipeline with the log dict in view *)

Lemma wp_get_log (Q : outcome ExecLog -> world -> Prop) w :
  Q (Ok (exec_log (frame w))) w -> wp get_log Q w.
Proof. trivial. Qed.

Lemma wp_get_pre_code (Q : outcome string -> world -> Prop) w :
  Q (Ok (current_pre_code (frame w))) w -> wp get_pre_code Q w.
Proof. trivial. Qed.

Lemma wp_get_post_code (Q : outcome string -> world -> Prop) w :
  Q (Ok (current_post_code (frame w))) w -> wp get_post_code Q w.
Proof. trivial. Qed.

Lemma wp_execute_subprocess E script_path work_dir input_file output_file
      execution_type (Q : outcome (string * string * Z) -> world -> Prop) w :
  (forall o w', frame w' = frame w -> logs w' = logs w ->
                launches w' = S (launches w) -> Q o w') ->
  wp (_execute_subprocess E script_path work_dir input_file output_file
                          execution_type) Q w.
Proof.
  intros HQ. unfold wp.
  destruct (execute_subprocess_launches E script_path work_dir input_file
              output_file execution_type w) as (Hf & Hl & Hn).
  now apply HQ.
Qed.

(** A step that leaves [steady] as it is. *)
Ltac wp_steady lem :=
  eapply (wp_same steady);
  [ apply lem
  | let o := fresh "o" in
    let w' := fresh "w" in
    let Hs := fresh "Hs" in
    intros o w' Hs; apply steady_fields in Hs; simpl in Hs;
    destruct Hs as (? & ? & ? & ? & ? & ? & ? & ? & ?) ].

Ltac wp_step :=
  lazymatch goal with
  | |- wp (bind _ _) _ _ => apply wp_bind
  | |- wp (ret _) _ _ => apply wp_ret
  | |- wp (raise _) _ _ => apply wp_raise
  | |- wp (modify _) _ _ => apply wp_modify
  | |- wp (update_log _) _ _ => unfold update_log
  | |- wp (log_message_is _) _ _ => unfold log_message_is
  | |- wp get_log _ _ => apply wp_get_log
  | |- wp get_pre_code _ _ => apply wp_get_pre_code
  | |- wp get_post_code _ _ => apply wp_get_post_code
  | |- wp (deref _) _ _ => apply wp_deref
  | |- wp get_world _ _ => apply wp_get_world
  | |- wp (lift_outcome ?o) _ _ => apply wp_lift; destruct o eqn:?
  | |- wp (update_tool_adapter _ _) _ _ =>
      wp_steady update_tool_adapter_steady
  | |- wp (collect_tool_output _ _) _ _ =>
      wp_steady collect_tool_output_steady
  | |- wp (deepcopy _) _ _ => wp_steady deepcopy_steady
  | |- wp (post_loop _ _ _ _ _ _) _ _ =>
      wp_steady (post_loop_blind steady)
  | |- wp (pre_loop _ _ _ _ _ _) _ _ =>
      wp_steady (pre_loop_blind steady)
  | |- wp (catch _) _ _ => apply wp_catch
  | |- wp (_execute_subprocess _ _ _ _ _ _) _ _ =>
      apply wp_execute_subprocess; intros ? ? ? ? ?; cbv beta
  | |- wp (let _ := _ in _) _ _ => cbv zeta
  | |- before _ _ (Ok _) _ => unfold before at 1; cbv beta iota
  | |- before _ _ (Raise _) _ => unfold before at 1; cbv beta iota
  | |- before _ _ ?o _ => is_var o; destruct o
  | |- caught _ (Ok _) _ => unfold caught at 1; cbv beta iota
  | |- caught _ (Raise ?e) _ =>
      unfold caught at 1; cbv beta iota; destruct (is_exception e) eqn:?
  | |- caught _ ?o _ => is_var o; destruct o
  | |- wp (if ?c then _ else _) _ _ => destruct c eqn:?
  | |- wp (match ?x with _ => _ end) _ _ => destruct x eqn:?
  end.

(** The log dict of a call that has not come to its end. *)
Definition open_log (tid name : string) (w : world) : Prop :=
  log_tool_id (exec_log (frame w)) = tid
  /\ log_tool_name (exec_log (frame w)) = name
  /\ log_success (exec_log (frame w)) = false.

(** [s if s else None] *)
Definition shown (s : string) : option string :=
  if str_truthy s then Some s else None.

(** The log dict and the result at the end of the [try] block, [n0]
    launches having been made and the logs [saved] having been saved before
    the call. *)
Definition closed (tid name : string) (n0 : nat)
    (saved : list (string * ExecLog))
    (o : outcome ExecuteResult) (w : world) : Prop :=
  let l := exec_log (frame w) in
  log_tool_id l = tid /\ log_tool_name l = name
  /\ logs w = saved
  /\ launches w <= S n0
  /\ match o with
     | Ok r =>
         log_message l = Some (message r)
         /\ log_success l = success r
         /\ (success r = true ->
             launches w = S n0
             /\ log_return_code l = Some 0%Z
             /\ (exists tool_in,
                   log_input l = Some tool_in /\ tool_input r = shown tool_in)
             /\ (exists tool_out,
                   log_output l = Some tool_out
                   /\ tool_output r = shown tool_out))
     | Raise _ => log_success l = false
     end.

Ltac log_rewrite :=
  repeat (first
            [ match goal with
              | H : ?f (exec_log (frame ?w')) = _
                |- context [?f (exec_log (frame ?w'))] => rewrite H
              end
            | match goal with
              | H : frame ?w' = _ |- context [frame ?w'] => rewrite H
              end ];
          simpl).

Ltac closed_obl :=
  unfold closed, open_log, shown, launches in *; simpl in *;
  repeat match goal with
         | H : _ /\ _ |- _ => destruct H
         | H : negb (_ =? _)%Z = false |- _ =>
             apply negb_false_iff, Z.eqb_eq in H; subst
         end;
  repeat first [split | intros ?];
  log_rewrite;
  try congruence; try lia; try discriminate;
  try (eexists; split; [log_rewrite; reflexivity | reflexivity]).

Ltac wp_run := repeat wp_step; try solve [closed_obl].

Section Closing.
Variable k : nat.
Variable E : Env.
Variables (tid name : string) (n0 : nat) (saved : list (string * ExecLog)).

Lemma finish_closes original before_ updated tool_in tool_out out err w :
  open_log tid name w ->
  logs w = saved ->
  launches w = S n0 ->
  log_return_code (exec_log (frame w)) = Some 0%Z ->
  log_input (exec_log (frame w)) = Some tool_in ->
  log_output (exec_log (frame w)) = Some tool_out ->
  wp (finish E tid original before_ updated tool_in tool_out out err)
     (closed tid name n0 saved) w.
Proof.
  intros Hopen Hlogs Hn Hrc Hin Hout. unfold finish. wp_run.
Qed.

Lemma post_phase_closes original bop_data tool_in tool_out out err w :
  open_log tid name w ->
  logs w = saved ->
  launches w = S n0 ->
  log_return_code (exec_log (frame w)) = Some 0%Z ->
  log_input (exec_log (frame w)) = Some tool_in ->
  log_output (exec_log (frame w)) = Some tool_out ->
  wp (post_phase k E tid original bop_data tool_in tool_out out err)
     (closed tid name n0 saved) w.
Proof.
  intros Hopen Hlogs Hn Hrc Hin Hout. unfold post_phase. wp_run.
  apply finish_closes; closed_obl.
Qed.

Lemma launch_phase_closes entry script_path work_dir bop_data tool_in w :
  open_log tid name w ->
  logs w = saved ->
  launches w = n0 ->
  wp (launch_phase k E tid entry script_path work_dir bop_data tool_in)
     (closed tid name n0 saved) w.
Proof.
  intros Hopen Hlogs Hn. unfold launch_phase. wp_run.
  apply post_phase_closes; closed_obl.
Qed.

Lemma pipeline_closes entry script_path work_dir bop_data params w :
  open_log tid name w ->
  logs w = saved ->
  launches w = n0 ->
  wp (pipeline k E tid entry script_path work_dir bop_data params)
     (closed tid name n0 saved) w.
Proof.
  intros Hopen Hlogs Hn. unfold pipeline. wp_run.
  apply launch_phase_closes; closed_obl.
Qed.

(** The [try] block with its [except] clause: the log dict agrees with
    what it returns, and what it raises is no [Exception]. *)
Lemma guarded_closes entry script_path work_dir bop_data params w :
  open_log tid name w ->
  logs w = saved ->
  launches w = n0 ->
  wp (try_except
        (pipeline k E tid entry script_path work_dir bop_data params)
        except_handler)
     (fun o w' => closed tid name n0 saved o w'
                  /\ forall e, o = Raise e -> is_exception e = false) w.
Proof.
  intros Hopen Hlogs Hn. apply wp_try_except.
  eapply wp_mono; [now apply pipeline_closes|].
  intros [r|e] w' Hc.
  - split; [exact Hc | discriminate].
  - destruct (is_exception e) eqn:He.
    + unfold except_handler. wp_run.
    + split; [exact Hc | now intros e' [= <-]].
Qed.

End Closing.

(** The world at the end of a call that has entered the [try] block. *)
Lemma guarded_call_closes k E tid bop_data params w entry sp :
  let out := try_except
               (pipeline k E tid entry sp (work_dir_of E tid)
                         (fresh (dom (heap w))) params)
               except_handler
               (started E tid entry (copied bop_data w)) in
  closed tid (tool_name (metadata entry)) (launches w) (logs w)
         (fst out) (snd out)
  /\ forall e, fst out = Raise e -> is_exception e = false.
Proof.
  apply (guarded_closes k E tid (tool_name (metadata entry)) (launches w)
           (logs w) entry sp (work_dir_of E tid) (fresh (dom (heap w))) params
           (started E tid entry (copied bop_data w))).
  - repeat split.
  - reflexivity.
  - reflexivity.
Qed.

(** The log dict that the [finally] clause hands to [_save_execution_log]
    is the only one the call saves, and it agrees with the result dict:
    same [success], same [message], the id and the name of the tool, and
    for a successful call the exit status 0 and the very texts that the
    result shows as [tool_input] and [tool_output]. *)
Theorem saved_log_agrees_with_result
    (k : nat) (E : Env) (tid : string) (bop_data : nat) (params : option nat)
    (w : world) (entry : ToolRegistryEntry) (script_path : string)
    (r : ExecuteResult) :
  get_tool w tid = Some entry ->
  get_script_path w tid (file_name (metadata entry)) = Some script_path ->
  fst (execute_tool k E tid bop_data params w) = Ok r ->
  exists l : ExecLog,
    logs (snd (execute_tool k E tid bop_data params w)) = logs w ++ [(tid, l)]
    /\ log_tool_id l = tid
    /\ log_tool_name l = tool_name (metadata entry)
    /\ log_success l = success r
    /\ log_message l = Some (message r)
    /\ (success r = true ->
        log_return_code l = Some 0%Z
        /\ (exists tool_in,
              log_input l = Some tool_in /\ tool_input r = shown tool_in)
        /\ (exists tool_out,
              log_output l = Some tool_out /\ tool_output r = shown tool_out)).
Proof.
  intros Htool Hsp. rewrite execute_tool_anatomy, Htool, Hsp.
  destruct (params_fault params _) as [e|]; [discriminate|].
  cbv zeta. simpl fst. simpl snd.
  destruct (guarded_call_closes k E tid bop_data params w entry script_path)
    as [Hc _].
  cbv zeta in Hc. intros Hr. rewrite Hr in Hc.
  destruct Hc as (Hid & Hname & Hlogs & _ & Hmsg & Hsucc & Hrest).
  eexists. split; [unfold tidied, rmtree, _save_execution_log; simpl;
                   rewrite Hlogs; reflexivity|].
  repeat split; try assumption; now apply Hrest.
Qed.

Lemma saved_log_agrees_with_result_witness :
  let E := Scenarios.quiet_tool_env Scenarios.writes_file_and_prints in
  let w := Scenarios.one_tool_world Scenarios.sample_bop "pre" "post" in
  exists l : ExecLog,
    logs (snd (execute_tool 0 E "tool" 0 None w)) = [("tool", l)]
    /\ log_tool_name l = "Tool"
    /\ log_success l = true
    /\ log_return_code l = Some 0%Z.
Proof.
  intros E w.
  destruct (get_tool w "tool") as [entry|] eqn:Htool;
    [|vm_compute in Htool; discriminate].
  destruct (get_script_path w "tool" (file_name (metadata entry)))
    as [sp|] eqn:Hsp;
    [|vm_compute in Htool; injection Htool as <-;
      vm_compute in Hsp; discriminate].
  destruct (fst (execute_tool 0 E "tool" 0 None w)) as [r|e] eqn:Hr;
    [|vm_compute in Hr; discriminate].
  destruct (saved_log_agrees_with_result 0 E "tool" 0 None w entry sp r
              Htool Hsp Hr)
    as (l & Hlogs & _ & Hname & Hsucc & _ & Hrest).
  vm_compute in Htool. injection Htool as <-.
  vm_compute in Hr. injection Hr as <-.
  exists l. split; [exact Hlogs|]. split; [exact Hname|].
  split; [exact Hsucc|]. now apply Hrest.
Defined.

Ltac not_launched :=
  unfold launches; simpl; repeat split; intros;
  try discriminate; auto;
  match goal with
  | H : Ok _ = Ok _ |- _ => injection H as <-; discriminate
  end.

(** The tool is launched at most once in a call, whatever the repair
    budget: exactly once in a call that succeeds, and not at all in a call
    that raises an [Exception] or that does not find the tool or its
    script.  (What is raised inside the [try] block and is no [Exception],
    a [KeyboardInterrupt] say, goes on to the caller, after the launch or
    before it.) *)
Theorem tool_is_launched_at_most_once
    (k : nat) (E : Env) (tid : string) (bop_data : nat) (params : option nat)
    (w : world) :
  let out := execute_tool k E tid bop_data params w in
  launches (snd out) <= S (launches w)
  /\ (forall r, fst out = Ok r -> success r = true ->
        launches (snd out) = S (launches w))
  /\ (forall e, fst out = Raise e -> is_exception e = true ->
        launches (snd out) = launches w)
  /\ (get_tool w tid = None -> launches (snd out) = launches w)
  /\ (forall entry, get_tool w tid = Some entry ->
        get_script_path w tid (file_name (metadata entry)) = None ->
        launches (snd out) = launches w).
Proof.
  cbv zeta. rewrite execute_tool_anatomy.
  destruct (get_tool w tid) as [entry|] eqn:Htool.
  2:{ not_launched. }
  destruct (get_script_path w tid _) as [sp|] eqn:Hsp.
  2:{ not_launched. }
  destruct (params_fault params _) as [e|]; [not_launched|].
  cbv zeta. simpl fst. simpl snd.
  destruct (guarded_call_closes k E tid bop_data params w entry sp)
    as [Hc Hpass].
  cbv zeta in Hc, Hpass.
  destruct Hc as (_ & _ & _ & Hle & Hrest).
  change (launches (tidied E tid ?w')) with (launches w').
  split; [exact Hle|]. split.
  { intros r Hr Hs. rewrite Hr in Hrest. now apply Hrest. }
  split.
  { intros e He Hexc. rewrite (Hpass e He) in Hexc. discriminate. }
  split; [intros; discriminate|].
  intros entry' [= <-]. rewrite Hsp. discriminate.
Qed.

Lemma tool_is_launched_at_most_once_witness :
  let E := Scenarios.quiet_tool_env Scenarios.writes_file_and_prints in
  let w := Scenarios.one_tool_world Scenarios.sample_bop "pre" "post" in
  launches (snd (execute_tool 0 E "tool" 0 None w)) = 1.
Proof.
  intros E w.
  destruct (fst (execute_tool 0 E "tool" 0 None w)) as [r|e] eqn:Hr;
    [|vm_compute in Hr; discriminate].
  destruct (tool_is_launched_at_most_once 0 E "tool" 0 None w)
    as (_ & Hs & _).
  apply (Hs r Hr). vm_compute in Hr. now injection Hr as <-.
Defined.





(** An adapter that is interrupted: [KeyboardInterrupt] is no [Exception],
    the [except] clause lets it go to the caller, and the [finally] clause
    has saved the log of a failed run and removed the work directory. *)
Definition interrupted_env : Env :=
  Scenarios.scenario_env
    [("pre", [SRaise (BaseExn "KeyboardInterrupt" "interrupted")])]
    Scenarios.no_oracle (Scenarios.exits_with 0).

Example interrupt_leaves_through_finally :
  let w := Scenarios.one_tool_world Scenarios.sample_bop "pre" "post" in
  let out := execute_tool 0 interrupted_env "tool" 0 None w in
  fst out = Raise (BaseExn "KeyboardInterrupt" "interrupted")
  /\ map fst (logs (snd out)) = ["tool"]
  /\ map (fun x => log_success (snd x)) (logs (snd out)) = [false]
  /\ launches (snd out) = 0
  /\ workdirs (snd out) = workdirs w.
Proof. vm_compute. repeat split; reflexivity. Qed.

(* ===================================================================== *)
(** *** The shipped budget: [MAX_AUTO_REPAIR_ATTEMPTS = 0] *)
(* ===================================================================== *)

(** What a call without repairs leaves as it is: the adapter sources in
    use, the two repair fields of the log dict, the registry, the uploaded
    scripts and the writes of [adapter.json] recorded so far. *)
Definition unrepaired (w : world)
  : string * string * nat * bool * gmap string ToolDir
    * gmap (string * string) string * nat :=
  (current_pre_code (frame w), current_post_code (frame w),
   auto_repair_attempts (exec_log (frame w)),
   auto_repair_success (exec_log (frame w)),
   registry w, uploads w, count is_written (trace w)).

#[export] Instance unrepaired_blind : Blind unrepaired.
Proof.
  split; unfold unrepaired; simpl; intros; try reflexivity.
  rewrite count_snoc.
  destruct e; try discriminate; simpl; now rewrite Nat.add_0_r.
Qed.

Ltac unrepaired_obl :=
  first [ exact I
        | unfold same, unrepaired; simpl;
          rewrite ?count_snoc; simpl; rewrite ?Nat.add_0_r; reflexivity ].

Lemma deepcopy_unrepaired r :
  spec (same unrepaired) 0 any_value any_exn (deepcopy r).
Proof. intros w. split; [reflexivity | exact I]. Qed.

Lemma collect_tool_output_unrepaired output_file out :
  spec (same unrepaired) 0 any_value any_exn
       (collect_tool_output output_file out).
Proof. unfold collect_tool_output. spec_steps unrepaired_obl. Qed.

Lemma execute_subprocess_unrepaired E script_path work_dir input_file
      output_file execution_type :
  spec (same unrepaired) 0 any_value any_exn
       (_execute_subprocess E script_path work_dir input_file output_file
                            execution_type).
Proof.
  intros w. split; [|destruct (fst _); exact I].
  unfold same, unrepaired, _execute_subprocess, bind, get_world, emit, modify,
    raise, ret.
  simpl.
  destruct (subprocess_run E _ _) as [out err rc [f|]| | |]; simpl;
    rewrite count_snoc; simpl; now rewrite Nat.add_0_r.
Qed.

Lemma unrepaired_fields (w w' : world) :
  unrepaired w' = unrepaired w ->
  current_pre_code (frame w') = current_pre_code (frame w)
  /\ current_post_code (frame w') = current_post_code (frame w)
  /\ auto_repair_attempts (exec_log (frame w'))
     = auto_repair_attempts (exec_log (frame w))
  /\ auto_repair_success (exec_log (frame w'))
     = auto_repair_success (exec_log (frame w))
  /\ registry w' = registry w
  /\ uploads w' = uploads w
  /\ count is_written (trace w') = count is_written (trace w).
Proof. unfold unrepaired. intros [= ? ? ? ? ? ? ?]. repeat split; assumption. Qed.

Ltac wp_unrepaired lem :=
  eapply (wp_same unrepaired);
  [ apply lem
  | let o := fresh "o" in
    let w' := fresh "w" in
    let Hs := fresh "Hs" in
    intros o w' Hs; apply unrepaired_fields in Hs; simpl in Hs;
    destruct Hs as (? & ? & ? & ? & ? & ? & ?) ].

Ltac wp_step0 :=
  lazymatch goal with
  | |- wp (bind _ _) _ _ => apply wp_bind
  | |- wp (ret _) _ _ => apply wp_ret
  | |- wp (raise _) _ _ => apply wp_raise
  | |- wp (modify _) _ _ => apply wp_modify
  | |- wp (update_log _) _ _ => unfold update_log
  | |- wp (log_message_is _) _ _ => unfold log_message_is
  | |- wp get_log _ _ => apply wp_get_log
  | |- wp get_pre_code _ _ => apply wp_get_pre_code
  | |- wp get_post_code _ _ => apply wp_get_post_code
  | |- wp (deref _) _ _ => apply wp_deref
  | |- wp get_world _ _ => apply wp_get_world
  | |- wp (lift_outcome ?o) _ _ => apply wp_lift; destruct o eqn:?
  | |- wp (collect_tool_output _ _) _ _ =>
      wp_unrepaired collect_tool_output_unrepaired
  | |- wp (deepcopy _) _ _ => wp_unrepaired deepcopy_unrepaired
  | |- wp (post_loop 0 _ _ _ _ _) _ _ =>
      wp_unrepaired (post_loop_unrepaired unrepaired)
  | |- wp (pre_loop 0 _ _ _ _ _) _ _ =>
      wp_unrepaired (pre_loop_unrepaired unrepaired)
  | |- wp (catch _) _ _ => apply wp_catch
  | |- wp (_execute_subprocess _ _ _ _ _ _) _ _ =>
      wp_unrepaired execute_subprocess_unrepaired; cbv beta
  | |- wp (let _ := _ in _) _ _ => cbv zeta
  | |- before _ _ (Ok _) _ => unfold before at 1; cbv beta iota
  | |- before _ _ (Raise _) _ => unfold before at 1; cbv beta iota
  | |- before _ _ ?o _ => is_var o; destruct o
  | |- caught _ (Ok _) _ => unfold caught at 1; cbv beta iota
  | |- caught _ (Raise ?e) _ =>
      unfold caught at 1; cbv beta iota; destruct (is_exception e) eqn:?
  | |- caught _ ?o _ => is_var o; destruct o
  | |- wp (if ?c then _ else _) _ _ => destruct c eqn:?
  | |- wp (match ?x with _ => _ end) _ _ => destruct x eqn:?
  end.

(** The sources loaded are the ones in use, no repair is counted, and the
    registry [reg], the uploads [up] and the [n] recorded writes are as at
    the start. *)
Definition as_loaded (original : AdapterCode) (reg : gmap string ToolDir)
    (up : gmap (string * string) string) (n : nat) (w : world) : Prop :=
  current_pre_code (frame w) = pre_process_code original
  /\ current_post_code (frame w) = post_process_code original
  /\ auto_repair_attempts (exec_log (frame w)) = 0
  /\ auto_repair_success (exec_log (frame w)) = false
  /\ registry w = reg /\ uploads w = up
  /\ count is_written (trace w) = n.

(** What a result says of repairs when there were none. *)
Definition reports_no_repair (r : ExecuteResult) : Prop :=
  auto_repair_attempted r <> Some true
  /\ auto_repaired r <> Some true
  /\ (success r = true ->
      auto_repaired r = Some false
      /\ message r = "도구 실행이 완료되었습니다.").

Definition ends_as_loaded (original : AdapterCode) (reg : gmap string ToolDir)
    (up : gmap (string * string) string) (n : nat)
    (o : outcome ExecuteResult) (w : world) : Prop :=
  as_loaded original reg up n w
  /\ match o with
     | Ok r => reports_no_repair r
     | Raise _ => True
     end.

Ltac code_rewrite :=
  repeat (first
            [ match goal with
              | H : ?f (exec_log (frame ?w')) = _
                |- context [?f (exec_log (frame ?w'))] => rewrite H
              end
            | match goal with
              | H : ?f (frame ?w') = _
                |- context [?f (frame ?w')] => rewrite H
              end
            | match goal with
              | H : ?f ?w' = _ |- context [?f ?w'] =>
                  is_var w'; rewrite H
              end ];
          simpl).

Ltac as_loaded_obl :=
  unfold ends_as_loaded, as_loaded, reports_no_repair in *; simpl in *;
  repeat match goal with
         | H : _ /\ _ |- _ => destruct H
         end;
  code_rewrite;
  repeat first [split | intros ?];
  code_rewrite;
  try congruence; try discriminate; try reflexivity.

(** The sources in use are the loaded ones: nothing is written back. *)
Ltac no_repair_branch :=
  match goal with
  | H : negb (String.eqb _ _) || negb (String.eqb _ _) = true |- _ =>
      exfalso; simpl in H;
      repeat match type of H with
             | context [?f (frame ?w')] =>
                 match goal with
                 | H' : f (frame w') = _ |- _ => rewrite H' in H
                 end
             end;
      rewrite !String.eqb_refl in H; discriminate H
  end.

Ltac wp_run0 :=
  repeat first [no_repair_branch | wp_step0]; try solve [as_loaded_obl].

Section Shipped.
Variable E : Env.
Variables (tid : string) (original : AdapterCode).
Variables (reg : gmap string ToolDir) (up : gmap (string * string) string).
Variable n : nat.

Lemma finish_as_loaded before_ updated tool_in tool_out out err w :
  as_loaded original reg up n w ->
  wp (finish E tid original before_ updated tool_in tool_out out err)
     (ends_as_loaded original reg up n) w.
Proof.
  intros (Hpre & Hpost & Hatt & Hsucc & Hreg & Hup & Hn). unfold finish.
  wp_run0.
Qed.

Lemma post_phase_as_loaded bop_data tool_in tool_out out err w :
  as_loaded original reg up n w ->
  wp (post_phase 0 E tid original bop_data tool_in tool_out out err)
     (ends_as_loaded original reg up n) w.
Proof.
  intros (Hpre & Hpost & Hatt & Hsucc & Hreg & Hup & Hn). unfold post_phase.
  wp_run0.
  apply finish_as_loaded; as_loaded_obl.
Qed.

Lemma launch_phase_as_loaded entry script_path work_dir bop_data tool_in w :
  adapter entry = original ->
  as_loaded original reg up n w ->
  wp (launch_phase 0 E tid entry script_path work_dir bop_data tool_in)
     (ends_as_loaded original reg up n) w.
Proof.
  intros Hentry (Hpre & Hpost & Hatt & Hsucc & Hreg & Hup & Hn).
  unfold launch_phase. rewrite Hentry. wp_run0.
  apply post_phase_as_loaded; as_loaded_obl.
Qed.

Lemma pipeline_as_loaded entry script_path work_dir bop_data params w :
  adapter entry = original ->
  as_loaded original reg up n w ->
  wp (pipeline 0 E tid entry script_path work_dir bop_data params)
     (ends_as_loaded original reg up n) w.
Proof.
  intros Hentry (Hpre & Hpost & Hatt & Hsucc & Hreg & Hup & Hn).
  unfold pipeline. wp_run0.
  apply launch_phase_as_loaded; [exact Hentry | as_loaded_obl].
Qed.

Lemma guarded_as_loaded entry script_path work_dir bop_data params w :
  adapter entry = original ->
  as_loaded original reg up n w ->
  wp (try_except
        (pipeline 0 E tid entry script_path work_dir bop_data params)
        except_handler)
     (ends_as_loaded original reg up n) w.
Proof.
  intros Hentry Hw. apply wp_try_except.
  eapply wp_mono; [now apply pipeline_as_loaded|].
  intros [r|e] w' Hc; [exact Hc|].
  destruct (is_exception e); [|exact Hc].
  unfold except_handler. destruct Hc as [Hc _]. wp_run0.
Qed.

End Shipped.

Ltac stops_early :=
  simpl; split; [reflexivity|]; split; [reflexivity|]; split; [reflexivity|];
  split;
  [ let r := fresh "r" in
    let Hr := fresh "Hr" in
    intros r Hr; try discriminate Hr; injection Hr as <-; simpl;
    repeat split; discriminate
  | exists []; split; [now rewrite app_nil_r | constructor] ].

(** With the repair budget that the module ships, [MAX_AUTO_REPAIR_ATTEMPTS
    = 0], a call only reads the registry: the tool directories, the
    uploaded scripts and every [adapter.json] are afterwards as they were,
    whatever the adapters and the tool do.  The result never reports a
    repair, a success carries the plain message and [auto_repaired =
    False], and the log it saves counts no repair attempt. *)
Theorem shipped_budget_only_reads_the_registry
    (E : Env) (tid : string) (bop_data : nat) (params : option nat)
    (w : world) :
  let out := execute_tool 0 E tid bop_data params w in
  registry (snd out) = registry w
  /\ uploads (snd out) = uploads w
  /\ count is_written (trace (snd out)) = count is_written (trace w)
  /\ (forall r, fst out = Ok r ->
        auto_repair_attempted r <> Some true
        /\ auto_repaired r <> Some true
        /\ (success r = true ->
            auto_repaired r = Some false
            /\ message r = "도구 실행이 완료되었습니다."))
  /\ (exists added,
        logs (snd out) = logs w ++ added
        /\ Forall (fun x => auto_repair_attempts (snd x) = 0
                            /\ auto_repair_success (snd x) = false) added).
Proof.
  cbv zeta. rewrite execute_tool_anatomy.
  destruct (get_tool w tid) as [entry|] eqn:Htool.
  2:{ stops_early. }
  destruct (get_script_path w tid _) as [sp|] eqn:Hsp.
  2:{ stops_early. }
  destruct (params_fault params _) as [e|]; [stops_early|].
  cbv zeta. simpl fst. simpl snd.
  destruct (guarded_call_closes 0 E tid bop_data params w entry sp)
    as [(_ & _ & Hlogs & _) _].
  pose proof (guarded_as_loaded E tid (adapter entry) (registry w) (uploads w)
                (count is_written (trace w)) entry sp (work_dir_of E tid)
                (fresh (dom (heap w))) params
                (started E tid entry (copied bop_data w)) eq_refl) as Hrun.
  unfold wp in Hrun.
  destruct Hrun as [(Hpre & Hpost & Hatt & Hsucc & Hreg & Hup & Hn) Hres].
  { repeat split. }
  set (run := try_except _ _ _) in *.
  split; [exact Hreg|]. split; [exact Hup|]. split; [exact Hn|]. split.
  - intros r Hr. rewrite Hr in Hres. exact Hres.
  - exists [(tid, exec_log (frame (snd run)))]. split.
    + unfold tidied, rmtree, _save_execution_log. simpl. now rewrite Hlogs.
    + constructor; [|constructor]. split; assumption.
Qed.

End LogFacts.

(* ===================================================================== *)
(** ** The objects of the caller *)
(* ===================================================================== *)

Module FrameFacts.
Import Py World Sandbox Registry Sanitizer Executor Logic SandboxFacts.
Import ExecutorFacts.
Local Open Scope py_scope.

(** Two runs that start alike and go on alike are alike. *)
Lemma bind_agree {A B} (m m' : M A) (k k' : A -> M B) (w : world) :
  m w = m' w ->
  (forall a, fst (m' w) = Ok a -> k a (snd (m' w)) = k' a (snd (m' w))) ->
  bind m k w = bind m' k' w.
Proof.
  intros Hm Hk. unfold bind. rewrite Hm.
  destruct (m' w) as [[a|e] w1]; [|reflexivity]. now apply Hk.
Qed.

Section EmptyParams.
Variable k : nat.
Variable E : Env.
Variables (r : nat) (v : pyval).
Hypothesis v_falsy : truthy v = false.

(** [params or {}] for an empty [params]. *)
Lemma params_or_empty_falsy (w : world) :
  heap w !! r = Some v ->
  params_or_empty (Some r) w = params_or_empty None w.
Proof.
  intros Hv. unfold params_or_empty, bind, deref, ret. simpl.
  rewrite Hv. simpl. now rewrite v_falsy.
Qed.

Lemma run_preprocessor_falsy code bop_data (w : world) :
  heap w !! r = Some v ->
  _run_preprocessor E code bop_data (Some r) w
  = _run_preprocessor E code bop_data None w.
Proof.
  intros Hv. unfold _run_preprocessor.
  apply bind_agree; [reflexivity|]. intros ns _.
  destruct (ns !! "convert_bop_to_input") as [fn|]; [|reflexivity].
  destruct (negb (ns_truthy fn)); [reflexivity|].
  apply bind_agree; [reflexivity|]. intros sig _.
  destruct (length sig <? 2)%nat; [reflexivity|].
  apply bind_agree; [|reflexivity].
  simpl snd. apply params_or_empty_falsy.
  pose proof (exec_adds_no_invocation E code sandbox_namespace w) as [_ Hh].
  now rewrite Hh.
Qed.

(** The pre-processor leaves every object but its two arguments alone. *)
Lemma run_preprocessor_keeps code bop_data (w : world) :
  bop_data <> r ->
  heap w !! r = Some v ->
  heap (snd (_run_preprocessor E code bop_data None w)) !! r = Some v.
Proof.
  intros Hb Hv.
  destruct (spec_run _ _ _ _ _ w
              (run_preprocessor_free (kept r) 0 0 0 (fun x => x <> r) E
                 bop_data None Hb ltac:(discriminate) code)) as [H _].
  now apply H.
Qed.

Lemma pre_loop_falsy bop_data attempts pre_error (w : world) :
  bop_data <> r ->
  heap w !! r = Some v ->
  pre_loop k E bop_data (Some r) attempts pre_error w
  = pre_loop k E bop_data None attempts pre_error w.
Proof.
  intros Hb. revert pre_error w.
  induction attempts as [|attempt rest IH]; intros pre_error w Hv;
    [reflexivity|].
  cbn [pre_loop].
  apply bind_agree; [reflexivity|]. intros code _.
  change (snd (get_pre_code w)) with w.
  assert (heap (snd (catch (_run_preprocessor E code bop_data None) w)) !! r
          = Some v) as Hkept.
  { unfold catch.
    pose proof (run_preprocessor_keeps code bop_data w Hb Hv) as H.
    destruct (_run_preprocessor E code bop_data None w) as [[s|e] w0];
      [exact H|].
    destruct (is_exception e); exact H. }
  apply bind_agree.
  { unfold catch. now rewrite run_preprocessor_falsy. }
  set (w1 := snd (catch _ w)) in *.
  intros [s|e] _; [reflexivity|].
  destruct (attempt <? k)%nat; [|now apply IH].
  apply bind_agree; [reflexivity|]. intros _ _.
  cbv zeta.
  apply bind_agree; [reflexivity|]. intros bop _.
  apply bind_agree; [reflexivity|]. intros text _.
  apply bind_agree; [reflexivity|]. intros fixed_code _.
  destruct (accepted fixed_code) as [c|]; [|reflexivity].
  apply bind_agree; [reflexivity|]. intros _ _.
  apply IH. exact Hkept.
Qed.

Lemma pipeline_falsy tid entry script_path work_dir bop_data (w : world) :
  bop_data <> r ->
  heap w !! r = Some v ->
  pipeline k E tid entry script_path work_dir bop_data (Some r) w
  = pipeline k E tid entry script_path work_dir bop_data None w.
Proof.
  intros Hb Hv. unfold pipeline.
  apply bind_agree; [|reflexivity]. now apply pre_loop_falsy.
Qed.

End EmptyParams.

Lemma execute_tool_falsy
    (k : nat) (E : Env) (tid : string) (bop_data : nat) (w : world)
    (r : nat) (v : pyval) :
  heap w !! r = Some v ->
  truthy v = false ->
  execute_tool k E tid bop_data (Some r) w
  = execute_tool k E tid bop_data None w.
Proof.
  intros Hv Hfalse. rewrite !execute_tool_anatomy.
  assert (fresh (dom (heap w)) <> r) as Hfresh
    by (eapply fresh_is_new; eassumption).
  assert (heap (copied bop_data w) !! r = Some v) as Hcopy.
  { unfold copied. simpl. now rewrite lookup_insert_ne. }
  destruct (get_tool w tid) as [entry|]; [|reflexivity].
  destruct (get_script_path w tid _) as [sp|]; [|reflexivity].
  assert (params_fault (Some r) (copied bop_data w) = None) as ->.
  { unfold params_fault. rewrite Hcopy. simpl. now rewrite Hfalse. }
  simpl params_fault. cbv zeta.
  unfold try_except.
  rewrite (pipeline_falsy k E r v Hfalse); [reflexivity | exact Hfresh |].
  exact Hcopy.
Qed.

(** An empty [params] - [{}], or any other object that Python takes for
    false - is no [params] to the run: the call returns the same result as
    the call with [params = None], and leaves the same objects, registry,
    scripts, directories and files, after the same statements, invocations
    and launches, with a log saved for the same tools.  (The saved log
    itself tells the two calls apart: its [params] entry, which the log
    record here leaves out, is the [params] that was given.) *)
Theorem empty_params_is_no_params
    (k : nat) (E : Env) (tid : string) (bop_data : nat) (w : world)
    (r : nat) (v : pyval) :
  heap w !! r = Some v ->
  truthy v = false ->
  let given := execute_tool k E tid bop_data (Some r) w in
  let none := execute_tool k E tid bop_data None w in
  fst given = fst none
  /\ heap (snd given) = heap (snd none)
  /\ registry (snd given) = registry (snd none)
  /\ uploads (snd given) = uploads (snd none)
  /\ workdirs (snd given) = workdirs (snd none)
  /\ files (snd given) = files (snd none)
  /\ trace (snd given) = trace (snd none)
  /\ map fst (logs (snd given)) = map fst (logs (snd none)).
Proof.
  intros Hv Hfalse. cbv zeta.
  rewrite (execute_tool_falsy k E tid bop_data w r v Hv Hfalse).
  repeat split.
Qed.

Lemma empty_params_is_no_params_witness :
  let E := Scenarios.mutating_env Scenarios.writes_into_params 0 in
  let w := Scenarios.with_params (PDict [])
             (Scenarios.one_tool_world Scenarios.sample_bop "pre" "post") in
  fst (execute_tool 0 E "tool" 0 (Some 1) w)
  = fst (execute_tool 0 E "tool" 0 None w)
  /\ heap (snd (execute_tool 0 E "tool" 0 (Some 1) w))
     = heap (snd (execute_tool 0 E "tool" 0 None w)).
Proof.
  intros E w.
  destruct (empty_params_is_no_params 0 E "tool" 0 w 1 (PDict []))
    as (Hres & Hheap & _).
  - vm_compute. reflexivity.
  - reflexivity.
  - split; [exact Hres | exact Hheap].
Defined.

(** Of the objects the caller holds, the call can change one only: a
    [params] that is not empty, which the pre-processor gets uncopied.  Every
    other object - the domain object, an empty [params], anything else - is
    afterwards what it was, whether the call returns or raises. *)
Theorem only_nonempty_params_is_written
    (k : nat) (E : Env) (tid : string) (bop_data : nat) (params : option nat)
    (w : world) (r : nat) (v : pyval) :
  heap w !! r = Some v ->
  (params = Some r -> truthy v = false) ->
  heap (snd (execute_tool k E tid bop_data params w)) !! r = Some v.
Proof.
  intros Hv Hp.
  assert (forall params', params' <> Some r ->
            heap (snd (execute_tool k E tid bop_data params' w)) !! r = Some v)
    as Hother.
  { intros params' Hne. rewrite execute_tool_anatomy.
    assert (fresh (dom (heap w)) <> r) as Hfresh
      by (eapply fresh_is_new; eassumption).
    assert (heap (copied bop_data w) !! r = Some v) as Hcopy.
    { unfold copied. simpl. now rewrite lookup_insert_ne. }
    destruct (get_tool w tid) as [entry|]; [|exact Hcopy].
    destruct (get_script_path w tid _) as [sp|]; [|exact Hcopy].
    destruct (params_fault params' _) as [e|]; [exact Hcopy|].
    cbv zeta. simpl snd.
    assert (forall x, params' = Some x -> x <> r) as Hparams
      by (intros x -> ->; now apply Hne).
    destruct (spec_run _ _ _ _ _ (started E tid entry (copied bop_data w))
                (guarded_cost (kept r) 0 0 0 (fun x => x <> r) k E
                   (fresh (dom (heap w))) params' Hfresh Hparams
                   tid entry sp (work_dir_of E tid))) as [H _].
    apply (H v Hcopy). }
  destruct (decide (params = Some r)) as [->|Hne]; [|now apply Hother].
  rewrite (execute_tool_falsy k E tid bop_data w r v Hv (Hp eq_refl)).
  now apply Hother.
Qed.

Lemma only_nonempty_params_is_written_witness :
  let E := Scenarios.mutating_env Scenarios.writes_into_params 0 in
  let w := Scenarios.with_params (PDict [])
             (Scenarios.one_tool_world Scenarios.sample_bop "pre" "post") in
  heap (snd (execute_tool 0 E "tool" 0 (Some 1) w)) !! 1 = Some (PDict []).
Proof.
  intros E w.
  apply (only_nonempty_params_is_written 0 E "tool" 0 (Some 1) w 1 (PDict [])).
  - vm_compute. reflexivity.
  - intros _. reflexivity.
Defined.

End FrameFacts.

(* ===================================================================== *)
(** ** The two runners of adapter code *)
(* ===================================================================== *)

Module RunnerFacts.
Import Py World Sandbox Registry Sanitizer Executor Logic SandboxFacts.
Local Open Scope py_scope.

Lemma exec_returns (E : Env) (code : string) (ns ns' : namespace)
                   (w w' : world) :
  exec E code ns w = (Ok ns', w') ->
  exists prog,
    py_compile E code = Ok prog
    /\ w' = set_trace (trace w ++ map EvStatement prog) w.
Proof.
  unfold exec, bind at 1, lift_outcome.
  destruct (py_compile E code) as [prog|e]; [|discriminate].
  intros H. exists prog. split; [reflexivity|].
  eapply exec_stmts_completed. exact H.
Qed.

(** A call that returns: the body was entered once, and what it did to its
    arguments is in the objects. *)
Lemma call_returns (fname : string) (o : nsobj) (a : nat) (b result : pyval)
                   (b_ref : option nat) (w w' : world) :
  call fname o a b b_ref w = (Ok result, w') ->
  exists f,
    o = NFunc f
    /\ let va := default (PDict []) (heap w !! a) in
       returned (body f va b) = Ok result
       /\ trace w' = trace w ++ [EvInvoked fname va b]
       /\ heap w'
          = <[a := first_after (body f va b)]>
              (match b_ref with
               | Some r => <[r := second_after (body f va b)]> (heap w)
               | None => heap w
               end).
Proof.
  unfold call. destruct o as [x|f|x]; try discriminate.
  destruct (accepts_two_positional (parameters f)); [|discriminate].
  unfold bind, deref, emit, store, modify, ret, lift_outcome. simpl.
  destruct b_ref as [r|]; simpl;
    (destruct (returned _) as [res|e] eqn:Hret; [|discriminate]);
    intros [= <- <-]; exists f; (split; [reflexivity|]); cbv zeta;
    (split; [exact Hret | split; reflexivity]).
Qed.

(** [params or {}] *)
Definition params_value (params : option nat) (w : world) : pyval :=
  match params with
  | Some r =>
      let v := default (PDict []) (heap w !! r) in
      if truthy v then v else PDict []
  | None => PDict []
  end.

(** A pre-processor run that returns has executed every top-level
    statement of the source, in order, and then entered once, with the
    domain object and [params or {}], the function that the source leaves
    under the name [convert_bop_to_input]; that function declares two
    parameters at least; what the run hands back is text: the text the
    function returned, or the JSON rendering of what it returned. *)
Theorem preprocessor_hands_back_text
    (E : Env) (code : string) (bop_data : nat) (params : option nat)
    (w w' : world) (text : string) :
  _run_preprocessor E code bop_data params w = (Ok text, w') ->
  let bop := default (PDict []) (heap w !! bop_data) in
  let p := params_value params w in
  exists prog ns f result,
    py_compile E code = Ok prog
    /\ fst (exec E code sandbox_namespace w) = Ok ns
    /\ ns !! "convert_bop_to_input" = Some (NFunc f)
    /\ 2 <= length (parameters f)
    /\ returned (body f bop p) = Ok result
    /\ match result with
       | PStr s => text = s
       | _ => json_dumps E None result = Ok text
       end
    /\ trace w' = trace w ++ map EvStatement prog
                          ++ [EvInvoked "convert_bop_to_input" bop p].
Proof.
  unfold _run_preprocessor, bind at 1.
  destruct (exec E code sandbox_namespace w) as [[ns|e] w1] eqn:Hexec;
    [|discriminate].
  destruct (exec_returns _ _ _ _ _ _ Hexec) as (prog & Hprog & ->).
  destruct (ns !! "convert_bop_to_input") as [fn|] eqn:Hfn; [|discriminate].
  destruct (negb (ns_truthy fn)); [discriminate|].
  unfold bind at 1, lift_outcome.
  destruct (signature fn) as [sig|e] eqn:Hsig; [|discriminate].
  destruct (length sig <? 2)%nat eqn:Hlen; [discriminate|].
  apply Nat.ltb_ge in Hlen.
  unfold bind at 1.
  assert (params_or_empty params
            (set_trace (trace w ++ map EvStatement prog) w)
          = (Ok (params_value params w,
                 match params with
                 | Some r =>
                     if truthy (default (PDict []) (heap w !! r))
                     then Some r else None
                 | None => None
                 end),
             set_trace (trace w ++ map EvStatement prog) w)) as ->.
  { unfold params_or_empty, params_value. destruct params as [r|];
      [|reflexivity].
    unfold bind, deref, ret. simpl. now destruct (truthy _). }
  simpl fst. simpl snd. unfold bind at 1.
  destruct (call "convert_bop_to_input" fn bop_data _ _ _)
    as [[res|e] w2] eqn:Hcall; [|discriminate].
  destruct (call_returns _ _ _ _ _ _ _ _ Hcall) as (f & -> & Hret & Htr & _).
  simpl in Hret, Htr, Hsig. injection Hsig as <-.
  intros Hres.
  assert (w' = w2
          /\ match res with
             | PStr s => text = s
             | _ => json_dumps E None res = Ok text
             end) as [-> Htext].
  { destruct res; unfold ret, lift_outcome in Hres;
      first [ now injection Hres as <- <-
            | destruct (json_dumps E None _) as [t|e]; [|discriminate];
              now injection Hres as <- <- ]. }
  exists prog, ns, f, res.
  split; [exact Hprog|]. split; [reflexivity|]. split; [exact Hfn|].
  split; [exact Hlen|]. split; [exact Hret|].
  split; [exact Htext|].
  cbv zeta. rewrite Htr. now rewrite <- app_assoc.
Qed.

Lemma preprocessor_hands_back_text_witness :
  let E := Scenarios.quiet_tool_env Scenarios.writes_file_and_prints in
  let w := Scenarios.one_tool_world Scenarios.sample_bop "pre" "post" in
  exists prog (ns : namespace) f,
    py_compile E "pre" = Ok prog
    /\ ns !! "convert_bop_to_input" = Some (NFunc f)
    /\ 2 <= length (parameters f)
    /\ trace (snd (_run_preprocessor E "pre" 0 None w))
       = map EvStatement prog
           ++ [EvInvoked "convert_bop_to_input" Scenarios.sample_bop (PDict [])].
Proof.
  intros E w.
  destruct (_run_preprocessor E "pre" 0 None w) as [[text|e] w'] eqn:Hrun;
    [|vm_compute in Hrun; discriminate].
  destruct (preprocessor_hands_back_text E "pre" 0 None w w' text Hrun)
    as (prog & ns & f & result & Hprog & _ & Hfn & Hlen & _ & _ & Htr).
  exists prog, ns, f. split; [exact Hprog|]. split; [exact Hfn|].
  split; [exact Hlen|]. exact Htr.
Defined.

(** A post-processor run that returns has executed every top-level
    statement of the source, in order, and then entered once, with the
    domain object and the parsed tool output ([{"raw_output": tool_output}]
    when that is no JSON), the function that the source leaves under the
    name [apply_result_to_bop]; what it hands back is the very value that
    function returned, and that is a dict. *)
Theorem postprocessor_hands_back_the_functions_dict
    (E : Env) (code : string) (bop_data : nat) (tool_output : string)
    (w w' : world) (result : pyval) :
  _run_postprocessor E code bop_data tool_output w = (Ok result, w') ->
  let bop := default (PDict []) (heap w !! bop_data) in
  let parsed := match json_loads E tool_output with
                | Some v => v
                | None => PDict [(KStr "raw_output", PStr tool_output)]
                end in
  exists prog ns f entries,
    py_compile E code = Ok prog
    /\ fst (exec E code sandbox_namespace w) = Ok ns
    /\ ns !! "apply_result_to_bop" = Some (NFunc f)
    /\ result = PDict entries
    /\ returned (body f bop parsed) = Ok result
    /\ trace w' = trace w ++ map EvStatement prog
                          ++ [EvInvoked "apply_result_to_bop" bop parsed]
    /\ heap w' = <[bop_data := first_after (body f bop parsed)]> (heap w).
Proof.
  unfold _run_postprocessor, bind at 1.
  destruct (exec E code sandbox_namespace w) as [[ns|e] w1] eqn:Hexec;
    [|discriminate].
  destruct (exec_returns _ _ _ _ _ _ Hexec) as (prog & Hprog & ->).
  destruct (ns !! "apply_result_to_bop") as [fn|] eqn:Hfn; [|discriminate].
  destruct (negb (ns_truthy fn)); [discriminate|].
  cbv zeta. unfold bind at 1.
  fold (parse_tool_output E tool_output).
  destruct (call "apply_result_to_bop" fn bop_data _ None _)
    as [[res|e] w2] eqn:Hcall; [|discriminate].
  destruct (call_returns _ _ _ _ _ _ _ _ Hcall)
    as (f & -> & Hret & Htr & Hheap).
  simpl in Hret, Htr, Hheap.
  destruct res as [| | | | | | | entries |]; try discriminate.
  intros [= <- <-]. exists prog, ns, f, entries.
  split; [exact Hprog|]. split; [reflexivity|]. split; [exact Hfn|].
  split; [reflexivity|]. split; [exact Hret|].
  split; [rewrite Htr; now rewrite <- app_assoc | exact Hheap].
Qed.

Lemma postprocessor_hands_back_the_functions_dict_witness :
  let E := Scenarios.quiet_tool_env Scenarios.writes_file_and_prints in
  let w := Scenarios.one_tool_world Scenarios.sample_bop "pre" "post" in
  exists entries,
    fst (_run_postprocessor E "post" 0 "{}" w) = Ok (PDict entries).
Proof.
  intros E w.
  destruct (_run_postprocessor E "post" 0 "{}" w) as [[res|e] w'] eqn:Hrun;
    [|vm_compute in Hrun; discriminate].
  destruct (postprocessor_hands_back_the_functions_dict
              E "post" 0 "{}" w w' res Hrun)
    as (prog & ns & f & entries & _ & _ & _ & -> & _).
  exists entries. reflexivity.
Defined.

End RunnerFacts.
